(** * super-cliffords: the binary stabilizer engine (OTOC.py, circuits.py, steps.py)

    A shallow embedding of the GF(2) row reduction with rowsum sign
    tracking ([REF_binary], [g], [row_sum]), of the OTOC sample weight, of the
    entropy sampling loops of circuits.py and of [Step.validate].

    Conventions.  A numpy 2-D array is a list of rows, a row a list of
    integers; [A[i, j]] and [signs[i]] raise [IndexError] out of range,
    which the embedding keeps as an explicit error result.  Python integers
    are [Z]; [%] is Python's floored remainder, which is [Z.modulo]. *)

From Stdlib Require Import ZArith QArith Lia Reals Lra Ascii.
From stdpp Require Import base tactics option relations list sorting strings.

Local Open Scope Z_scope.

(** ** Exceptions and the error monad *)

Inductive exn : Type :=
  | IndexError
  | UnboundLocalError (name : string)
  | NameError (name : string)
  | ZeroDivisionError
  | ValueError (what : string)
  | InvalidCut.

Inductive result (A : Type) : Type :=
  | Ok (a : A)
  | Raise (e : exn).
Arguments Ok {A} a.
Arguments Raise {A} e.

#[global] Instance result_ret : MRet result := @Ok.
#[global] Instance result_bind : MBind result := fun A B f m =>
  match m with
  | Ok a => f a
  | Raise e => Raise e
  end.

Definition of_option {A} (e : exn) (o : option A) : result A :=
  match o with
  | Some a => Ok a
  | None => Raise e
  end.

(** ** Data *)

Abbreviation row := (list Z).
Abbreviation matrix := (list (list Z)).

(** [r[j]] on a 1-D array. *)
Definition getitem (r : list Z) (j : nat) : result Z :=
  of_option IndexError (r !! j).

(** [A[i, j]] on a 2-D array. *)
Definition getitem2 (A : matrix) (i j : nat) : result Z :=
  r ← of_option IndexError (A !! i); getitem r j.

(** [A.shape]: the number of rows and the number of columns.  An array
    without rows is given 0 columns: the column loop of [REF_binary] leaves
    at once when there are no rows, whatever the number of columns. *)
Definition shape (A : matrix) : nat * nat :=
  (length A, match A with [] => 0%nat | r :: _ => length r end).

(** ** OTOC.py: [g] and [row_sum] *)

(** [g] is four guarded assignments to a local variable followed by
    [return g]; when no guard holds the local is unbound. *)
Definition g (x1 z1 x2 z2 : Z) : result Z :=
  let g0 : option Z := None in
  let g1 := if (x1 =? 0) && (z1 =? 0) then Some 0 else g0 in
  let g2 := if (x1 =? 0) && (z1 =? 1) then Some (x2 * (1 - 2 * z2)) else g1 in
  let g3 := if (x1 =? 1) && (z1 =? 0) then Some (z2 * (2 * x2 - 1)) else g2 in
  let g4 := if (x1 =? 1) && (z1 =? 1) then Some (z2 - x2) else g3 in
  of_option (UnboundLocalError "g") g4.

(** The loop [for j in range(N): k += g(i[j], i[j+N], h[j], h[j+N])],
    over the remaining values [js] of [j]. *)
Fixpoint row_sum_loop (h i : row) (N : nat) (js : list nat) (k : Z) : result Z :=
  match js with
  | [] => Ok k
  | j :: js' =>
      x1 ← getitem i j;
      z1 ← getitem i (j + N);
      x2 ← getitem h j;
      z2 ← getitem h (j + N);
      gv ← g x1 z1 x2 z2;
      row_sum_loop h i N js' (k + gv)
  end.

Definition row_sum (h i : row) (rh ri : Z) (N : nat) : result Z :=
  k ← row_sum_loop h i N (seq 0 N) 0;
  let f := 2 * rh + 2 * ri + k in
  if f mod 4 =? 0 then Ok 0 else Ok 1.

(** *** The rule of the specification, for comparison *)

Definition is_bit (x : Z) : Prop := x = 0 ∨ x = 1.
Definition binary_row (r : row) : Prop := Forall is_bit r.

(** The table of the specification: by case on [(x1, z1)]. *)
Definition g_table (x1 z1 x2 z2 : Z) : Z :=
  match x1, z1 with
  | 0, 0 => 0
  | 0, 1 => x2 * (1 - 2 * z2)
  | 1, 0 => z2 * (2 * x2 - 1)
  | 1, 1 => z2 - x2
  | _, _ => 0
  end.

(** [k = Σ_{j=0}^{N-1} g(rowI[j], rowI[j+N], rowH[j], rowH[j+N])], read
    with default 0 (never used on rows of width 2N). *)
Definition combine_sum (rowH rowI : row) (N : nat) : Z :=
  foldr Z.add 0
    (map (fun j : nat => g_table (rowI !!! j) (rowI !!! (j + N)%nat)
                           (rowH !!! j) (rowH !!! (j + N)%nat)) (seq 0 N)).

Definition combine (rowH rowI : row) (signH signI : Z) (N : nat) : Z :=
  let f := 2 * signH + 2 * signI + combine_sum rowH rowI N in
  if f mod 4 =? 0 then 0 else 1.

(** ** OTOC.py: [REF_binary] *)

(** [(A[i] + A[pivot_row]) % 2], elementwise (two rows of one array have
    the same length). *)
Definition row_add (r p : row) : row :=
  zip_with (fun a b => (a + b) mod 2) r p.

(** The exchange of the entries at [a] and [b]: what
    [A[[a, b]] = A[[b, a]]] does to the rows (the right-hand side is copied
    before the assignment) and what the three assignments through the
    temporary do to the signs. *)
Definition swap {X} (l : list X) (a b : nat) : result (list X) :=
  x ← of_option IndexError (l !! a);
  y ← of_option IndexError (l !! b);
  Ok (<[b := x]> (<[a := y]> l)).

(** [while pivot_row < n_rows and A[pivot_row, j] == 0: pivot_row += 1].
    [fuel] counts the rows left to scan: the loop is entered with
    [fuel = n_rows - pivot_row], so that [fuel] is 0 exactly when the test
    [pivot_row < n_rows] fails ([find_pivot_stops]). *)
Fixpoint find_pivot (A : matrix) (j n_rows pivot_row fuel : nat) : result nat :=
  match fuel with
  | O => Ok pivot_row
  | S fuel' =>
      if (pivot_row <? n_rows)%nat then
        a ← getitem2 A pivot_row j;
        if a =? 0 then find_pivot A j n_rows (S pivot_row) fuel'
        else Ok pivot_row
      else Ok pivot_row
  end.

(** The loop [for i in range(current_row, n_rows)] that clears column [j]
    below the pivot, over the remaining values [ks] of [i].  The row is
    assigned first; [row_sum] then reads [A[i]] and [A[pivot_row]] from the
    array as it is after that assignment. *)
Fixpoint eliminate (N j pivot_row : nat) (ks : list nat)
    (A : matrix) (signs : list Z) : result (matrix * list Z) :=
  match ks with
  | [] => Ok (A, signs)
  | i :: ks' =>
      a ← getitem2 A i j;
      if a =? 1 then
        r ← of_option IndexError (A !! i);
        p ← of_option IndexError (A !! pivot_row);
        let A := <[i := row_add r p]> A in
        h ← of_option IndexError (A !! i);
        p ← of_option IndexError (A !! pivot_row);
        rh ← getitem signs i;
        ri ← getitem signs pivot_row;
        s ← row_sum h p rh ri N;
        eliminate N j pivot_row ks' A (<[i := s]> signs)
      else eliminate N j pivot_row ks' A signs
  end.

(** The state of the column loop. *)
Record ref_state : Type := RefState {
  st_A : matrix;
  st_signs : list Z;
  current_row : nat
}.

(** One pass of the body of [for j in range(n_cols)], below the [break]
    test. *)
Definition REF_column (N n_rows j : nat) (st : ref_state) : result ref_state :=
  pivot_row ← find_pivot (st_A st) j n_rows (current_row st)
                 (n_rows - current_row st);
  if (pivot_row =? n_rows)%nat then Ok st
  else
    A ← swap (st_A st) (current_row st) pivot_row;
    signs ← swap (st_signs st) (current_row st) pivot_row;
    let pivot_row := current_row st in
    let current_row := S (current_row st) in
    '(A, signs) ← eliminate N j pivot_row
                    (seq current_row (n_rows - current_row)) A signs;
    Ok (RefState A signs current_row).

(** The column loop over the remaining columns [js], with its [break]. *)
Fixpoint REF_columns (N n_rows : nat) (js : list nat) (st : ref_state)
    : result ref_state :=
  match js with
  | [] => Ok st
  | j :: js' =>
      if (n_rows <=? current_row st)%nat then Ok st
      else st' ← REF_column N n_rows j st; REF_columns N n_rows js' st'
  end.

(** The whole loop, keeping the final [current_row]. *)
Definition REF_run (A : matrix) (signs : list Z) (N : nat) : result ref_state :=
  let '(n_rows, n_cols) := shape A in
  REF_columns N n_rows (seq 0 n_cols) (RefState A signs 0).

(** [REF_binary] returns the pair [A, signs]. *)
Definition REF_binary (A : matrix) (signs : list Z) (N : nat)
    : result (matrix * list Z) :=
  st ← REF_run A signs N; Ok (st_A st, st_signs st).

(** *** Well-formed inputs and the shape of the result *)

(** An array of bits with [n_cols] columns. *)
Definition is_binary (n_cols : nat) (A : matrix) : Prop :=
  Forall (fun r => length r = n_cols ∧ binary_row r) A.

(** Every row from [from] downwards is zero in the columns before [j]. *)
Definition zero_below (A : matrix) (from j : nat) : Prop :=
  ∀ i r j' x,
    A !! i = Some r → (from ≤ i)%nat →
    r !! j' = Some x → (j' < j)%nat → x = 0.

(** Row echelon form restricted to the columns before [j], with pivot
    columns [ps]: row [k] has its leading 1 in column [ps !! k], the pivot
    columns increase strictly from one pivot row to the next, and the rows
    below the pivot rows are zero (in the columns before [j]). *)
Definition echelon (j : nat) (A : matrix) (ps : list nat) : Prop :=
  StronglySorted lt ps ∧
  Forall (fun p => (p < j)%nat) ps ∧
  (∀ k p, ps !! k = Some p →
     ∃ r, A !! k = Some r ∧ r !! p = Some 1 ∧
          ∀ j' x, (j' < p)%nat → r !! j' = Some x → x = 0) ∧
  zero_below A (length ps) j.

(** The invariant of the column loop on entry to column [j]: the array
    holds bits, the signs are as many as the rows, and the columns before
    [j] are in echelon form with one pivot column per row above
    [current_row]. *)
Definition ref_inv (n_rows n_cols j : nat) (st : ref_state) (ps : list nat)
    : Prop :=
  is_binary n_cols (st_A st) ∧
  length (st_A st) = n_rows ∧ length (st_signs st) = n_rows ∧
  length ps = current_row st ∧ (current_row st ≤ n_rows)%nat ∧
  echelon j (st_A st) ps.

(** ** The rank engine (entropy.py, not among the sources) *)

(** Modelled from the spec: part of [entropy.gf2_rank] (absent).  Section
    4.2, step 2: scan of the rows [rows], numbered from [i], for the first
    one with a 1 in column [j]. *)
Fixpoint first_one (j : nat) (rows : matrix) (i : nat) : option nat :=
  match rows with
  | [] => None
  | r :: rows' => if r !!! j =? 1 then Some i else first_one j rows' (S i)
  end.

(** Modelled from the spec: part of [entropy.gf2_rank] (absent).  Section
    4.2, step 4: XOR of two rows over GF(2). *)
Definition xor_row (r p : row) : row := zip_with Z.lxor r p.

(** Modelled from the spec: part of [entropy.gf2_rank] (absent).  One
    column of the sign-free elimination, steps 2 to 5 of section 4.2 without
    the signs: find the first row from [current_row] down with a 1 in column
    [j]; exchange it with row [current_row]; XOR it into every row below
    with a 1 in column [j]; advance [current_row]. *)
Definition gf2_column (j : nat) (st : matrix * nat) : matrix * nat :=
  let '(A, current_row) := st in
  match first_one j (drop current_row A) current_row with
  | None => (A, current_row)
  | Some p =>
      let A1 := <[p := A !!! current_row]> (<[current_row := A !!! p]> A) in
      let pivot := A1 !!! current_row in
      (imap (fun i r => if (current_row <? i)%nat && (r !!! j =? 1)
                        then xor_row r pivot else r) A1,
       S current_row)
  end.

(** Modelled from the spec: part of [entropy.gf2_rank] (absent).  Section
    4.2, steps 1 and 2: the columns [js] in turn, stopping when
    [current_row] has reached the number of rows. *)
Fixpoint gf2_columns (js : list nat) (st : matrix * nat) : matrix * nat :=
  match js with
  | [] => st
  | j :: js' =>
      if (st.2 =? length st.1)%nat then st
      else gf2_columns js' (gf2_column j st)
  end.

(** Modelled from the spec: part of [entropy.gf2_rank] (absent).  The
    elimination over all the columns, from [current_row] = 0. *)
Definition gf2_reduce (A : matrix) : matrix * nat :=
  gf2_columns (seq 0 (shape A).2) (A, 0%nat).

(** Modelled from the spec: [entropy.gf2_rank] is called by OTOC.py and
    circuits.py but entropy.py is not among the sources.  Section 4.3:
    "GF(2) rank via the same elimination shape as 4.2 but without sign
    tracking"; the rank is the final [current_row]. *)
Definition gf2_rank (A : matrix) : nat := (gf2_reduce A).2.

(** Modelled from the spec: [entropy.rows] (absent) adapts an array to the
    argument of [gf2_rank]; section 4.3 gives [gf2_rank] the array itself. *)
Definition rows (A : matrix) : matrix := A.

(** ** OTOC.py: the sample weight *)

(** One axis of numpy's broadcasting: a list of [n] items as it is, and a
    list of one item repeated [n] times. *)
Definition stretch {A : Type} (n : nat) (l : list A) : list A :=
  match l with
  | [x] => replicate n x
  | _ => l
  end.

(** [target[:, :] = src] on [target = np.zeros((n, m))], for [src] of shape
    [(r, c)]: each axis of [src] has the extent of the target or extent 1,
    which is repeated; any other shape is refused.  Gives the target. *)
Definition np_assign (n m : nat) (src_shape : nat * nat) (src : matrix)
    : result matrix :=
  let '(r, c) := src_shape in
  if (bool_decide (r = n) || bool_decide (r = 1%nat))
     && (bool_decide (c = m) || bool_decide (c = 1%nat))
  then Ok (stretch n (map (stretch m) src))
  else Raise (ValueError "could not broadcast input array").

(** Where a slice [a[start:]] of an array of [len] items begins: a negative
    [start] counts from the end, and both ends are clipped. *)
Definition slice_start (len : nat) (start : Z) : nat :=
  if start <? 0 then Z.to_nat (Z.of_nat len + start)
  else Nat.min (Z.to_nat start) len.

(** [xs]: [N = len(binMat)], [xs = np.zeros((N, N))],
    [xs[:,:] = binMat[:, :N]]. *)
Definition xs (binMat : matrix) : result matrix :=
  let N := length binMat in
  let src := map (take N) binMat in
  np_assign N N (shape src) src.

(** [small_zs]: [small_zs = np.zeros((size2, N))],
    [small_zs[:,:] = binMat[N-size2:, N:]].  The slice keeps the column
    count of [binMat] less N also when it keeps no row. *)
Definition small_zs (binMat : matrix) (size2 N : Z) : result matrix :=
  if (size2 <? 0) || (N <? 0)
  then Raise (ValueError "negative dimensions are not allowed")
  else
    let '(n_rows, n_cols) := shape binMat in
    let src := map (drop (Z.to_nat N))
                   (drop (slice_start n_rows (N - size2)) binMat) in
    np_assign (Z.to_nat size2) (Z.to_nat N)
      (length src, (n_cols - Z.to_nat N)%nat) src.

(** [for k in range(size2): if signs4[k] == 1: Ans = 1], over the
    remaining values [ks] of [k]. *)
Fixpoint otoc_scan (signs4 : list Z) (ks : list nat) (Ans : Z) : result Z :=
  match ks with
  | [] => Ok Ans
  | k :: ks' =>
      s ← getitem signs4 k;
      otoc_scan signs4 ks' (if s =? 1 then 1 else Ans)
  end.

(** [2**(-(rank)/2)]: Python computes it in floating point; it is taken
    here as the real number it approximates. *)
Definition otoc_weight (rank : nat) : R := Rpower 2 (- INR rank / 2).

(** Lines 206 to 228 of [OTOC_FS3_Np] (the same text closes [OTOC_Rand1]
    and [OTOC_LocInt]): from the reduced array and its signs to the amount
    whose quotient by [rep] is added to [v[int(i/res)]].  [small], [REF2]
    and [shape] are computed (so [small_zs] can raise) and not used;
    [range(size2)] is empty for a negative [size2], which [small_zs] has
    refused before. *)
Definition OTOC_contribution (REF : matrix) (signs3 : list Z) (N : nat)
    : result R :=
  xs1 ← xs REF;
  let rank := gf2_rank (rows xs1) in
  let size2 := Z.of_nat N - Z.of_nat rank in
  small ← small_zs REF size2 (Z.of_nat N);
  let REF2 := small in
  let shape := shape REF2 in
  let signs4 := drop rank signs3 in
  Ans ← otoc_scan signs4 (seq 0 (Z.to_nat size2)) 0;
  if Ans =? 1 then Ok 0%R else Ok (otoc_weight rank).

(** From the encoded array to the contribution: [REF_binary], then the
    lines above. *)
Definition OTOC_sample (bMat : matrix) (signs3 : list Z) (N : nat)
    : result R :=
  '(REF, signs3) ← REF_binary bMat signs3 N;
  OTOC_contribution REF signs3 N.

(** What one sample adds to [v[int(i/res)]]. *)
Definition OTOC_increment (bMat : matrix) (signs3 : list Z) (N : nat)
    (rep : Z) : result R :=
  c ← OTOC_sample bMat signs3 N; Ok (c / IZR rep)%R.

(** *** The value returned, and rows with their signs *)

(** The Python values that occur in what [REF_binary] returns. *)
Inductive value : Type :=
  | Array2 (A : matrix)
  | Array1 (s : list Z)
  | Int (n : Z).

(** [return A, signs]: the tuple as Python builds it. *)
Definition REF_binary_tuple (A : matrix) (signs : list Z) (N : nat)
    : result (list value) :=
  '(A, signs) ← REF_binary A signs N; Ok [Array2 A; Array1 signs].

(** A generator is a row with its sign.  The two moves of the reduction on
    the list of generators: two generators change places, or generator [i]
    takes up the pivot generator [p] (its row becomes the sum, its sign the
    [row_sum] of the updated row with the pivot row). *)
Inductive gen_step (N : nat) : relation (list (list Z * Z)) :=
  | gen_exchange G a b x y :
      G !! a = Some x → G !! b = Some y →
      gen_step N G (<[b := x]> (<[a := y]> G))
  | gen_combine G i p r s rp sp s' :
      i ≠ p → G !! i = Some (r, s) → G !! p = Some (rp, sp) →
      row_sum (row_add r rp) rp s sp N = Ok s' →
      gen_step N G (<[i := (row_add r rp, s')]> G).

(** ** The entropy of a cut (circuits.py over entropy.py) *)

(** Modelled from the spec: [entropy.getCutStabilizers] is called by every
    loop of circuits.py but entropy.py is not among the sources.  Section
    4.5, steps 1 to 3: reduce the array (no signs reach this call, so by the
    sign-free elimination), take the rank r of its X-part, and keep the
    bottom N - r rows and the last [cut] columns of the Z-part; section 7,
    InvalidCut: a [cut] outside [0, N] fails at entry.  N is the number of
    rows of the array. *)
Definition getCutStabilizers (binaryMatrix : matrix) (cut : Z)
    : result matrix :=
  let N := length binaryMatrix in
  if (cut <? 0) || (Z.of_nat N <? cut) then Raise InvalidCut
  else
    let REF := (gf2_reduce binaryMatrix).1 in
    let r := gf2_rank (map (take N) REF) in
    Ok (map (drop (2 * N - Z.to_nat cut)) (drop r REF)).

(** The entropy lines shared by the loops of circuits.py:
    [b2 = entropy.getCutStabilizers(mat, cut)], [b3 = entropy.rows(b2)],
    [SA = entropy.gf2_rank(b3.copy()) - cut]. *)
Definition entropy_of (mat : matrix) (cut : Z) : result Z :=
  b2 ← getCutStabilizers mat cut;
  let b3 := rows b2 in
  Ok (Z.of_nat (gf2_rank b3) - cut).

(** ** circuits.py: the sampling loops *)

(** [int(T/res)] on integers: true division, then truncation. *)
Definition int_div (T res : Z) : result Z :=
  if res =? 0 then Raise ZeroDivisionError else Ok (Z.quot T res).

(** [np.zeros(n)]. *)
Definition np_zeros (n : Z) : result (list Q) :=
  if n <? 0 then Raise (ValueError "negative dimensions are not allowed")
  else Ok (replicate (Z.to_nat n) 0%Q).

(** The position an index [j] stands for in an array of length [len]
    (negative indices count from the end). *)
Definition np_index (len : nat) (j : Z) : result nat :=
  if (0 <=? j) && (j <? Z.of_nat len) then Ok (Z.to_nat j)
  else if (- Z.of_nat len <=? j) && (j <? 0) then Ok (Z.to_nat (Z.of_nat len + j))
  else Raise IndexError.

(** [v[j] += x]. *)
Definition np_add_at (v : list Q) (j : Z) (x : Q) : result (list Q) :=
  k ← np_index (length v) j;
  old ← of_option IndexError (v !! k);
  Ok (<[k := (old + x)%Q]> v).

(** [v[j] = x]. *)
Definition np_set_at (v : list Q) (j : Z) (x : Q) : result (list Q) :=
  k ← np_index (length v) j;
  Ok (<[k := x]> v).


(** [for i in range(0, T2): w[i] = i*res]. *)
Fixpoint fill_w (res : Z) (ts : list Z) (w : list Q) : result (list Q) :=
  match ts with
  | [] => Ok w
  | i :: ts' => w ← np_set_at w i (inject_Z (i * res)); fill_w res ts' w
  end.

Section Circuits.
(** The collaborators outside the sources: the stim simulator, the gates
    of gates.py, which draw random numbers, and the two encoders of
    entropy.py.  [world] is the state of the random generator. *)
Context {sim world stabilisers : Type}.
Variable TableauSimulator : sim.
Variables FS1Step FS2StepE FS2StepO : Z → sim → world → result (sim * world).
Variable sample_stabilisers : sim → result stabilisers.
Variable binary_matrix : stabilisers → result matrix.




(** [runFS2]: the body of [for i in range(0, T)]. *)
Fixpoint runFS2_steps (N rep res cut : Z) (ts : list Z)
    (s : sim) (wd : world) (v : list Q) : result (sim * world * list Q) :=
  match ts with
  | [] => Ok (s, wd, v)
  | i :: ts' =>
      '(s, wd) ← (if i mod 2 =? 0 then FS2StepE N s wd
                  else FS2StepO N s wd);
      if i mod res =? 0 then
        zs2 ← sample_stabilisers s;
        mat ← binary_matrix zs2;
        SA ← entropy_of mat cut;
        let j := Z.quot i res in
        v ← np_add_at v j (inject_Z SA / inject_Z rep)%Q;
        runFS2_steps N rep res cut ts' s wd v
      else runFS2_steps N rep res cut ts' s wd v
  end.

Fixpoint runFS2_reps (N T rep res cut : Z) (ks : list Z)
    (wd : world) (v : list Q) : result (world * list Q) :=
  match ks with
  | [] => Ok (wd, v)
  | k :: ks' =>
      let s := TableauSimulator in
      '(s, wd, v) ← runFS2_steps N rep res cut (seqZ 0 T) s wd v;
      runFS2_reps N T rep res cut ks' wd v
  end.

Definition runFS2 (N T rep res cut : Z) (wd : world)
    : result (list Q * list Q) :=
  T2 ← int_div T res;
  v ← np_zeros T2;
  w ← np_zeros T2;
  '(wd, v) ← runFS2_reps N T rep res cut (seqZ 0 rep) wd v;
  w ← fill_w res (seqZ 0 T2) w;
  Ok (v, w).
End Circuits.

(** ** steps.py: [Step] *)

(** A value passed as [when]: [None], a string, or an object of another
    type (a number, a list, ...), named here by a number.  Such an object
    is not a [str] and is equal to no string. *)
Inductive pyobj : Type :=
  | PyNone
  | PyStr (s : string)
  | PyOther (o : Z).
Coercion PyStr : string >-> pyobj.

(** [isinstance(v, str)]. *)
Definition is_str (v : pyobj) : bool :=
  match v with PyStr _ => true | _ => false end.

(** [v == s] for a string literal [s]. *)
Definition py_eq (v : pyobj) (s : string) : bool :=
  match v with PyStr w => String.eqb w s | _ => false end.

(** [v in [s1, s2, ...]] for a list of string literals. *)
Definition py_in (v : pyobj) (l : list string) : bool :=
  existsb (py_eq v) l.

Record Step : Type := MkStep { step_N : Z; when : pyobj }.

(** [Step.__init__]: [None] stands for "always"; a string other than the
    four triggers is refused; a value that is not a string is kept as it
    is. *)
Definition Step_init (N : Z) (when : pyobj) : result Step :=
  let when := match when with PyNone => PyStr "always" | _ => when end in
  if is_str when && negb (py_in when ["first"; "always"; "even"; "odd"])
  then Raise (ValueError "Invalid value for 'when'")
  else Ok (MkStep N when).

Definition validate (self : Step) (step_count : Z) : bool :=
  let when := when self in
  if py_eq when "always" && (0 <? step_count) then true
  else if py_eq when "first" && (step_count =? 0) then true
  else if py_eq when "even" && (step_count mod 2 =? 0)
          && (0 <? step_count) then true
  else if py_eq when "odd" && (step_count mod 2 =? 1)
          && (0 <? step_count) then true
  else false.

(** ** What a run of the reduction keeps *)

(** The shape of an array and of its signs after a run, against the shape
    before it: as many rows, as many signs, rows of [n] entries stay rows of
    [n] entries, and signs that were bits stay bits. *)
Definition kept (n : nat) (A : matrix) (signs : list Z)
    (A' : matrix) (signs' : list Z) : Prop :=
  length A' = length A ∧ length signs' = length signs ∧
  (Forall (fun r => length r = n) A → Forall (fun r => length r = n) A') ∧
  (Forall is_bit signs → Forall is_bit signs').

(** The rows one can reach from the rows of [A] by adding rows (mod 2):
    the GF(2) row space of [A], the zero row apart. *)
Inductive span (A : matrix) : list Z → Prop :=
  | span_row r : r ∈ A → span A r
  | span_add r p : span A r → span A p → span A (row_add r p).

(** ** steps.py: the steps and what they send to the simulator *)

(** What a step passes to [s.do]: a [stim.Circuit] built in steps.py, as
    the list of its operations (name, targets), or the value of [gates.ZH]
    or [gates.C3] (gates.py) at its arguments. *)
Inductive gate : Type :=
  | Circuit (ops : list (string * list Z))
  | ZH (q : Z)
  | C3 (a b c : Z).

(** [r[i]] on a Python list: negative indices count from the end. *)
Definition list_get (r : list Z) (i : Z) : result Z :=
  k ← np_index (length r) i; of_option IndexError (r !! k).

(** [a // b] on integers. *)
Definition floordiv (a b : Z) : result Z :=
  if b =? 0 then Raise ZeroDivisionError else Ok (a / b).

(** [range(a, b)]. *)
Definition range (a b : Z) : list Z := seqZ a (b - a).

(** The outcome of a function whose only failure is an [assert]. *)
Inductive asserted (A : Type) : Type :=
  | Passed (a : A)
  | AssertionError.
Arguments Passed {A} a.
Arguments AssertionError {A}.

(** [IdStep.__init__]: a step with trigger "first". *)
Definition IdStep (N : Z) : result Step := Step_init N "first".

(** ["X" * N]. *)
Definition repeat_X (N : Z) : string :=
  String.string_of_list_ascii (replicate (Z.to_nat N) "X"%char).

(** [set(Counter(op_string).keys()) <= set(["X", "Y"])]. *)
Definition only_X_Y (op_string : string) : bool :=
  forallb (fun c => Ascii.eqb c "X" || Ascii.eqb c "Y")
    (String.list_ascii_of_string op_string).

(** [Initialize.prepare_op_string] on [None] or a string (the refusal of
    other types is not in reach of a typed argument). *)
Definition prepare_op_string (N : Z) (op_string : option string)
    : asserted string :=
  let op_string := default (repeat_X N) op_string in
  if only_X_Y op_string then Passed op_string else AssertionError.

(** An [Initialize] object: the trigger "first" and the prepared string. *)
Record Initialize : Type := MkInitialize {
  init_step : Step;
  op_string : string
}.

Definition Initialize_init (N : Z) (op_string : option string)
    : asserted Initialize :=
  match prepare_op_string N op_string with
  | Passed op_string => Passed (MkInitialize (MkStep N "first") op_string)
  | AssertionError => AssertionError
  end.

(** [for i, letter in enumerate(op_string): if letter == "Y":
    c.append_operation("X", [i])], from position [i] on. *)
Fixpoint flip_Y (letters : list Ascii.ascii) (i : Z) : list (string * list Z) :=
  match letters with
  | [] => []
  | letter :: letters' =>
      if Ascii.eqb letter "Y" then ("X", [i]) :: flip_Y letters' (i + 1)
      else flip_Y letters' (i + 1)
  end.

(** The circuit [Initialize.apply] builds. *)
Definition Initialize_circuit (op_string : string) : list (string * list Z) :=
  let N := Z.of_nat (String.length op_string) in
  ("I", [N - 1]) :: flip_Y (String.list_ascii_of_string op_string) 0.

(** The three steps with a [slow] attribute. *)
Record SlowStep : Type := MkSlowStep {
  slow_step : Step;
  slow : Z
}.

Definition ThreeQuarterStep (N slow : Z) : SlowStep :=
  MkSlowStep (MkStep N "always") slow.
Definition AlternatingEven (N slow : Z) : SlowStep :=
  MkSlowStep (MkStep N "even") slow.
Definition AlternatingOdd (N slow : Z) : SlowStep :=
  MkSlowStep (MkStep N "odd") slow.

Section Steps.
(** The collaborators: [s.do] of the stim simulator and
    [np.random.shuffle], which draws from the random generator [world]. *)
Context {sim world : Type}.
Variable do : sim → gate → result sim.
Variable shuffle : list Z → world → list Z * world.

(** A run of [s.do] over a list of gates, in order. *)
Fixpoint do_all (s : sim) (gs : list gate) : result sim :=
  match gs with
  | [] => Ok s
  | g :: gs' => s ← do s g; do_all s gs'
  end.

Definition IdStep_apply (self : Step) (s : sim) (step_count : Z)
    : result sim :=
  if validate self step_count then
    let c := Circuit [("I", [step_N self - 1])] in
    do s c
  else Ok s.

Definition Initialize_apply (self : Initialize) (s : sim) (step_count : Z)
    : asserted (result sim) :=
  if validate (init_step self) step_count then
    let op_string := op_string self in
    if only_X_Y op_string then
      Passed (do s (Circuit (Initialize_circuit op_string)))
    else AssertionError
  else Passed (Ok s).

(** [for i in ...: s.do(ZH(r[i]))], over the remaining values of [i]. *)
Fixpoint loop_ZH (r : list Z) (ts : list Z) (s : sim) : result sim :=
  match ts with
  | [] => Ok s
  | i :: ts' =>
      q ← list_get r i;
      s ← do s (ZH q);
      loop_ZH r ts' s
  end.

(** [for i in range(1, k): s.do(C3(r[i], r[k + i], r[2 * k + i]))]. *)
Fixpoint loop_C3 (r : list Z) (k : Z) (ts : list Z) (s : sim) : result sim :=
  match ts with
  | [] => Ok s
  | i :: ts' =>
      a ← list_get r i;
      b ← list_get r (k + i);
      c ← list_get r (2 * k + i);
      s ← do s (C3 a b c);
      loop_C3 r k ts' s
  end.

Definition ThreeQuarterStep_apply (self : SlowStep) (s : sim)
    (step_count : Z) (wd : world) : result (sim * world) :=
  let N := step_N (slow_step self) in
  let slow := slow self in
  if validate (slow_step self) step_count then
    let r := range 0 N in
    let '(r, wd) := shuffle r wd in
    acted_on ← floordiv N slow;
    quarter ← floordiv acted_on 4;
    if quarter =? 0 then
      Raise (ValueError "Not enough qubits are being acted on!")
    else
      s ← loop_ZH r (range (3 * quarter) acted_on) s;
      a ← list_get r 0;
      b ← list_get r quarter;
      c ← list_get r (2 * quarter);
      s ← do s (C3 a b c);
      s ← loop_C3 r quarter (range 1 quarter) s;
      let c := Circuit [("I", [N - 1])] in
      s ← do s c;
      Ok (s, wd)
  else Ok (s, wd).

Definition AlternatingEven_apply (self : SlowStep) (s : sim)
    (step_count : Z) (wd : world) : result (sim * world) :=
  let N := step_N (slow_step self) in
  let slow := slow self in
  if validate (slow_step self) step_count then
    let r := range 0 (N - 1) in
    let '(r, wd) := shuffle r wd in
    acted_on ← floordiv N slow;
    s ← loop_ZH r (range 0 acted_on) s;
    Ok (s, wd)
  else Ok (s, wd).

Definition AlternatingOdd_apply (self : SlowStep) (s : sim)
    (step_count : Z) (wd : world) : result (sim * world) :=
  let N := step_N (slow_step self) in
  let slow := slow self in
  if validate (slow_step self) step_count then
    let r := range 0 N in
    let '(r, wd) := shuffle r wd in
    acted_on ← int_div N slow;
    third ← floordiv acted_on 3;
    a ← list_get r 0;
    b ← list_get r third;
    c ← list_get r (2 * third);
    s ← do s (C3 a b c);
    s ← loop_C3 r third (range 1 third) s;
    Ok (s, wd)
  else Ok (s, wd).

(** [StepSequence.apply]: the steps are objects with an [apply] method,
    here the methods themselves. *)
Fixpoint StepSequence_apply
    (steps : list (sim → Z → world → result (sim * world)))
    (s : sim) (step_count : Z) (wd : world) : result (sim * world) :=
  match steps with
  | [] => Ok (s, wd)
  | step :: steps' =>
      '(s, wd) ← step s step_count wd;
      StepSequence_apply steps' s step_count wd
  end.
End Steps.

(** The qubits a gate is applied to, in the order of its arguments. *)
Definition qubits (g : gate) : list Z :=
  match g with
  | Circuit ops => concat (map snd ops)
  | ZH q => [q]
  | C3 a b c => [a; b; c]
  end.

(** ** circuits.py: the loops of [runFS3], [runFS3_Np] and [runLocInt] *)

(** What the loops return as [w] when they return: 0, res, 2 res, ..., one
    entry for each of the [int(T/res)] slots. *)
Definition timesteps (T res : Z) : list Q :=
  (fun i => inject_Z (i * res)) <$> seqZ 0 (Z.quot T res).

Section Loops.
(** The collaborators: the stim simulator, the steps of gates.py (which
    draw random numbers from [world]) and the two encoders of entropy.py. *)
Context {sim world stabilisers : Type}.
Variable TableauSimulator : sim.
Variables FS3Step Id_Step : Z → sim → world → result (sim * world).
Variables FS3_NpStep LocInt_Step1 LocInt_Step2 LocInt_Step3 LocInt_Step4
  : Z → sim → Z → world → result (sim * world).
Variable sample_stabilisers : sim → result stabilisers.
Variable binary_matrix : stabilisers → result matrix.

(** The lines from [if (i % res) == 0:] to [v[j] += SA/rep], which the
    three functions share word for word. *)
Definition sample_entropy (rep res cut i : Z) (s : sim) (v : list Q)
    : result (list Q) :=
  if i mod res =? 0 then
    zs2 ← sample_stabilisers s;
    mat ← binary_matrix zs2;
    SA ← entropy_of mat cut;
    let j := Z.quot i res in
    np_add_at v j (inject_Z SA / inject_Z rep)%Q
  else Ok v.

(** The gates of time step [i] in [runFS3]. *)
Definition runFS3_gates (N i : Z) (s : sim) (wd : world)
    : result (sim * world) :=
  FS3Step N s wd.

(** The gates of time step [i] in [runFS3_Np]. *)
Definition runFS3_Np_gates (N slow i : Z) (s : sim) (wd : world)
    : result (sim * world) :=
  if i =? 0 then Id_Step N s wd else FS3_NpStep N s slow wd.

(** The gates of time step [i] in [runLocInt] (its [j = i-1] is never
    read). *)
Definition runLocInt_gates (N slow i : Z) (s : sim) (wd : world)
    : result (sim * world) :=
  '(s, wd) ← (if i =? 0 then Id_Step N s wd
              else '(s, wd) ← LocInt_Step1 N s slow wd;
                   LocInt_Step2 N s slow wd);
  if i mod 2 =? 0 then LocInt_Step3 N s slow wd
  else LocInt_Step4 N s slow wd.

(** [for i in range(0, T)], over the remaining values [ts] of [i]. *)
Fixpoint run_steps (gates : Z → sim → world → result (sim * world))
    (rep res cut : Z) (ts : list Z) (s : sim) (wd : world) (v : list Q)
    : result (sim * world * list Q) :=
  match ts with
  | [] => Ok (s, wd, v)
  | i :: ts' =>
      '(s, wd) ← gates i s wd;
      v ← sample_entropy rep res cut i s v;
      run_steps gates rep res cut ts' s wd v
  end.

(** [for k in range(0, rep)], over the remaining repetitions. *)
Fixpoint run_reps (gates : Z → sim → world → result (sim * world))
    (T rep res cut : Z) (ks : list Z) (wd : world) (v : list Q)
    : result (world * list Q) :=
  match ks with
  | [] => Ok (wd, v)
  | k :: ks' =>
      let s := TableauSimulator in
      '(s, wd, v) ← run_steps gates rep res cut (seqZ 0 T) s wd v;
      run_reps gates T rep res cut ks' wd v
  end.

(** The body the three functions share, from [T2 = int(T/res)] to
    [return v, w]. *)
Definition run (gates : Z → sim → world → result (sim * world))
    (T rep res cut : Z) (wd : world) : result (list Q * list Q) :=
  T2 ← int_div T res;
  v ← np_zeros T2;
  w ← np_zeros T2;
  '(wd, v) ← run_reps gates T rep res cut (seqZ 0 rep) wd v;
  w ← fill_w res (seqZ 0 T2) w;
  Ok (v, w).

Definition runFS3 (N T rep res cut : Z) (wd : world)
    : result (list Q * list Q) :=
  run (runFS3_gates N) T rep res cut wd.

Definition runFS3_Np (N T rep res slow cut : Z) (wd : world)
    : result (list Q * list Q) :=
  run (runFS3_Np_gates N slow) T rep res cut wd.

Definition runLocInt (N T rep res slow cut : Z) (wd : world)
    : result (list Q * list Q) :=
  run (runLocInt_gates N slow) T rep res cut wd.
End Loops.

(** ** OTOC.py: [Op] *)

Section Operator.
(** The collaborators: [s.do] on a fresh simulator and [random.randint]. *)
Context {sim world : Type}.
Variable TableauSimulator : sim.
Variable do : sim → gate → result sim.
Variable randint : Z → Z → world → result (Z * world).

Definition Op (N : Z) (wd : world) : result (sim * world) :=
  let s := TableauSimulator in
  '(r, wd) ← randint 0 (N - 3) wd;
  let c := Circuit [("I", [N - 1]); ("I", [0])] in
  s ← do s c;
  s ← do s (ZH (r + 1));
  s ← do s (ZH (r + 2));
  s ← do s (C3 r (r + 1) (r + 2));
  Ok (s, wd).
End Operator.


(** ** OTOC.py: the loops of [OTOC_FS3_Np], [OTOC_Rand1] and [OTOC_LocInt] *)

(** [np.zeros(n)], [v[j] += x] on an array of floats read as reals. *)
Definition np_zeros_R (n : Z) : result (list R) :=
  if n <? 0 then Raise (ValueError "negative dimensions are not allowed")
  else Ok (replicate (Z.to_nat n) 0%R).

Definition np_add_at_R (v : list R) (j : Z) (x : R) : result (list R) :=
  k ← np_index (length v) j;
  old ← of_option IndexError (v !! k);
  Ok (<[k := (old + x)%R]> v).

Section OTOCLoops.
(** The collaborators: the stim simulator, the steps of gates.py, and
    [encode] for the lines from [tableau1 = ...] to
    [signs3 = entropy.convert_signs(signs2)], which only call stim and
    entropy.py: from the simulator and the operator [Op] to the encoded
    array [bMat] and its signs [signs3]. *)
Context {sim world operator : Type}.
Variable TableauSimulator : sim.
Variables Id_Step Rand1Step : Z → sim → world → result (sim * world).
Variables FS3_NpStep LocInt_Step1 LocInt_Step2 LocInt_Step3 LocInt_Step4
  : Z → sim → Z → world → result (sim * world).
Variable encode : sim → operator → result (matrix * list Z).

(** The lines from [if (i % res) == 0:] to the update of [v[int(i/res)]],
    which the three functions share word for word. *)
Definition sample_OTOC (N rep res : Z) (Op : operator) (i : Z) (s : sim)
    (v : list R) : result (list R) :=
  if i mod res =? 0 then
    '(bMat, signs3) ← encode s Op;
    x ← OTOC_increment bMat signs3 (Z.to_nat N) rep;
    np_add_at_R v (Z.quot i res) x
  else Ok v.

(** The gates of time step [i] in [OTOC_Rand1]. *)
Definition OTOC_Rand1_gates (N i : Z) (s : sim) (wd : world)
    : result (sim * world) :=
  if i =? 0 then Id_Step N s wd else Rand1Step N s wd.

(** [for i in range(0, T)], over the remaining values [ts] of [i]. *)
Fixpoint OTOC_steps (gates : Z → sim → world → result (sim * world))
    (N rep res : Z) (Op : operator) (ts : list Z) (s : sim) (wd : world)
    (v : list R) : result (sim * world * list R) :=
  match ts with
  | [] => Ok (s, wd, v)
  | i :: ts' =>
      '(s, wd) ← gates i s wd;
      v ← sample_OTOC N rep res Op i s v;
      OTOC_steps gates N rep res Op ts' s wd v
  end.

(** [for k in range(0, rep)], over the remaining repetitions. *)
Fixpoint OTOC_reps (gates : Z → sim → world → result (sim * world))
    (N T rep res : Z) (Op : operator) (ks : list Z) (wd : world)
    (v : list R) : result (world * list R) :=
  match ks with
  | [] => Ok (wd, v)
  | k :: ks' =>
      let s := TableauSimulator in
      '(s, wd, v) ← OTOC_steps gates N rep res Op (seqZ 0 T) s wd v;
      OTOC_reps gates N T rep res Op ks' wd v
  end.

(** The body the three functions share, from [Size = int(T/res)] to
    [return v, w]; [w] holds whole numbers and is kept exact. *)
Definition OTOC_run (gates : Z → sim → world → result (sim * world))
    (N T rep res : Z) (Op : operator) (wd : world)
    : result (list R * list Q) :=
  Size ← int_div T res;
  v ← np_zeros_R Size;
  w ← np_zeros Size;
  w ← fill_w res (range 0 Size) w;
  '(wd, v) ← OTOC_reps gates N T rep res Op (seqZ 0 rep) wd v;
  Ok (v, w).

Definition OTOC_FS3_Np (N T rep res slow : Z) (Op : operator) (wd : world)
    : result (list R * list Q) :=
  OTOC_run (runFS3_Np_gates Id_Step FS3_NpStep N slow) N T rep res Op wd.

Definition OTOC_Rand1 (N T rep res : Z) (Op : operator) (wd : world)
    : result (list R * list Q) :=
  OTOC_run (OTOC_Rand1_gates N) N T rep res Op wd.

Definition OTOC_LocInt (N T rep res slow : Z) (Op : operator) (wd : world)
    : result (list R * list Q) :=
  OTOC_run (runLocInt_gates Id_Step LocInt_Step1 LocInt_Step2 LocInt_Step3
              LocInt_Step4 N slow) N T rep res Op wd.
End OTOCLoops.



(** * Theorems *)

(** ** [g] and [row_sum] *)

Lemma g_bits (x1 z1 x2 z2 : Z) :
  is_bit x1 → is_bit z1 → g x1 z1 x2 z2 = Ok (g_table x1 z1 x2 z2).
Proof. by intros [-> | ->] [-> | ->]. Qed.

Lemma getitem_lookup (r : row) (j : nat) :
  (j < length r)%nat → getitem r j = Ok (r !!! j).
Proof.
  intros Hj. unfold getitem.
  destruct (lookup_lt_is_Some_2 r j Hj) as [x Hx].
  by rewrite Hx, (list_lookup_total_correct _ _ _ Hx).
Qed.

Lemma binary_row_lookup (r : row) (j : nat) :
  binary_row r → (j < length r)%nat → is_bit (r !!! j).
Proof.
  intros Hr Hj. destruct (lookup_lt_is_Some_2 r j Hj) as [x Hx].
  rewrite (list_lookup_total_correct _ _ _ Hx).
  unfold binary_row in Hr. rewrite Forall_lookup in Hr. eauto.
Qed.

Lemma row_sum_loop_table (h i : row) (N : nat) (js : list nat) (k : Z) :
  binary_row i →
  (N + N ≤ length h)%nat → (N + N ≤ length i)%nat →
  Forall (fun j => (j < N)%nat) js →
  row_sum_loop h i N js k =
  Ok (k + foldr Z.add 0
            (map (fun j : nat => g_table (i !!! j) (i !!! (j + N)%nat)
                                   (h !!! j) (h !!! (j + N)%nat)) js)).
Proof.
  intros Hi Hlh Hli Hjs. revert k.
  induction Hjs as [| j js Hj _ IH]; intros k; simpl.
  - f_equal. lia.
  - rewrite !getitem_lookup by lia. simpl.
    rewrite g_bits by (apply binary_row_lookup; [done | lia]). simpl.
    rewrite IH. f_equal. lia.
Qed.

(** C1.  On rows of width 2N holding bits, [g] is the four-case table of
    the specification and [row_sum h i rh ri N] is its [combine]: k sums
    [g] over the qubits with row i's bits first, f = 2 rh + 2 ri + k, and the
    new sign is 0 when f mod 4 = 0 and 1 otherwise. *)
Theorem row_sum_is_combine (h i : row) (rh ri : Z) (N : nat) :
  binary_row h → binary_row i →
  length h = (2 * N)%nat → length i = (2 * N)%nat →
  (∀ x2 z2 : Z,
      g 0 0 x2 z2 = Ok 0 ∧
      g 0 1 x2 z2 = Ok (x2 * (1 - 2 * z2)) ∧
      g 1 0 x2 z2 = Ok (z2 * (2 * x2 - 1)) ∧
      g 1 1 x2 z2 = Ok (z2 - x2)) ∧
  row_sum_loop h i N (seq 0 N) 0 = Ok (combine_sum h i N) ∧
  row_sum h i rh ri N =
    Ok (if (2 * rh + 2 * ri + combine_sum h i N) mod 4 =? 0 then 0 else 1) ∧
  row_sum h i rh ri N = Ok (combine h i rh ri N).
Proof.
  intros Hh Hi Hlh Hli.
  assert (Hloop : row_sum_loop h i N (seq 0 N) 0 = Ok (combine_sum h i N)).
  { rewrite row_sum_loop_table; try done; try lia.
    apply Forall_seq. intros; lia. }
  split; [by intros x2 z2 |].
  split; [done |].
  unfold row_sum, combine. rewrite Hloop. simpl.
  split; by destruct (_ =? 0).
Qed.

Lemma row_sum_is_combine_witness :
  row_sum [1; 0; 0; 1] [0; 1; 1; 1] 0 1 2 = Ok (combine [1; 0; 0; 1] [0; 1; 1; 1] 0 1 2).
Proof.
  apply (row_sum_is_combine [1; 0; 0; 1] [0; 1; 1; 1] 0 1 2);
    try reflexivity;
    repeat constructor; (by left) || (by right).
Defined.

(** ** The error monad *)

Lemma bind_Ok_inv {A B} (m : result A) (f : A → result B) (b : B) :
  (m ≫= f) = Ok b → ∃ a, m = Ok a ∧ f a = Ok b.
Proof. destruct m as [a | e]; simpl; [eauto | discriminate]. Qed.

Lemma of_option_Ok_inv {A} (e : exn) (o : option A) (a : A) :
  of_option e o = Ok a → o = Some a.
Proof. destruct o; simpl; congruence. Qed.

Lemma getitem_Ok_inv (r : list Z) (j : nat) (x : Z) :
  getitem r j = Ok x → r !! j = Some x.
Proof. apply of_option_Ok_inv. Qed.

Lemma getitem2_Ok_inv (A : matrix) (i j : nat) (x : Z) :
  getitem2 A i j = Ok x → ∃ r, A !! i = Some r ∧ r !! j = Some x.
Proof.
  unfold getitem2. intros H. apply bind_Ok_inv in H as (r & Hr & Hx).
  apply of_option_Ok_inv in Hr. apply getitem_Ok_inv in Hx. eauto.
Qed.

(** Splits a hypothesis [m ≫= f = Ok b] into its two halves, repeatedly. *)
Ltac inv_bind H :=
  let a := fresh "a" in
  let Ha := fresh "Ha" in
  apply bind_Ok_inv in H as (a & Ha & H);
  try (apply of_option_Ok_inv in Ha);
  try (apply getitem_Ok_inv in Ha).

(** ** The elimination loop *)

Section Eliminate.
Context (N j pivot_row : nat).

(** What the loop did to a row [i] it visited and to the rows it did
    not visit, whenever it returns. *)
Lemma eliminate_inv (ks : list nat) (A : matrix) (signs : list Z)
    (A' : matrix) (signs' : list Z) :
  NoDup ks → pivot_row ∉ ks →
  eliminate N j pivot_row ks A signs = Ok (A', signs') →
  (∀ i, i ∉ ks → A' !! i = A !! i ∧ signs' !! i = signs !! i) ∧
  (∀ i r, i ∈ ks → A !! i = Some r → r !! j ≠ Some 1 →
     A' !! i = Some r ∧ signs' !! i = signs !! i) ∧
  (∀ i r, i ∈ ks → A !! i = Some r → r !! j = Some 1 →
     ∃ p rh ri s,
       A !! pivot_row = Some p ∧ signs !! i = Some rh ∧
       signs !! pivot_row = Some ri ∧
       A' !! i = Some (row_add r p) ∧
       row_sum (row_add r p) p rh ri N = Ok s ∧
       signs' !! i = Some s).
Proof.
  intros Hnd. revert A signs.
  induction Hnd as [| i ks Hi Hnd IH]; intros A signs Hp Hrun.
  { simpl in Hrun. injection Hrun as <- <-.
    split; [done |]. split; intros i r Hin; by apply elem_of_nil in Hin. }
  apply not_elem_of_cons in Hp as [Hpi Hp].
  simpl in Hrun. apply bind_Ok_inv in Hrun as (a & Ha & Hrun).
  apply getitem2_Ok_inv in Ha as (r0 & Hr0 & Ha).
  destruct (Z.eqb_spec a 1) as [-> | Hne].
  - inv_bind Hrun. inv_bind Hrun. simpl in Hrun.
    inv_bind Hrun. inv_bind Hrun. inv_bind Hrun. inv_bind Hrun.
    inv_bind Hrun.
    assert (Hlt : (i < length A)%nat) by (by eapply lookup_lt_Some).

    rewrite list_lookup_insert_eq in Ha2 by done.
    rewrite list_lookup_insert_ne in Ha3 by done.
    simplify_eq.
    destruct (IH _ _ Hp Hrun) as (Hout & Hkeep & Hupd).
    split; [| split].
    + intros i' Hi'. apply not_elem_of_cons in Hi' as [Hne Hi'].
      destruct (Hout i' Hi') as [-> ->].
      by rewrite !list_lookup_insert_ne.
    + intros i' r Hin Hr Hj. apply elem_of_cons in Hin as [-> | Hin].
      { congruence. }
      assert (i ≠ i') by (intros ->; done).
      destruct (Hkeep i' r Hin) as [HA' Hs']; try done.
      { by rewrite list_lookup_insert_ne. }
      rewrite list_lookup_insert_ne in Hs' by done. done.
    + intros i' r Hin Hr Hj. apply elem_of_cons in Hin as [-> | Hin].
      * destruct (Hout i Hi) as [HA' Hs'].
        assert (r = r0) as -> by congruence.
        exists a0, a3, a4, a5. rewrite HA', Hs'.
        rewrite !list_lookup_insert_eq by
          (done || by eapply lookup_lt_Some).
        done.
      * assert (i ≠ i') by (intros ->; done).
        destruct (Hupd i' r Hin) as (p & rh & ri & s & H1 & H2 & H3 & H4);
          try done.
        { by rewrite list_lookup_insert_ne. }
        rewrite list_lookup_insert_ne in H1 by done.
        rewrite list_lookup_insert_ne in H2 by done.
        rewrite list_lookup_insert_ne in H3 by done.
        exists p, rh, ri, s. done.
  - destruct (IH _ _ Hp Hrun) as (Hout & Hkeep & Hupd).
    split; [| split].
    + intros i' Hi'. apply not_elem_of_cons in Hi' as [_ Hi']. auto.
    + intros i' r Hin Hr Hj. apply elem_of_cons in Hin as [-> | Hin]; [| eauto].
      destruct (Hout i Hi) as [-> ->]. done.
    + intros i' r Hin Hr Hj. apply elem_of_cons in Hin as [-> | Hin]; [| eauto].
      congruence.
Qed.
End Eliminate.

(** C2.  In the elimination loop of a column, a row [i] below the pivot
    with a 1 in the pivot column is replaced by its sum with the pivot row
    (mod 2), and its new sign is [row_sum] of that updated row (as h) with
    the pivot row (as i) and the two old signs. *)
Theorem eliminate_combines_updated_row
    (N j pivot_row n_rows : nat) (A A' : matrix) (signs signs' : list Z)
    (i : nat) (r : row) :
  eliminate N j pivot_row (seq (S pivot_row) (n_rows - S pivot_row)) A signs
    = Ok (A', signs') →
  (pivot_row < i < n_rows)%nat →
  A !! i = Some r → r !! j = Some 1 →
  ∃ p rh ri s,
    A !! pivot_row = Some p ∧ A' !! pivot_row = Some p ∧
    signs !! i = Some rh ∧ signs !! pivot_row = Some ri ∧
    A' !! i = Some (row_add r p) ∧
    row_sum (row_add r p) p rh ri N = Ok s ∧
    signs' !! i = Some s.
Proof.
  intros Hrun Hi Hr Hj.
  assert (Hp : pivot_row ∉ seq (S pivot_row) (n_rows - S pivot_row)).
  { rewrite elem_of_seq. lia. }
  destruct (eliminate_inv N j pivot_row _ _ _ _ _ (NoDup_seq _ _) Hp Hrun)
    as (Hout & _ & Hupd).
  destruct (Hupd i r) as (p & rh & ri & s & H1 & H2 & H3 & H4 & H5 & H6);
    try done.
  { rewrite elem_of_seq. lia. }
  exists p, rh, ri, s. destruct (Hout _ Hp) as [-> _]. done.
Qed.

Lemma eliminate_combines_updated_row_witness :
  ∃ p rh ri s,
    [[1; 0]; [1; 1]] !! 0%nat = Some p ∧ [[1; 0]; [0; 1]] !! 0%nat = Some p ∧
    [0; 1] !! 1%nat = Some rh ∧ [0; 1] !! 0%nat = Some ri ∧
    [[1; 0]; [0; 1]] !! 1%nat = Some (row_add [1; 1] p) ∧
    row_sum (row_add [1; 1] p) p rh ri 1 = Ok s ∧
    [0; 1] !! 1%nat = Some s.
Proof.
  apply (eliminate_combines_updated_row 1 0 0 2 [[1; 0]; [1; 1]]
           [[1; 0]; [0; 1]] [0; 1] [0; 1] 1 [1; 1]);
    [reflexivity | lia | reflexivity | reflexivity].
Defined.

(** ** Arrays of bits *)

Lemma is_bit_add_mod (a b : Z) : is_bit ((a + b) mod 2).
Proof.
  unfold is_bit. pose proof (Z.mod_pos_bound (a + b) 2). lia.
Qed.

Lemma row_add_length (n : nat) (r p : row) :
  length r = n → length p = n → length (row_add r p) = n.
Proof. intros Hr Hp. unfold row_add. rewrite length_zip_with. lia. Qed.

Lemma row_add_binary (r p : row) : binary_row (row_add r p).
Proof.
  unfold binary_row, row_add. apply Forall_lookup. intros k x Hx.
  apply lookup_zip_with_Some in Hx as (a & b & -> & _ & _).
  apply is_bit_add_mod.
Qed.

Lemma row_add_lookup (r p : row) (k : nat) (a b : Z) :
  r !! k = Some a → p !! k = Some b →
  row_add r p !! k = Some ((a + b) mod 2).
Proof.
  intros Ha Hb. unfold row_add. apply lookup_zip_with_Some. eauto.
Qed.

Lemma is_binary_lookup (n_cols : nat) (A : matrix) (i : nat) (r : row) :
  is_binary n_cols A → A !! i = Some r → length r = n_cols ∧ binary_row r.
Proof.
  unfold is_binary. rewrite Forall_lookup. intros HA Hr. exact (HA i r Hr).
Qed.

Lemma is_binary_entry (n_cols : nat) (A : matrix) (i j : nat) (r : row) :
  is_binary n_cols A → A !! i = Some r → (j < n_cols)%nat →
  ∃ x, r !! j = Some x ∧ is_bit x.
Proof.
  intros HA Hr Hj. destruct (is_binary_lookup _ _ _ _ HA Hr) as [Hl Hb].
  destruct (lookup_lt_is_Some_2 r j) as [x Hx]; [lia |].
  exists x. split; [done |].
  unfold binary_row in Hb. rewrite Forall_lookup in Hb. eauto.
Qed.

Lemma is_binary_insert (n_cols : nat) (A : matrix) (i : nat) (r : row) :
  is_binary n_cols A → length r = n_cols → binary_row r →
  is_binary n_cols (<[i := r]> A).
Proof. intros HA Hl Hb. by apply Forall_insert. Qed.

Lemma getitem2_Ok (A : matrix) (i j : nat) (r : row) (x : Z) :
  A !! i = Some r → r !! j = Some x → getitem2 A i j = Ok x.
Proof. intros Hr Hx. unfold getitem2, getitem. by rewrite Hr; simpl; rewrite Hx. Qed.

(** ** The pivot search *)

Lemma find_pivot_spec (n_cols : nat) (A : matrix) (j : nat) (fuel from : nat) :
  is_binary n_cols A → (j < n_cols)%nat →
  (from + fuel = length A)%nat →
  ∃ p, find_pivot A j (length A) from fuel = Ok p ∧
       (from ≤ p ≤ length A)%nat ∧
       (∀ i r, (from ≤ i < p)%nat → A !! i = Some r → r !! j = Some 0) ∧
       ((p < length A)%nat → ∃ r, A !! p = Some r ∧ r !! j = Some 1).
Proof.
  intros HA Hj. revert from.
  induction fuel as [| fuel IH]; intros from Hfuel; simpl.
  - exists from. split; [done |]. split; [lia |].
    split; intros; lia.
  - destruct (Nat.ltb_spec from (length A)) as [Hlt | Hge]; [| lia].
    destruct (lookup_lt_is_Some_2 A from Hlt) as [r Hr].
    destruct (is_binary_entry _ _ _ j _ HA Hr Hj) as (x & Hx & Hbit).
    rewrite (getitem2_Ok _ _ _ _ _ Hr Hx). simpl.
    destruct Hbit as [-> | ->]; simpl.
    + destruct (IH (S from)) as (p & Hp & Hrange & Hzero & Hone); [lia |].
      exists p. split; [done |]. split; [lia |]. split; [| done].
      intros i r' Hi Hr'.
      destruct (decide (i = from)) as [-> | Hne]; [congruence |].
      apply (Hzero i r'); [lia | done].
    + exists from. split; [done |]. split; [lia |].
      split; [intros; lia | eauto].
Qed.

(** Whatever the array holds, the search that returns stops either at
    [n_rows] or at a row whose entry in column [j] is not 0: the fuel never
    cuts the loop short. *)
Lemma find_pivot_stops (A : matrix) (j n_rows : nat) (fuel from p : nat) :
  (from + fuel = n_rows)%nat →
  find_pivot A j n_rows from fuel = Ok p →
  (from ≤ p ≤ n_rows)%nat ∧
  (p = n_rows ∨ ∃ a, getitem2 A p j = Ok a ∧ a ≠ 0).
Proof.
  revert from. induction fuel as [| fuel IH]; intros from Hfuel; simpl.
  - intros [= <-]. split; [lia | left; lia].
  - destruct (Nat.ltb_spec from n_rows) as [Hlt | Hge]; [| lia].
    intros Hrun. apply bind_Ok_inv in Hrun as (a & Ha & Hrun).
    destruct (Z.eqb_spec a 0) as [-> | Hne].
    + apply IH in Hrun as [Hrange Hstop]; [| lia]. split; [lia | done].
    + injection Hrun as <-. split; [lia | eauto].
Qed.

(** ** Exchanging two entries *)

Lemma swap_Ok {X} (l : list X) (a b : nat) (x y : X) :
  l !! a = Some x → l !! b = Some y →
  swap l a b = Ok (<[b := x]> (<[a := y]> l)).
Proof. intros Ha Hb. unfold swap. by rewrite Ha; simpl; rewrite Hb. Qed.

Lemma swap_same {X} (l : list X) (a : nat) (x : X) :
  l !! a = Some x → swap l a a = Ok l.
Proof.
  intros Ha. rewrite (swap_Ok l a a x x) by done.
  by rewrite !list_insert_id by (by rewrite ?list_insert_id).
Qed.

(** ** The elimination loop never fails on arrays of bits *)

Lemma row_sum_total (h i : row) (rh ri : Z) (N : nat) :
  binary_row i → (N + N ≤ length h)%nat → (N + N ≤ length i)%nat →
  ∃ s, row_sum h i rh ri N = Ok s ∧ is_bit s.
Proof.
  intros Hi Hlh Hli. unfold row_sum.
  rewrite row_sum_loop_table; try done.
  - simpl. destruct (_ =? 0); eexists; (split; [done |]); [by left | by right].
  - apply Forall_seq. intros; lia.
Qed.

Lemma eliminate_total (n_rows n_cols N j pivot_row : nat) (ks : list nat)
    (A : matrix) (signs : list Z) :
  is_binary n_cols A → (N + N ≤ n_cols)%nat → (j < n_cols)%nat →
  length A = n_rows → length signs = n_rows → (pivot_row < n_rows)%nat →
  Forall (fun i => (i < n_rows)%nat) ks →
  ∃ A' signs',
    eliminate N j pivot_row ks A signs = Ok (A', signs') ∧
    is_binary n_cols A' ∧ length A' = n_rows ∧
    length signs' = n_rows.
Proof.
  intros HA HN Hj HlA Hs Hp Hks. revert A signs HA HlA Hs.
  induction Hks as [| i ks Hi _ IH]; intros A signs HA HlA Hs; simpl.
  { by exists A, signs. }
  destruct (lookup_lt_is_Some_2 A i) as [r Hr]; [lia |].
  destruct (lookup_lt_is_Some_2 A pivot_row) as [p Hpr]; [lia |].
  destruct (is_binary_entry _ _ _ j _ HA Hr Hj) as (x & Hx & Hbit).
  rewrite (getitem2_Ok _ _ _ _ _ Hr Hx). simpl.
  destruct (Z.eqb_spec x 1) as [-> | Hne].
  - rewrite Hr, Hpr. simpl.
    destruct (is_binary_lookup _ _ _ _ HA Hr) as [Hlr Hbr].
    destruct (is_binary_lookup _ _ _ _ HA Hpr) as [Hlp Hbp].
    assert (HA1 : is_binary n_cols (<[i := row_add r p]> A)).
    { apply is_binary_insert; [done | by apply row_add_length |
        apply row_add_binary]. }
    rewrite list_lookup_insert_eq by lia. simpl.
    destruct (lookup_lt_is_Some_2 (<[i := row_add r p]> A) pivot_row)
      as [p' Hp']; [rewrite length_insert; lia |].
    rewrite Hp'. simpl.
    destruct (is_binary_lookup _ _ _ _ HA1 Hp') as [Hlp' Hbp'].
    destruct (lookup_lt_is_Some_2 signs i) as [rh Hrh]; [lia |].
    destruct (lookup_lt_is_Some_2 signs pivot_row) as [ri Hri]; [lia |].
    unfold getitem. rewrite Hrh, Hri. simpl.
    destruct (row_sum_total (row_add r p) p' rh ri N) as (s & -> & _);
      [done | rewrite (row_add_length n_cols); lia | lia |].
    simpl.
    apply IH; [done | by rewrite length_insert | by rewrite length_insert].
  - by apply IH.
Qed.

Lemma swap_lookup {X} (l : list X) (a b : nat) (x y : X) (i : nat) :
  l !! a = Some x → l !! b = Some y →
  <[b := x]> (<[a := y]> l) !! i =
    if decide (i = b) then Some x
    else if decide (i = a) then Some y else l !! i.
Proof.
  intros Ha Hb.
  assert (a < length l)%nat by (by eapply lookup_lt_Some).
  assert (b < length l)%nat by (by eapply lookup_lt_Some).
  destruct (decide (i = b)) as [-> | Hib].
  { by rewrite list_lookup_insert_eq by (by rewrite length_insert). }
  rewrite list_lookup_insert_ne by done.
  destruct (decide (i = a)) as [-> | Hia].
  { by rewrite list_lookup_insert_eq. }
  by rewrite list_lookup_insert_ne.
Qed.

Lemma zero_below_swap (A : matrix) (from j a b : nat) (x y : row) :
  zero_below A from j → (from ≤ a)%nat → (from ≤ b)%nat →
  A !! a = Some x → A !! b = Some y →
  zero_below (<[b := x]> (<[a := y]> A)) from j.
Proof.
  intros Hz Ha Hb Hx Hy i r j' v Hr Hi Hv Hj'.
  rewrite (swap_lookup A a b x y i Hx Hy) in Hr.
  repeat case_decide; simplify_eq; eauto.
Qed.

(** The elimination loop of a column, on an array of bits: it returns, the
    rows down to the pivot are untouched, and each row below it either is
    kept or has the pivot row added. *)
Lemma eliminate_column (n_rows n_cols N j cr : nat)
    (A : matrix) (signs : list Z) (rp : row) :
  is_binary n_cols A → (N + N ≤ n_cols)%nat → (j < n_cols)%nat →
  length A = n_rows → length signs = n_rows →
  A !! cr = Some rp →
  ∃ A' signs',
    eliminate N j cr (seq (S cr) (n_rows - S cr)) A signs = Ok (A', signs') ∧
    is_binary n_cols A' ∧ length A' = n_rows ∧ length signs' = n_rows ∧
    (∀ i, (i ≤ cr)%nat → A' !! i = A !! i ∧ signs' !! i = signs !! i) ∧
    (∀ i r, (cr < i)%nat → A !! i = Some r → r !! j ≠ Some 1 →
       A' !! i = Some r ∧ signs' !! i = signs !! i) ∧
    (∀ i r, (cr < i)%nat → A !! i = Some r → r !! j = Some 1 →
       A' !! i = Some (row_add r rp)).
Proof.
  intros HA HN Hj HlA Hls Hrp.
  assert (Hcr : (cr < n_rows)%nat).
  { rewrite <- HlA. by eapply lookup_lt_Some. }
  destruct (eliminate_total n_rows n_cols N j cr
              (seq (S cr) (n_rows - S cr)) A signs)
    as (A' & signs' & Hrun & HA' & HlA' & Hls'); try done.
  { apply Forall_seq. intros; lia. }
  exists A', signs'. repeat (split; [done |]).
  assert (Hp : cr ∉ seq (S cr) (n_rows - S cr)).
  { rewrite elem_of_seq. lia. }
  destruct (eliminate_inv N j cr _ _ _ _ _ (NoDup_seq _ _) Hp Hrun)
    as (Hout & Hkeep & Hupd).
  split; [| split].
  - intros i Hi. apply Hout. rewrite elem_of_seq. lia.
  - intros i r Hi Hr Hne. apply Hkeep; try done.
    rewrite elem_of_seq. apply lookup_lt_Some in Hr. lia.
  - intros i r Hi Hr H1.
    destruct (Hupd i r) as (p & rh & ri & s & H & _ & _ & H' & _); try done.
    { rewrite elem_of_seq. apply lookup_lt_Some in Hr. lia. }
    congruence.
Qed.

(** ** The scan and the row sum of the sign-free elimination *)

Lemma first_one_drop (A : matrix) (j p : nat) (m from : nat) :
  (from + m = p)%nat → (p ≤ length A)%nat →
  (∀ i r, (from ≤ i < p)%nat → A !! i = Some r → r !! j = Some 0) →
  ((p < length A)%nat → ∃ r, A !! p = Some r ∧ r !! j = Some 1) →
  first_one j (drop from A) from =
    if decide (p < length A)%nat then Some p else None.
Proof.
  revert from. induction m as [| m IH]; intros from Hm Hp Hzeros Hone.
  - assert (from = p) as -> by lia.
    destruct (decide (p < length A)%nat) as [Hlt | Hge].
    + destruct (Hone Hlt) as (r & Hr & Hr1).
      rewrite (drop_S _ _ _ Hr). simpl.
      by rewrite (list_lookup_total_correct _ _ _ Hr1).
    + by rewrite drop_ge by lia.
  - destruct (lookup_lt_is_Some_2 A from) as [r Hr]; [lia |].
    rewrite (drop_S _ _ _ Hr). simpl.
    rewrite (list_lookup_total_correct r j 0) by (apply (Hzeros from); [lia | done]).
    simpl. apply IH; [lia | done | | done].
    intros i r' Hi. apply Hzeros. lia.
Qed.

Lemma row_add_xor (r p : row) :
  binary_row r → binary_row p → row_add r p = xor_row r p.
Proof.
  unfold row_add, xor_row. intros Hr. revert p.
  induction Hr as [| a r Ha _ IH]; intros p Hp; [done |].
  destruct Hp as [| b p Hb Hp]; [done |]. simpl. f_equal; [| by apply IH].
  by destruct Ha as [-> | ->], Hb as [-> | ->].
Qed.

(** ** One column of the reduction *)

Lemma REF_column_inv (N n_rows n_cols j : nat) (st : ref_state)
    (ps : list nat) :
  (N + N ≤ n_cols)%nat → (j < n_cols)%nat →
  (current_row st < n_rows)%nat →
  ref_inv n_rows n_cols j st ps →
  ∃ st' ps',
    REF_column N n_rows j st = Ok st' ∧
    gf2_column j (st_A st, current_row st) = (st_A st', current_row st') ∧
    ref_inv n_rows n_cols (S j) st' ps'.
Proof.
  intros HN Hj Hcr (HA & HlA & Hls & Hps & _ & Hsort & Hlt & Hpiv & Hzero).
  destruct st as [A signs cr]. simpl in *. unfold REF_column. simpl.
  destruct (find_pivot_spec n_cols A j (n_rows - cr) cr)
    as (p & Hfind & Hrange & Hzeros & Hone); [done | done | lia |].
  pose proof (first_one_drop A j p (p - cr) cr) as Hscan.
  rewrite HlA in Hfind, Hrange, Hone, Hscan. rewrite Hfind. simpl.
  rewrite Hscan by (done || lia). clear Hscan.
  destruct (Nat.eqb_spec p n_rows) as [-> | Hp].
  - (* no pivot in this column *)
    exists (RefState A signs cr), ps. split; [done |].
    split; [by rewrite decide_False by lia |].
    unfold ref_inv. simpl. split_and!; try (done || lia).
    unfold echelon. split_and!; try done.
    { eapply Forall_impl; [exact Hlt |]. simpl. intros; lia. }
    intros i r j' x Hr Hi Hx Hj'. rewrite Hps in Hi.
    destruct (decide (j' = j)) as [-> | Hne].
    + assert (i < n_rows)%nat by (rewrite <- HlA; by eapply lookup_lt_Some).
      assert (r !! j = Some 0) by (apply (Hzeros i); [lia | done]).
      congruence.
    + apply (Hzero i r j' x); try done; lia.
  - (* the pivot is row p *)
    destruct Hone as (rp & Hrp & Hrp1); [lia |].
    destruct (lookup_lt_is_Some_2 A cr) as [rc Hrc]; [lia |].
    rewrite (swap_Ok A cr p rc rp) by done. simpl.
    destruct (lookup_lt_is_Some_2 signs cr) as [sc Hsc]; [lia |].
    destruct (lookup_lt_is_Some_2 signs p) as [sp Hsp]; [lia |].
    rewrite (swap_Ok signs cr p sc sp) by done. simpl.
    set (A1 := <[p := rc]> (<[cr := rp]> A)).
    set (s1 := <[p := sc]> (<[cr := sp]> signs)).
    destruct (is_binary_lookup _ _ _ _ HA Hrc) as [Hlrc Hbrc].
    destruct (is_binary_lookup _ _ _ _ HA Hrp) as [Hlrp Hbrp].
    assert (HA1 : is_binary n_cols A1).
    { unfold A1. by repeat apply is_binary_insert. }
    assert (HlA1 : length A1 = n_rows).
    { unfold A1. by rewrite !length_insert. }
    assert (Hls1 : length s1 = n_rows).
    { unfold s1. by rewrite !length_insert. }
    assert (HA1cr : A1 !! cr = Some rp).
    { unfold A1. rewrite (swap_lookup A cr p rc rp cr) by done.
      repeat case_decide; congruence. }
    assert (Hz1 : zero_below A1 cr j).
    { unfold A1. apply zero_below_swap; try done; try lia.
      by rewrite <- Hps. }
    assert (Hlow : ∀ k, (k < cr)%nat → A1 !! k = A !! k).
    { intros k Hk. unfold A1.
      rewrite (swap_lookup A cr p rc rp k) by done.
      repeat case_decide; (done || lia). }
    destruct (eliminate_column n_rows n_cols N j cr A1 s1 rp)
      as (A2 & s2 & Hrun & HA2 & HlA2 & Hls2 & Hout & Hkeep & Hupd);
      try done.
    rewrite Hrun. simpl.
    exists (RefState A2 s2 (S cr)), (ps ++ [j]). split; [done |].
    split.
    { rewrite decide_True by lia. simpl.
      rewrite (list_lookup_total_correct _ _ _ Hrc).
      rewrite (list_lookup_total_correct _ _ _ Hrp).
      fold A1. rewrite (list_lookup_total_correct _ _ _ HA1cr).
      f_equal. symmetry. apply list_eq. intros i.
      rewrite list_lookup_imap.
      destruct (A1 !! i) as [r1 |] eqn:Hr1; simpl.
      - destruct (Nat.ltb_spec cr i) as [Hi | Hi]; simpl.
        + destruct (is_binary_entry _ _ _ j _ HA1 Hr1 Hj) as (v & Hv & Hbit).
          rewrite (list_lookup_total_correct _ _ _ Hv).
          destruct (is_binary_lookup _ _ _ _ HA1 Hr1) as [_ Hb1].
          destruct Hbit as [-> | ->]; simpl.
          * destruct (Hkeep i r1) as [-> _]; (done || congruence).
          * rewrite (Hupd i r1) by done. f_equal. by apply row_add_xor.
        + destruct (Hout i) as [-> _]; [lia | done].
      - apply lookup_ge_None. apply lookup_ge_None in Hr1. lia. }
    unfold ref_inv. simpl. split_and!; try (done || lia).
    { rewrite length_app; simpl; lia. }
    unfold echelon. split_and!.
    + apply StronglySorted_app. split; [| split; [done | repeat constructor]].
      intros x1 x2 Hx1 Hx2. apply list_elem_of_singleton in Hx2 as ->.
      rewrite Forall_forall in Hlt. by apply Hlt.
    + apply Forall_app. split.
      * eapply Forall_impl; [exact Hlt |]. simpl. intros; lia.
      * repeat constructor.
    + intros k q Hq. apply lookup_snoc_Some in Hq as [[Hk Hq] | [Hk <-]].
      * destruct (Hpiv k q Hq) as (r & Hr & Hr1 & Hr0).
        exists r. split; [| done].
        destruct (Hout k) as [-> _]; [lia |]. rewrite Hlow by lia. done.
      * exists rp. rewrite Hk, Hps.
        destruct (Hout cr) as [-> _]; [lia |]. split; [done |].
        split; [done |]. intros j' x Hj' Hx.
        apply (Hzero p rp j' x); try done. lia.
    + intros i r j' x Hr Hi Hx Hj'.
      rewrite length_app in Hi. simpl in Hi.
      assert (Hi' : (i < n_rows)%nat).
      { rewrite <- HlA2. by eapply lookup_lt_Some. }
      destruct (lookup_lt_is_Some_2 A1 i) as [r1 Hr1]; [lia |].
      destruct (is_binary_entry _ _ _ j _ HA1 Hr1 Hj) as (v & Hv & Hbit).
      destruct (decide (v = 1)) as [-> | Hv1].
      * rewrite (Hupd i r1) in Hr by (done || lia).
        injection Hr as <-.
        unfold row_add in Hx.
        apply lookup_zip_with_Some in Hx as (a & b & -> & Ha & Hb).
        destruct (decide (j' = j)) as [-> | Hne].
        { by replace a with 1 by congruence; replace b with 1 by congruence. }
        rewrite (Hz1 i r1 j' a), (Hz1 cr rp j' b); try done; lia.
      * destruct (Hkeep i r1) as [HA2i _]; [lia | done | congruence |].
        assert (r = r1) as -> by congruence.
        destruct (decide (j' = j)) as [-> | Hne].
        { assert (x = v) as -> by congruence. by destruct Hbit. }
        apply (Hz1 i r1 j' x); try done; lia.
Qed.

(** ** The column loop *)

Lemma echelon_length (j : nat) (A : matrix) (ps : list nat) :
  echelon j A ps → (length ps ≤ length A)%nat.
Proof.
  intros (_ & _ & Hpiv & _).
  destruct (decide (length ps = 0)%nat) as [-> | Hne]; [lia |].
  destruct (lookup_lt_is_Some_2 ps (length ps - 1)) as [p Hp]; [lia |].
  destruct (Hpiv _ _ Hp) as (r & Hr & _).
  apply lookup_lt_Some in Hr. lia.
Qed.

Lemma REF_columns_inv (N n_rows n_cols : nat) (m j : nat) (st : ref_state)
    (ps : list nat) :
  (N + N ≤ n_cols)%nat → (j + m = n_cols)%nat →
  ref_inv n_rows n_cols j st ps →
  ∃ st' ps',
    REF_columns N n_rows (seq j m) st = Ok st' ∧
    gf2_columns (seq j m) (st_A st, current_row st)
      = (st_A st', current_row st') ∧
    ref_inv n_rows n_cols n_cols st' ps'.
Proof.
  intros HN. revert j st ps.
  induction m as [| m IH]; intros j st ps Hjm Hinv;
    cbn [REF_columns gf2_columns seq fst snd].
  { assert (j = n_cols) as -> by lia. by exists st, ps. }
  pose proof Hinv as (_ & HlA0 & _ & _ & Hle0 & _). rewrite HlA0.
  destruct (Nat.leb_spec n_rows (current_row st)) as [Hbreak | Hcr].
  - exists st, ps. split; [done |].
    split; [by rewrite (proj2 (Nat.eqb_eq _ _)) by lia |].
    destruct Hinv as (HA & HlA & Hls & Hps & Hle & Hsort & Hlt & Hpiv & Hzero).
    unfold ref_inv, echelon. split_and!; try done.
    + eapply Forall_impl; [exact Hlt |]. simpl. intros; lia.
    + intros i r j' x Hr Hi. apply lookup_lt_Some in Hr. lia.
  - destruct (REF_column_inv N n_rows n_cols j st ps)
      as (st1 & ps1 & Hcol & Hgf2 & Hinv1); try done; try lia.
    rewrite Hcol, Hgf2. simpl.
    rewrite (proj2 (Nat.eqb_neq _ _)) by lia.
    apply (IH (S j) st1 ps1); [lia | done].
Qed.

Lemma shape_binary (n_cols : nat) (A : matrix) :
  is_binary n_cols A → A ≠ [] → shape A = (length A, n_cols).
Proof.
  intros HA Hne. destruct A as [| r A]; [done |].
  unfold shape. f_equal. by apply Forall_cons in HA as [[-> _] _].
Qed.

(** The reduction of an array of bits with at least 2N columns returns, in
    echelon form. *)
Lemma REF_run_inv (N n_cols : nat) (A : matrix) (signs : list Z) :
  (N + N ≤ n_cols)%nat → is_binary n_cols A → length signs = length A →
  ∃ st ps,
    REF_run A signs N = Ok st ∧
    gf2_reduce A = (st_A st, current_row st) ∧
    ref_inv (length A) n_cols n_cols st ps.
Proof.
  intros HN HA Hls. unfold REF_run, gf2_reduce.
  destruct (decide (A = [])) as [-> | Hne].
  - simpl. exists (RefState [] signs 0), []. split; [done |]. split; [done |].
    unfold ref_inv, echelon. simpl. split_and!; try done; try constructor.
  - rewrite (shape_binary n_cols) by done. simpl.
    apply (REF_columns_inv N (length A) n_cols n_cols 0
             (RefState A signs 0) []); [done | lia |].
    unfold ref_inv, echelon. simpl. split_and!; try done; try constructor.
    + lia.
    + intros i r j' x _ _ _ Hj'. lia.
Qed.

(** ** Reducing an array that is already in echelon form *)

Lemma eliminate_noop (N j pivot_row : nat) (ks : list nat)
    (A : matrix) (signs : list Z) :
  Forall (fun i => ∃ r x, A !! i = Some r ∧ r !! j = Some x ∧ x ≠ 1) ks →
  eliminate N j pivot_row ks A signs = Ok (A, signs).
Proof.
  induction 1 as [| i ks (r & x & Hr & Hx & Hne) _ IH]; simpl; [done |].
  rewrite (getitem2_Ok _ _ _ _ _ Hr Hx). simpl.
  by destruct (Z.eqb_spec x 1).
Qed.

(** In echelon form a row is zero in every column before its pivot column,
    and everywhere when it has none. *)
Lemma echelon_zero_at (n_cols : nat) (A : matrix) (ps : list nat)
    (i j : nat) (r : row) :
  is_binary n_cols A → echelon n_cols A ps → (j < n_cols)%nat →
  A !! i = Some r →
  (∀ q, ps !! i = Some q → (j < q)%nat) →
  r !! j = Some 0.
Proof.
  intros HA (_ & _ & Hpiv & Hzero) Hj Hr Hq.
  destruct (is_binary_entry _ _ _ j _ HA Hr Hj) as (x & Hx & _).
  rewrite Hx. f_equal.
  destruct (ps !! i) as [q |] eqn:Hpi.
  - destruct (Hpiv i q Hpi) as (r' & Hr' & _ & Hz).
    assert (r' = r) as -> by congruence.
    apply (Hz j x); [by apply Hq | done].
  - apply lookup_ge_None in Hpi. by apply (Hzero i r j x).
Qed.

Lemma REF_columns_echelon_noop (N n_rows n_cols : nat) (m j : nat)
    (A : matrix) (signs : list Z) (ps1 ps2 : list nat) :
  (j + m = n_cols)%nat →
  is_binary n_cols A → length A = n_rows → length signs = n_rows →
  echelon n_cols A (ps1 ++ ps2) →
  Forall (fun p => (p < j)%nat) ps1 → Forall (fun p => (j ≤ p)%nat) ps2 →
  REF_columns N n_rows (seq j m) (RefState A signs (length ps1)) =
  Ok (RefState A signs (length (ps1 ++ ps2))).
Proof.
  intros Hjm HA HlA Hls Hech. revert j ps1 ps2 Hjm Hech.
  induction m as [| m IH]; intros j ps1 ps2 Hjm Hech H1 H2; simpl.
  { (* every pivot column was met *)
    destruct ps2 as [| q ps2]; [by rewrite app_nil_r |].
    destruct Hech as (_ & Hlt & _).
    apply Forall_app in Hlt as [_ Hlt].
    apply Forall_cons in Hlt as [Hq _]. apply Forall_cons in H2 as [Hq' _].
    lia. }
  pose proof (echelon_length _ _ _ Hech) as Hlen.
  rewrite length_app, HlA in Hlen.
  destruct (Nat.leb_spec n_rows (length ps1)) as [Hbreak | Hcr].
  { destruct ps2; [by rewrite app_nil_r | simpl in Hlen; lia]. }
  assert (Hj : (j < n_cols)%nat) by lia.
  unfold REF_column. simpl.
  destruct (find_pivot_spec n_cols A j (n_rows - length ps1) (length ps1))
    as (p & Hfind & Hrange & Hzeros & Hone); [done | done | lia |].
  rewrite HlA in Hfind, Hrange, Hone. rewrite Hfind. simpl.
  assert (Hlater : ∀ i q, (length ps1 ≤ i)%nat →
            (ps1 ++ ps2) !! i = Some q → q ∈ ps2).
  { intros i q Hi Hq. rewrite lookup_app_r in Hq by done.
    by eapply list_elem_of_lookup_2. }
  destruct (decide (ps2 !! 0%nat = Some j)) as [Hhead | Hhead].
  - (* column j is the pivot column of row [length ps1] *)
    destruct ps2 as [| q ps2]; [by rewrite lookup_nil in Hhead |].
    injection Hhead as ->.
    pose proof Hech as Hech'.
    destruct Hech as (Hsort & Hlt & Hpiv & Hzero).
    destruct (Hpiv (length ps1) j) as (rp & Hrp & Hrp1 & _).
    { by rewrite list_lookup_middle. }
    assert (p = length ps1) as ->.
    { destruct (decide (p = length ps1)) as [| Hne]; [done |].
      assert (rp !! j = Some 0) by (apply (Hzeros (length ps1)); [lia | done]).
      congruence. }
    destruct (Nat.eqb_spec (length ps1) n_rows) as [| _]; [lia |].
    rewrite (swap_same A _ rp) by done. simpl.
    destruct (lookup_lt_is_Some_2 signs (length ps1)) as [s Hs]; [lia |].
    rewrite (swap_same signs _ s) by done. simpl.
    apply StronglySorted_app in Hsort as (_ & _ & Hsort2).
    apply StronglySorted_cons in Hsort2 as [Hgt _].
    rewrite eliminate_noop.
    + simpl.
      replace (S (length ps1)) with (length (ps1 ++ [j]))
        by (rewrite length_app; simpl; lia).
      rewrite (cons_middle j ps1 ps2), app_assoc.
      apply IH; [lia | by rewrite <- app_assoc | |].
      * apply Forall_app. split; [| repeat constructor].
        eapply Forall_impl; [exact H1 |]. simpl. intros; lia.
      * eapply Forall_impl; [exact Hgt |]. simpl. intros; lia.
    + apply Forall_seq. intros i Hi.
      destruct (lookup_lt_is_Some_2 A i) as [r Hr]; [lia |].
      exists r, 0. split; [done |]. split; [| done].
      apply (echelon_zero_at n_cols A (ps1 ++ j :: ps2) i j r); try done.
      intros q Hq. rewrite cons_middle, app_assoc in Hq.
      rewrite lookup_app_r in Hq by (rewrite length_app; simpl; lia).
      apply list_elem_of_lookup_2 in Hq.
      rewrite Forall_forall in Hgt. by apply Hgt.
  - (* column j holds no pivot *)
    assert (Hgt : Forall (fun q => (S j ≤ q)%nat) ps2).
    { destruct ps2 as [| q ps2]; [constructor |].
      destruct Hech as (Hsort & _).
      apply StronglySorted_app in Hsort as (_ & _ & Hsort2).
      apply StronglySorted_cons in Hsort2 as [Hq _].
      apply Forall_cons in H2 as [Hjq H2].
      assert (q ≠ j) by (intros ->; done).
      constructor; [lia |].
      eapply Forall_impl; [exact Hq |]. simpl. intros; lia. }
    assert (p = n_rows) as ->.
    { destruct (decide (p = n_rows)) as [| Hne]; [done |].
      destruct Hone as (r & Hr & Hr1); [lia |].
      assert (r !! j = Some 0); [| congruence].
      apply (echelon_zero_at n_cols A (ps1 ++ ps2) p j r); try done.
      intros q Hq. apply Hlater in Hq; [| lia].
      rewrite Forall_forall in Hgt. specialize (Hgt q Hq). lia. }
    rewrite Nat.eqb_refl. simpl.
    apply IH; [lia | done | | done].
    eapply Forall_impl; [exact H1 |]. simpl. intros; lia.
Qed.

Lemma REF_run_echelon_noop (N n_cols : nat) (A : matrix) (signs : list Z)
    (ps : list nat) :
  is_binary n_cols A → length signs = length A → echelon n_cols A ps →
  REF_run A signs N = Ok (RefState A signs (length ps)).
Proof.
  intros HA Hls Hech. unfold REF_run.
  destruct (decide (A = [])) as [-> | Hne].
  - apply echelon_length in Hech. simpl in *.
    by replace (length ps) with 0%nat by lia.
  - rewrite (shape_binary n_cols) by done.
    apply (REF_columns_echelon_noop N (length A) n_cols n_cols 0 A signs
             [] ps); try done.
    apply Forall_forall. intros; lia.
Qed.

(** C4.  Reduction is idempotent: on an N x 2N array of bits with N signs,
    [REF_binary] returns, and reducing its output again returns that same
    array and those same signs. *)
Theorem REF_binary_idempotent (N : nat) (M : matrix) (s : list Z) :
  is_binary (2 * N) M → length M = N → length s = N →
  ∃ M' s',
    REF_binary M s N = Ok (M', s') ∧
    REF_binary M' s' N = Ok (M', s').
Proof.
  intros HM HlM Hls.
  destruct (REF_run_inv N (2 * N) M s) as (st & ps & Hrun & _ & Hinv);
    [lia | done | congruence |].
  destruct Hinv as (HA & HlA & Hls' & Hps & _ & Hech).
  exists (st_A st), (st_signs st). unfold REF_binary.
  rewrite Hrun. simpl. split; [done |].
  rewrite (REF_run_echelon_noop N (2 * N) _ _ ps); [done | done | | done].
  congruence.
Qed.

Lemma REF_binary_idempotent_witness :
  ∃ M' s',
    REF_binary [[0; 1; 1; 0]; [1; 1; 0; 1]] [1; 0] 2 = Ok (M', s') ∧
    REF_binary M' s' 2 = Ok (M', s').
Proof.
  apply (REF_binary_idempotent 2 [[0; 1; 1; 0]; [1; 1; 0; 1]] [1; 0]);
    [| reflexivity | reflexivity].
  repeat constructor; (by left) || (by right).
Defined.

(** ** Rows and signs move together *)

Lemma eliminate_gens (N j pivot_row : nat) (ks : list nat)
    (A : matrix) (signs : list Z) (A' : matrix) (signs' : list Z) :
  pivot_row ∉ ks →
  eliminate N j pivot_row ks A signs = Ok (A', signs') →
  rtc (gen_step N) (zip A signs) (zip A' signs').
Proof.
  revert A signs.
  induction ks as [| i ks IH]; intros A signs Hp Hrun; simpl in Hrun.
  { injection Hrun as <- <-. done. }
  apply not_elem_of_cons in Hp as [Hpi Hp].
  apply bind_Ok_inv in Hrun as (a & Hget & Hrun).
  destruct (Z.eqb_spec a 1) as [-> | Hne]; [| by apply IH].
  inv_bind Hrun. inv_bind Hrun. simpl in Hrun.
  inv_bind Hrun. inv_bind Hrun. inv_bind Hrun. inv_bind Hrun. inv_bind Hrun.
  rewrite list_lookup_insert_eq in Ha1 by (by eapply lookup_lt_Some).
  rewrite list_lookup_insert_ne in Ha2 by done.
  simplify_eq.
  apply rtc_l with (<[i := (row_add a a0, a5)]> (zip A signs)).
  2: { rewrite (insert_zip_with pair). by apply IH. }
  eapply (gen_combine N _ i pivot_row); try done.
  - by apply lookup_zip_Some.
  - by apply lookup_zip_Some.
Qed.

Lemma REF_column_gens (N n_rows j : nat) (st st' : ref_state) :
  REF_column N n_rows j st = Ok st' →
  rtc (gen_step N) (zip (st_A st) (st_signs st))
                   (zip (st_A st') (st_signs st')).
Proof.
  unfold REF_column. intros Hrun.
  apply bind_Ok_inv in Hrun as (p & Hfind & Hrun).
  destruct (p =? n_rows)%nat.
  { by injection Hrun as <-. }
  apply bind_Ok_inv in Hrun as (A1 & HA1 & Hrun).
  apply bind_Ok_inv in Hrun as (s1 & Hs1 & Hrun).
  apply bind_Ok_inv in Hrun as ([A2 s2] & Helim & Hrun).
  injection Hrun as <-. simpl.
  unfold swap in HA1, Hs1.
  inv_bind HA1. inv_bind HA1. inv_bind Hs1. inv_bind Hs1. simplify_eq.
  eapply rtc_l.
  - apply (gen_exchange N _ (current_row st) p (a, a1) (a0, a2));
      by apply lookup_zip_Some.
  - rewrite !(insert_zip_with pair).
    eapply eliminate_gens; [| done]. rewrite elem_of_seq. lia.
Qed.

Lemma REF_columns_gens (N n_rows : nat) (js : list nat) (st st' : ref_state) :
  REF_columns N n_rows js st = Ok st' →
  rtc (gen_step N) (zip (st_A st) (st_signs st))
                   (zip (st_A st') (st_signs st')).
Proof.
  revert st. induction js as [| j js IH]; intros st Hrun; simpl in Hrun.
  { by injection Hrun as <-. }
  destruct (n_rows <=? current_row st)%nat.
  { by injection Hrun as <-. }
  apply bind_Ok_inv in Hrun as (st1 & Hcol & Hrun).
  etrans; [by eapply REF_column_gens | by apply IH].
Qed.

Lemma REF_run_gens (N : nat) (A : matrix) (signs : list Z) (st : ref_state) :
  REF_run A signs N = Ok st →
  rtc (gen_step N) (zip A signs) (zip (st_A st) (st_signs st)).
Proof.
  unfold REF_run. destruct (shape A) as [n_rows n_cols].
  apply REF_columns_gens.
Qed.

(** ** What [REF_binary] returns *)

(** C5 (as amended).  On an N x 2N array of bits with N signs, [REF_binary]
    returns the pair of the reduced array and the sign vector, and nothing
    else: the array is in echelon form with strictly increasing pivot
    columns, the signs are as many as the rows and have been moved and
    updated together with their rows, and the final [current_row], which is
    the number of pivot columns, stays inside the function. *)
Theorem REF_binary_returns_echelon (N : nat) (A : matrix) (signs : list Z) :
  is_binary (2 * N) A → length A = N → length signs = N →
  ∃ A' signs' ps r,
    REF_binary_tuple A signs N = Ok [Array2 A'; Array1 signs'] ∧
    REF_run A signs N = Ok (RefState A' signs' r) ∧
    is_binary (2 * N) A' ∧ length A' = N ∧ length signs' = N ∧
    echelon (2 * N) A' ps ∧ length ps = r ∧
    rtc (gen_step N) (zip A signs) (zip A' signs').
Proof.
  intros HA HlA Hls.
  destruct (REF_run_inv N (2 * N) A signs) as (st & ps & Hrun & _ & Hinv);
    [lia | done | congruence |].
  pose proof (REF_run_gens _ _ _ _ Hrun) as Hgens.
  destruct st as [A' signs' r].
  destruct Hinv as (HA' & HlA' & Hls' & Hps & _ & Hech). simpl in *.
  exists A', signs', ps, r.
  unfold REF_binary_tuple, REF_binary. rewrite Hrun. simpl.
  split_and!; (done || congruence).
Qed.

Lemma REF_binary_returns_echelon_witness :
  ∃ A' signs' ps r,
    REF_binary_tuple [[0; 1; 1; 0]; [1; 1; 0; 1]] [1; 0] 2
      = Ok [Array2 A'; Array1 signs'] ∧
    REF_run [[0; 1; 1; 0]; [1; 1; 0; 1]] [1; 0] 2
      = Ok (RefState A' signs' r) ∧
    is_binary (2 * 2) A' ∧ length A' = 2%nat ∧ length signs' = 2%nat ∧
    echelon (2 * 2) A' ps ∧ length ps = r ∧
    rtc (gen_step 2) (zip [[0; 1; 1; 0]; [1; 1; 0; 1]] [1; 0])
                     (zip A' signs').
Proof.
  apply (REF_binary_returns_echelon 2 [[0; 1; 1; 0]; [1; 1; 0; 1]] [1; 0]);
    [| reflexivity | reflexivity].
  repeat constructor; (by left) || (by right).
Defined.

(** Against C5 as first stated: the tuple returned on the one-qubit array
    [[1, 0]] has two components, and no third component carries the rank. *)
Lemma REF_binary_tuple_has_no_rank :
  ¬ ∃ A' signs' (r : Z),
      REF_binary_tuple [[1; 0]] [0] 1 = Ok [Array2 A'; Array1 signs'; Int r].
Proof. intros (A' & signs' & r & H). vm_compute in H. discriminate. Qed.

(** ** The rank engine against the reduction *)

(** C6.  On every array of bits the sign-free rank is the number of
    pivots of the reduction with signs, which returns on it (N is any
    qubit count the columns allow, 2N for an N x 2N array). *)
Theorem gf2_rank_agrees_with_REF (N n_cols : nat) (A : matrix)
    (signs : list Z) :
  (N + N ≤ n_cols)%nat → is_binary n_cols A → length signs = length A →
  ∃ st, REF_run A signs N = Ok st ∧
        gf2_rank A = current_row st ∧ (gf2_reduce A).1 = st_A st.
Proof.
  intros HN HA Hls.
  destruct (REF_run_inv N n_cols A signs) as (st & ps & Hrun & Hgf2 & _);
    try done.
  exists st. unfold gf2_rank. by rewrite Hgf2.
Qed.

Lemma gf2_rank_agrees_with_REF_witness :
  ∃ st, REF_run [[0; 1; 1; 0]; [1; 1; 0; 1]] [1; 0] 2 = Ok st ∧
        gf2_rank [[0; 1; 1; 0]; [1; 1; 0; 1]] = current_row st ∧
        (gf2_reduce [[0; 1; 1; 0]; [1; 1; 0; 1]]).1 = st_A st.
Proof.
  apply (gf2_rank_agrees_with_REF 2 4 [[0; 1; 1; 0]; [1; 1; 0; 1]] [1; 0]);
    [simpl; lia | | reflexivity].
  repeat constructor; (by left) || (by right).
Defined.

(** ** [Step.validate] *)

(** C10.  At step index 0 a step validates exactly when its trigger is
    "first" (so never for "always", "even" or "odd"); a "first" step
    validates at no other index; an "always" step validates exactly at the
    positive indices. *)
Theorem validate_at_zero (self : Step) (step_count : Z) :
  (when self ∈ [PyStr "always"; PyStr "even"; PyStr "odd"] →
   validate self 0 = false) ∧
  (validate self 0 = true ↔ when self = "first") ∧
  (when self = "first" → (validate self step_count = true ↔ step_count = 0)) ∧
  (when self = "always" → (validate self step_count = true ↔ 0 < step_count)).
Proof.
  destruct self as [N w]. unfold validate. simpl.
  split_and!.
  - intros Hw. rewrite !elem_of_cons in Hw.
    destruct Hw as [-> | [-> | [-> | Hw]]]; [done | done | done |].
    by apply elem_of_nil in Hw.
  - rewrite !andb_false_r, andb_true_r.
    destruct w as [| w | o]; simpl; [by split | | by split].
    destruct (String.eqb_spec w "first") as [-> | Hne]; [done |].
    split; [discriminate | congruence].
  - intros ->. simpl.
    destruct (Z.eqb_spec step_count 0) as [-> | Hne]; [done |].
    split; [discriminate | done].
  - intros ->. simpl.
    destruct (Z.ltb_spec 0 step_count) as [Hlt | Hge]; [done |].
    simpl. split; [discriminate | lia].
Qed.

(** ** The rank is at most the number of rows *)

Lemma gf2_rank_le_rows (n_cols : nat) (A : matrix) :
  is_binary n_cols A → (gf2_rank A ≤ length A)%nat.
Proof.
  intros HA.
  destruct (REF_run_inv 0 n_cols A (replicate (length A) 0))
    as (st & ps & _ & Hgf2 & Hinv); [lia | done | by rewrite length_replicate |].
  destruct Hinv as (_ & _ & _ & _ & Hle & _).
  unfold gf2_rank. by rewrite Hgf2.
Qed.

(** ** [xs] and [small_zs] on arrays of the expected shape *)

Lemma stretch_length {A : Type} (n : nat) (l : list A) :
  length l = n → stretch n l = l.
Proof. intros <-. by destruct l as [| x [| y l]]. Qed.

Lemma np_assign_same (n m : nat) (src : matrix) :
  length src = n → Forall (fun r => length r = m) src →
  np_assign n m (n, m) src = Ok src.
Proof.
  intros Hn Hm. unfold np_assign.
  rewrite (bool_decide_eq_true_2 (n = n)) by done.
  rewrite (bool_decide_eq_true_2 (m = m)) by done. cbn [orb andb]. f_equal.
  rewrite stretch_length by (by rewrite length_map).
  rewrite <- (list_fmap_id src) at 2. apply Forall_fmap_ext_1.
  eapply Forall_impl; [exact Hm |]. intros r Hr. by apply stretch_length.
Qed.

Lemma shape_width (n m : nat) (A : matrix) :
  length A = n → Forall (fun r => length r = m) A → A ≠ [] →
  shape A = (n, m).
Proof.
  intros Hn Hm Hne. destruct A as [| r A]; [done |].
  apply Forall_cons in Hm as [Hr _]. unfold shape. by rewrite Hn, Hr.
Qed.

(** On an array with N rows of at least N columns [xs] is the slice. *)
Lemma xs_wide (N : nat) (A : matrix) :
  length A = N → Forall (fun r => (N ≤ length r)%nat) A →
  xs A = Ok (map (take N) A).
Proof.
  intros Hl Hw. unfold xs. rewrite Hl.
  destruct (decide (A = [])) as [-> | Hne].
  { simpl in Hl. by subst N. }
  rewrite (shape_width N N).
  - apply np_assign_same; [by rewrite length_map |].
    apply Forall_fmap. eapply Forall_impl; [exact Hw |].
    intros r Hr. simpl in *. rewrite length_take. lia.
  - by rewrite length_map.
  - apply Forall_fmap. eapply Forall_impl; [exact Hw |].
    intros r Hr. simpl in *. rewrite length_take. lia.
  - by destruct A.
Qed.

(** On an array with N rows of 2N columns [small_zs] is the slice, for
    every [size2] from 0 to N. *)
Lemma small_zs_square (N size2 : nat) (A : matrix) :
  length A = N → Forall (fun r => length r = (2 * N)%nat) A →
  (size2 ≤ N)%nat →
  small_zs A (Z.of_nat size2) (Z.of_nat N)
  = Ok (map (drop N) (drop (N - size2) A)).
Proof.
  intros Hl Hw Hs. unfold small_zs.
  destruct (Z.ltb_spec (Z.of_nat size2) 0); [lia |].
  destruct (Z.ltb_spec (Z.of_nat N) 0); [lia |]. cbn [orb].
  assert (Hshape : shape A = (N, if decide (A = []) then 0 else 2 * N)%nat).
  { destruct A as [| r A]; [by subst N |].
    apply Forall_cons in Hw as [Hr _]. unfold shape. by rewrite Hl, Hr. }
  rewrite Hshape. rewrite !Nat2Z.id.
  assert (Hstart : slice_start N (Z.of_nat N - Z.of_nat size2)
                   = (N - size2)%nat).
  { unfold slice_start.
    destruct (Z.ltb_spec (Z.of_nat N - Z.of_nat size2) 0); lia. }
  rewrite Hstart.
  assert (Hlen : length (map (drop N) (drop (N - size2) A)) = size2).
  { rewrite length_map, length_drop. lia. }
  rewrite Hlen.
  destruct (decide (A = [])) as [-> | Hne].
  { simpl in Hl. subst N. assert (size2 = 0%nat) as -> by lia. done. }
  replace (2 * N - N)%nat with N by lia.
  apply np_assign_same; [done |].
  apply Forall_fmap, Forall_drop. eapply Forall_impl; [exact Hw |].
  intros r Hr. simpl in *. rewrite length_drop. lia.
Qed.

Lemma xs_binary (N : nat) (A : matrix) :
  is_binary (2 * N) A → length A = N →
  xs A = Ok (map (take N) A) ∧ is_binary N (map (take N) A).
Proof.
  intros HA Hl. split.
  - apply xs_wide; [done |]. eapply Forall_impl; [exact HA |].
    intros r [Hr _]. simpl. lia.
  - eapply Forall_fmap, Forall_impl; [exact HA |]. simpl.
    intros r [Hr Hb]. split.
    + rewrite length_take. lia.
    + by apply Forall_take.
Qed.

(** ** The OTOC sample *)

Lemma otoc_scan_spec (signs4 : list Z) (ks : list nat) (Ans : Z) :
  Forall (fun k => (k < length signs4)%nat) ks →
  otoc_scan signs4 ks Ans =
    Ok (if existsb (fun k => signs4 !!! k =? 1) ks then 1 else Ans).
Proof.
  intros Hks. revert Ans.
  induction Hks as [| k ks Hk _ IH]; intros Ans; simpl; [done |].
  rewrite getitem_lookup by done. simpl. rewrite IH.
  destruct (signs4 !!! k =? 1); simpl; [| done].
  by destruct (existsb _ ks).
Qed.

Lemma otoc_scan_hit (l : list Z) :
  existsb (fun k => l !!! k =? 1) (seq 0 (length l)) = true ↔
  Exists (fun s => s = 1) l.
Proof.
  rewrite existsb_exists, Exists_exists. split.
  - intros (k & Hk & Hx). apply in_seq in Hk. apply Z.eqb_eq in Hx.
    exists 1. split; [| done]. rewrite <- Hx.
    apply list_elem_of_lookup_total_2. lia.
  - intros (x & Hin & ->).
    apply list_elem_of_lookup_total_1 in Hin as (k & Hk & Hx).
    exists k. split; [apply in_seq; lia | by apply Z.eqb_eq].
Qed.

Lemma otoc_weight_range (rank : nat) : (0 < otoc_weight rank <= 1)%R.
Proof.
  unfold otoc_weight. split.
  - unfold Rpower. apply exp_pos.
  - rewrite <- (Rpower_O 2) by lra.
    apply Rle_Rpower; [lra |].
    pose proof (pos_INR rank). lra.
Qed.

(** C3.  After the reduction of the encoded array, with r the rank of the
    X-part and size2 = N - r, the sample contributes 0 when one of the
    bottom size2 signs is 1 and 2^(-r/2) otherwise; the contribution is 0
    or lies in (0, 1], and what is added to [v] is its quotient by [rep]. *)
Theorem OTOC_sample_value (N : nat) (bMat : matrix) (signs : list Z)
    (rep : Z) :
  is_binary (2 * N) bMat → length bMat = N → length signs = N →
  ∃ REF signs3 xs1 small c,
    REF_binary bMat signs N = Ok (REF, signs3) ∧
    xs REF = Ok xs1 ∧
    OTOC_sample bMat signs N = Ok c ∧
    OTOC_increment bMat signs N rep = Ok (c / IZR rep)%R ∧
    let r := gf2_rank (rows xs1) in
    let size2 := (N - r)%nat in
    small_zs REF (Z.of_nat N - Z.of_nat r) (Z.of_nat N) = Ok small ∧
    (r ≤ N)%nat ∧ length (drop r signs3) = size2 ∧
    (Exists (fun s => s = 1) (drop r signs3) → c = 0%R) ∧
    (Forall (fun s => s ≠ 1) (drop r signs3) → c = Rpower 2 (- INR r / 2)) ∧
    (c = 0 ∨ 0 < c <= 1)%R.
Proof.
  intros HA HlA Hls.
  destruct (REF_run_inv N (2 * N) bMat signs) as (st & ps & Hrun & _ & Hinv);
    [lia | done | congruence |].
  destruct Hinv as (HREF & HlREF & Hls3 & _).
  set (REF := st_A st). set (signs3 := st_signs st).
  destruct (xs_binary N REF) as [Hxs Hxb]; [done | unfold REF; congruence |].
  set (xs1 := map (take N) REF) in *.
  set (r := gf2_rank (rows xs1)).
  assert (Hr : (r ≤ N)%nat).
  { assert (Hxl : length xs1 = N).
    { unfold xs1. rewrite length_map. unfold REF. congruence. }
    pose proof (gf2_rank_le_rows N xs1) as Hle.
    rewrite Hxl in Hle. by apply Hle. }
  assert (Hsmall : small_zs REF (Z.of_nat N - Z.of_nat r) (Z.of_nat N)
                   = Ok (map (drop N) (drop (N - (N - r)) REF))).
  { replace (Z.of_nat N - Z.of_nat r) with (Z.of_nat (N - r)) by lia.
    apply small_zs_square; [unfold REF; congruence | | lia].
    eapply Forall_impl; [exact HREF |]. by intros row [Hrow _]. }
  set (signs4 := drop r signs3).
  assert (Hlen : length signs4 = (N - r)%nat).
  { unfold signs4. rewrite length_drop. unfold signs3. lia. }
  set (hit := existsb (fun k => signs4 !!! k =? 1) (seq 0 (length signs4))).
  assert (Hscan : otoc_scan signs4 (seq 0 (N - r)) 0 =
                  Ok (if hit then 1 else 0)).
  { rewrite otoc_scan_spec by (apply Forall_seq; intros; lia).
    unfold hit. by rewrite Hlen. }
  assert (Hc : OTOC_contribution REF signs3 N =
               Ok (if hit then 0%R else otoc_weight r)).
  { unfold OTOC_contribution. rewrite Hxs. cbn [mbind result_bind].
    fold r. rewrite Hsmall. cbn [mbind result_bind]. fold signs4.
    replace (Z.to_nat (Z.of_nat N - Z.of_nat r)) with (N - r)%nat by lia.
    rewrite Hscan. simpl. by destruct hit. }
  exists REF, signs3, xs1, (map (drop N) (drop (N - (N - r)) REF)),
    (if hit then 0%R else otoc_weight r).
  assert (Href : REF_binary bMat signs N = Ok (REF, signs3)).
  { unfold REF_binary. by rewrite Hrun. }
  assert (Hsample : OTOC_sample bMat signs N =
            Ok (if hit then 0%R else otoc_weight r)).
  { unfold OTOC_sample. rewrite Href. simpl. exact Hc. }
  split; [done |]. split; [done |]. split; [done |].
  split; [unfold OTOC_increment; by rewrite Hsample |].
  simpl. fold r signs4. split; [done |]. split; [done |]. split; [done |].
  pose proof (otoc_scan_hit signs4) as Hhit. fold hit in Hhit.
  destruct hit.
  - split_and!; [done | | by left].
    intros Hall. apply proj1 in Hhit. specialize (Hhit eq_refl).
    apply Exists_exists in Hhit as (x & Hin & ->).
    rewrite Forall_forall in Hall. by destruct (Hall 1 Hin).
  - split_and!; [| done | right; apply otoc_weight_range].
    intros Hsome. apply Hhit in Hsome. discriminate.
Qed.

Lemma OTOC_sample_value_witness :
  ∃ REF signs3 xs1 small c,
    REF_binary [[0; 1]] [0] 1 = Ok (REF, signs3) ∧
    xs REF = Ok xs1 ∧
    OTOC_sample [[0; 1]] [0] 1 = Ok c ∧
    OTOC_increment [[0; 1]] [0] 1 1 = Ok (c / IZR 1)%R ∧
    let r := gf2_rank (rows xs1) in
    let size2 := (1 - r)%nat in
    small_zs REF (Z.of_nat 1 - Z.of_nat r) (Z.of_nat 1) = Ok small ∧
    (r ≤ 1)%nat ∧ length (drop r signs3) = size2 ∧
    (Exists (fun s => s = 1) (drop r signs3) → c = 0%R) ∧
    (Forall (fun s => s ≠ 1) (drop r signs3) → c = Rpower 2 (- INR r / 2)) ∧
    (c = 0 ∨ 0 < c <= 1)%R.
Proof.
  apply (OTOC_sample_value 1 [[0; 1]] [0] 1); [| reflexivity | reflexivity].
  repeat constructor; (by left) || (by right).
Defined.

(** ** The sampling loops of circuits.py *)

Lemma getCutStabilizers_out_of_range (mat : matrix) (cut : Z) :
  cut < 0 ∨ Z.of_nat (length mat) < cut →
  getCutStabilizers mat cut = Raise InvalidCut.
Proof.
  intros Hcut. unfold getCutStabilizers.
  destruct (Z.ltb_spec cut 0); [done |].
  destruct (Z.ltb_spec (Z.of_nat (length mat)) cut); [done | lia].
Qed.

Lemma int_div_pos (T res : Z) :
  1 ≤ T → 1 ≤ res → ∃ T2, int_div T res = Ok T2 ∧ 0 ≤ T2.
Proof.
  intros HT Hres. unfold int_div.
  destruct (Z.eqb_spec res 0); [lia |].
  eexists. split; [done |]. apply Z.quot_pos; lia.
Qed.

Lemma np_zeros_Ok (n : Z) : 0 ≤ n → ∃ v, np_zeros n = Ok v.
Proof.
  intros Hn. unfold np_zeros. destruct (Z.ltb_spec n 0); [lia | eauto].
Qed.

Section CircuitsFacts.
Context {sim world stabilisers : Type}.
Variable TableauSimulator : sim.
Variables FS1Step FS2StepE FS2StepO : Z → sim → world → result (sim * world).
Variable sample_stabilisers : sim → result stabilisers.
Variable binary_matrix : stabilisers → result matrix.


Lemma runFS2_first_step (N rep res cut : Z) (ts : list Z) (s : sim)
    (wd : world) (v : list Q) (s1 : sim) (wd1 : world) (zs2 : stabilisers)
    (mat : matrix) (e : exn) :
  FS2StepE N s wd = Ok (s1, wd1) →
  sample_stabilisers s1 = Ok zs2 →
  binary_matrix zs2 = Ok mat →
  entropy_of mat cut = Raise e →
  runFS2_steps FS2StepE FS2StepO sample_stabilisers binary_matrix
    N rep res cut (0 :: ts) s wd v = Raise e.
Proof.
  intros Hstep Hzs Hmat HSA. simpl.
  rewrite Hstep. simpl. rewrite Hzs. simpl. rewrite Hmat. simpl.
  by rewrite HSA.
Qed.
End CircuitsFacts.

(** C8.  A [cut] outside [0, N] makes the entropy computation raise
    [InvalidCut]: no value is returned for it, and [runFS2] stops with that
    error at its first sample (the one of timestep 0). *)
Theorem entropy_rejects_cut_out_of_range
    {sim world stabilisers : Type} (TableauSimulator : sim)
    (FS2StepE FS2StepO : Z → sim → world → result (sim * world))
    (sample_stabilisers : sim → result stabilisers)
    (binary_matrix : stabilisers → result matrix)
    (mat : matrix) (cut : Z) :
  cut < 0 ∨ Z.of_nat (length mat) < cut →
  getCutStabilizers mat cut = Raise InvalidCut ∧
  entropy_of mat cut = Raise InvalidCut ∧
  ∀ (N T rep res : Z) (wd wd1 : world) (s1 : sim) (zs2 : stabilisers),
    1 ≤ T → 1 ≤ rep → 1 ≤ res →
    FS2StepE N TableauSimulator wd = Ok (s1, wd1) →
    sample_stabilisers s1 = Ok zs2 →
    binary_matrix zs2 = Ok mat →
    runFS2 TableauSimulator FS2StepE FS2StepO sample_stabilisers
      binary_matrix N T rep res cut wd = Raise InvalidCut.
Proof.
  intros Hcut.
  pose proof (getCutStabilizers_out_of_range mat cut Hcut) as Hget.
  assert (HSA : entropy_of mat cut = Raise InvalidCut).
  { unfold entropy_of. by rewrite Hget. }
  split; [done |]. split; [done |].
  intros N T rep res wd wd1 s1 zs2 HT Hrep Hres Hstep Hzs Hmat.
  unfold runFS2.
  destruct (int_div_pos T res HT Hres) as (T2 & -> & HT2). simpl.
  destruct (np_zeros_Ok T2 HT2) as (v & ->). simpl.
  rewrite (seqZ_cons 0 rep) by lia. simpl.
  rewrite (seqZ_cons 0 T) by lia.
  cbn [runFS2_reps].
  by erewrite runFS2_first_step.
Qed.

Lemma entropy_rejects_cut_out_of_range_witness :
  entropy_of [[1; 0; 0; 0]; [0; 1; 0; 0]] 3 = Raise InvalidCut ∧
  runFS2 (sim := unit) (world := unit) tt
    (fun _ s wd => Ok (s, wd)) (fun _ s wd => Ok (s, wd))
    (fun _ => Ok [[1; 0; 0; 0]; [0; 1; 0; 0]]) (fun zs => Ok zs)
    2 4 1 2 3 tt = Raise InvalidCut.
Proof.
  pose proof (entropy_rejects_cut_out_of_range (sim := unit) (world := unit)
                tt (fun _ s wd => Ok (s, wd)) (fun _ s wd => Ok (s, wd))
                (fun _ => Ok [[1; 0; 0; 0]; [0; 1; 0; 0]]) (fun zs => Ok zs)
                [[1; 0; 0; 0]; [0; 1; 0; 0]] 3) as H.
  destruct H as (_ & HSA & Hrun); [right; simpl; lia |].
  split; [exact HSA |].
  apply (Hrun 2 4 1 2 tt tt tt [[1; 0; 0; 0]; [0; 1; 0; 0]]);
    (lia || reflexivity).
Defined.



(** * Further properties of the code *)

(** ** [g]: when it is defined, and its sign under an update *)

(** X1.  [g] returns exactly when its first two arguments are bits; on any
    other first pair no branch assigns the local and [return g] raises
    [UnboundLocalError].  The last two arguments are never tested. *)
Theorem g_defined_iff_bits (x1 z1 x2 z2 : Z) :
  (is_bit x1 ∧ is_bit z1 → g x1 z1 x2 z2 = Ok (g_table x1 z1 x2 z2)) ∧
  (¬ (is_bit x1 ∧ is_bit z1) →
   g x1 z1 x2 z2 = Raise (UnboundLocalError "g")).
Proof.
  split.
  - intros [H1 H2]. by apply g_bits.
  - intros Hn. unfold g, is_bit in *.
    destruct (Z.eqb_spec x1 0), (Z.eqb_spec x1 1),
             (Z.eqb_spec z1 0), (Z.eqb_spec z1 1);
      simpl; try done; exfalso; apply Hn; lia.
Qed.

Lemma g_table_negated (x1 z1 x2 z2 : Z) :
  is_bit x1 → is_bit z1 → is_bit x2 → is_bit z2 →
  g_table x1 z1 ((x2 + x1) mod 2) ((z2 + z1) mod 2)
  = - g_table x1 z1 x2 z2.
Proof. by intros [-> | ->] [-> | ->] [-> | ->] [-> | ->]. Qed.

Lemma combine_sum_negated (h i : row) (N : nat) (js : list nat) :
  binary_row h → binary_row i → length h = length i →
  (N + N ≤ length h)%nat →
  Forall (fun j => (j < N)%nat) js →
  foldr Z.add 0
    (map (fun j : nat =>
            g_table (i !!! j) (i !!! (j + N)%nat)
              (row_add h i !!! j) (row_add h i !!! (j + N)%nat)) js)
  = - foldr Z.add 0
        (map (fun j : nat =>
                g_table (i !!! j) (i !!! (j + N)%nat)
                  (h !!! j) (h !!! (j + N)%nat)) js).
Proof.
  intros Hh Hi Hl HN Hjs.
  assert (Hadd : ∀ k, (k < length h)%nat →
            row_add h i !!! k = (h !!! k + i !!! k) mod 2).
  { intros k Hk.
    destruct (lookup_lt_is_Some_2 h k Hk) as [a Ha].
    destruct (lookup_lt_is_Some_2 i k) as [b Hb]; [lia |].
    rewrite (list_lookup_total_correct _ _ _ Ha).
    rewrite (list_lookup_total_correct _ _ _ Hb).
    apply list_lookup_total_correct. by apply row_add_lookup. }
  induction Hjs as [| j js Hj _ IH]; simpl; [done |].
  rewrite IH, !Hadd by lia.
  rewrite g_table_negated by (apply binary_row_lookup; (done || lia)).
  lia.
Qed.

(** X2.  The sign does not depend on whether [row_sum] is given the row
    before or after the pivot row was added to it: on rows of bits,
    [row_sum] of the updated row [(h + i) % 2] with [i] is [row_sum] of [h]
    with [i]. *)
Theorem row_sum_updated_row (h i : row) (rh ri : Z) (N : nat) :
  binary_row h → binary_row i → length h = length i →
  (N + N ≤ length h)%nat →
  row_sum (row_add h i) i rh ri N = row_sum h i rh ri N.
Proof.
  intros Hh Hi Hl HN. unfold row_sum.
  assert (Hseq : Forall (fun j => (j < N)%nat) (seq 0 N)).
  { apply Forall_seq. intros; lia. }
  rewrite !row_sum_loop_table; try done; try lia.
  2: { rewrite (row_add_length (length h)); (done || lia). }
  simpl. rewrite combine_sum_negated by done.
  set (k := foldr Z.add 0 _).
  destruct (Z.eqb_spec ((2 * rh + 2 * ri + (0 + - k)) mod 4) 0) as [H1 | H1],
           (Z.eqb_spec ((2 * rh + 2 * ri + (0 + k)) mod 4) 0) as [H2 | H2];
    try done; exfalso.
  - apply H2. apply Z.mod_divide in H1 as [c Hc]; [| lia].
    apply Z.mod_divide; [lia |]. exists (rh + ri - c). lia.
  - apply H1. apply Z.mod_divide in H2 as [c Hc]; [| lia].
    apply Z.mod_divide; [lia |]. exists (rh + ri - c). lia.
Qed.

Lemma row_sum_updated_row_witness :
  row_sum (row_add [1; 0; 0; 1] [1; 1; 0; 1]) [1; 1; 0; 1] 0 1 2
  = row_sum [1; 0; 0; 1] [1; 1; 0; 1] 0 1 2.
Proof.
  apply (row_sum_updated_row [1; 0; 0; 1] [1; 1; 0; 1] 0 1 2);
    try reflexivity; try (simpl; lia);
    repeat constructor; (by left) || (by right).
Defined.

(** ** [row_sum] on rows that are too short *)

Lemma getitem_short (r : list Z) (j : nat) :
  (length r ≤ j)%nat → getitem r j = Raise IndexError.
Proof. intros Hj. unfold getitem. by rewrite lookup_ge_None_2. Qed.

Lemma row_sum_loop_reads (h i : row) (N : nat) (js : list nat) (k : Z) :
  binary_row i →
  row_sum_loop h i N js k = Raise IndexError ∨
  ((∃ k', row_sum_loop h i N js k = Ok k') ∧
   Forall (fun j => (j + N < length h)%nat ∧ (j + N < length i)%nat) js).
Proof.
  intros Hi. revert k. induction js as [| j js IH]; intros k; simpl.
  { right. split; [eauto | constructor]. }
  destruct (decide (j < length i)%nat) as [Hj | Hj].
  2: { left. by rewrite (getitem_short i j) by lia. }
  rewrite (getitem_lookup i j) by done. simpl.
  destruct (decide (j + N < length i)%nat) as [HjN | HjN].
  2: { left. by rewrite (getitem_short i (j + N)) by lia. }
  rewrite (getitem_lookup i (j + N)) by done. simpl.
  destruct (decide (j < length h)%nat) as [Hh | Hh].
  2: { left. by rewrite (getitem_short h j) by lia. }
  rewrite (getitem_lookup h j) by done. simpl.
  destruct (decide (j + N < length h)%nat) as [HhN | HhN].
  2: { left. by rewrite (getitem_short h (j + N)) by lia. }
  rewrite (getitem_lookup h (j + N)) by done. simpl.
  rewrite g_bits by (by apply binary_row_lookup). simpl.
  destruct (IH (k + g_table (i !!! j) (i !!! (j + N)%nat)
                     (h !!! j) (h !!! (j + N)%nat)))
    as [-> | [Hok Hall]]; [by left |].
  right. split; [done |]. by constructor.
Qed.

(** X3.  With N at least 1, [row_sum] raises [IndexError] as soon as one of
    the two rows has fewer than 2N entries (the row [i] holding bits):
    nothing checks the width against N beforehand. *)
Theorem row_sum_short_row (h i : row) (rh ri : Z) (N : nat) :
  binary_row i → (1 ≤ N)%nat →
  (length h < 2 * N)%nat ∨ (length i < 2 * N)%nat →
  row_sum h i rh ri N = Raise IndexError.
Proof.
  intros Hi HN Hshort. unfold row_sum.
  destruct (row_sum_loop_reads h i N (seq 0 N) 0 Hi) as [-> | [_ Hall]];
    [done |].
  rewrite Forall_forall in Hall.
  destruct (Hall (N - 1)%nat); [apply elem_of_seq; lia | lia].
Qed.

Lemma row_sum_short_row_witness :
  row_sum [1; 0; 1] [0; 1; 1; 0] 0 0 2 = Raise IndexError.
Proof.
  apply (row_sum_short_row [1; 0; 1] [0; 1; 1; 0] 0 0 2);
    [repeat constructor; (by left) || (by right) | lia | left; simpl; lia].
Defined.

(** ** The reduction and its signs *)

(** X4.  The signs never steer the reduction: on an array of bits, two
    sign vectors give the same reduced array and the same number of pivots. *)
Theorem REF_binary_array_ignores_signs (N n_cols : nat) (A : matrix)
    (s1 s2 : list Z) :
  (N + N ≤ n_cols)%nat → is_binary n_cols A →
  length s1 = length A → length s2 = length A →
  ∃ st1 st2,
    REF_run A s1 N = Ok st1 ∧ REF_run A s2 N = Ok st2 ∧
    st_A st1 = st_A st2 ∧ current_row st1 = current_row st2 ∧
    REF_binary A s1 N = Ok (st_A st1, st_signs st1) ∧
    REF_binary A s2 N = Ok (st_A st1, st_signs st2).
Proof.
  intros HN HA H1 H2.
  destruct (REF_run_inv N n_cols A s1) as (st1 & ps1 & Hrun1 & Hg1 & _);
    try done.
  destruct (REF_run_inv N n_cols A s2) as (st2 & ps2 & Hrun2 & Hg2 & _);
    try done.
  exists st1, st2. rewrite Hg1 in Hg2. injection Hg2 as HA12 Hcr12.
  unfold REF_binary. rewrite Hrun1, Hrun2. simpl.
  split_and!; (done || congruence).
Qed.

Lemma REF_binary_array_ignores_signs_witness :
  ∃ st1 st2,
    REF_run [[1; 1; 0; 0]; [1; 0; 0; 1]] [0; 0] 2 = Ok st1 ∧
    REF_run [[1; 1; 0; 0]; [1; 0; 0; 1]] [1; 0] 2 = Ok st2 ∧
    st_A st1 = st_A st2 ∧ current_row st1 = current_row st2 ∧
    REF_binary [[1; 1; 0; 0]; [1; 0; 0; 1]] [0; 0] 2
      = Ok (st_A st1, st_signs st1) ∧
    REF_binary [[1; 1; 0; 0]; [1; 0; 0; 1]] [1; 0] 2
      = Ok (st_A st1, st_signs st2).
Proof.
  apply (REF_binary_array_ignores_signs 2 4 [[1; 1; 0; 0]; [1; 0; 0; 1]]
           [0; 0] [1; 0]); [simpl; lia | | reflexivity | reflexivity].
  repeat constructor; (by left) || (by right).
Defined.

(** ** What the reduction keeps, whatever the entries *)

Lemma row_sum_Ok_bit (h i : row) (rh ri : Z) (N : nat) (s : Z) :
  row_sum h i rh ri N = Ok s → is_bit s.
Proof.
  unfold row_sum. intros H. apply bind_Ok_inv in H as (k & _ & H).
  destruct (_ =? 0); injection H as <-; [by left | by right].
Qed.

Lemma swap_keeps {X} (P : X → Prop) (l l' : list X) (a b : nat) :
  swap l a b = Ok l' →
  length l' = length l ∧ (Forall P l → Forall P l').
Proof.
  unfold swap. intros H. inv_bind H. inv_bind H. injection H as <-.
  split; [by rewrite !length_insert |].
  intros Hl. rewrite Forall_lookup in Hl.
  repeat apply Forall_insert; eauto. by apply Forall_lookup.
Qed.

Lemma eliminate_keeps (n N j pivot_row : nat) (ks : list nat)
    (A : matrix) (signs : list Z) (A' : matrix) (signs' : list Z) :
  eliminate N j pivot_row ks A signs = Ok (A', signs') →
  kept n A signs A' signs'.
Proof.
  revert A signs. induction ks as [| i ks IH]; intros A signs Hrun;
    simpl in Hrun.
  { injection Hrun as <- <-. by unfold kept. }
  apply bind_Ok_inv in Hrun as (a & Hget & Hrun).
  destruct (a =? 1); [| by apply IH].
  apply bind_Ok_inv in Hrun as (r & Hr & Hrun).
  apply of_option_Ok_inv in Hr.
  apply bind_Ok_inv in Hrun as (p & Hp & Hrun).
  apply of_option_Ok_inv in Hp. simpl in Hrun.
  apply bind_Ok_inv in Hrun as (h' & _ & Hrun).
  apply bind_Ok_inv in Hrun as (p' & _ & Hrun).
  apply bind_Ok_inv in Hrun as (rh & _ & Hrun).
  apply bind_Ok_inv in Hrun as (ri & _ & Hrun).
  apply bind_Ok_inv in Hrun as (s & Hs & Hrun).
  apply row_sum_Ok_bit in Hs.
  destruct (IH _ _ Hrun) as (H1 & H2 & H3 & H4).
  rewrite length_insert in H1. rewrite length_insert in H2.
  unfold kept. split_and!; try done.
  - intros Hrect. apply H3. apply Forall_insert; [done |].
    rewrite Forall_lookup in Hrect. unfold row_add.
    rewrite length_zip_with, (Hrect _ _ Hr), (Hrect _ _ Hp). lia.
  - intros Hbits. apply H4. by apply Forall_insert.
Qed.

Lemma REF_column_keeps (n N n_rows j : nat) (st st' : ref_state) :
  REF_column N n_rows j st = Ok st' →
  kept n (st_A st) (st_signs st) (st_A st') (st_signs st').
Proof.
  unfold REF_column. intros Hrun.
  apply bind_Ok_inv in Hrun as (p & _ & Hrun).
  destruct (p =? n_rows)%nat.
  { injection Hrun as <-. by unfold kept. }
  apply bind_Ok_inv in Hrun as (A1 & HA1 & Hrun).
  apply bind_Ok_inv in Hrun as (s1 & Hs1 & Hrun).
  apply bind_Ok_inv in Hrun as ([A2 s2] & Helim & Hrun).
  injection Hrun as <-. simpl.
  destruct (swap_keeps (fun r => length r = n) _ _ _ _ HA1) as [Hl1 Hr1].
  destruct (swap_keeps is_bit _ _ _ _ Hs1) as [Hl2 Hr2].
  destruct (eliminate_keeps n _ _ _ _ _ _ _ _ Helim) as (H1 & H2 & H3 & H4).
  unfold kept. split_and!; (congruence || auto).
Qed.

Lemma REF_columns_keeps (n N n_rows : nat) (js : list nat)
    (st st' : ref_state) :
  REF_columns N n_rows js st = Ok st' →
  kept n (st_A st) (st_signs st) (st_A st') (st_signs st').
Proof.
  revert st. induction js as [| j js IH]; intros st Hrun; simpl in Hrun.
  { injection Hrun as <-. by unfold kept. }
  destruct (n_rows <=? current_row st)%nat.
  { injection Hrun as <-. by unfold kept. }
  apply bind_Ok_inv in Hrun as (st1 & Hcol & Hrun).
  destruct (REF_column_keeps n _ _ _ _ _ Hcol) as (H1 & H2 & H3 & H4).
  destruct (IH _ Hrun) as (H1' & H2' & H3' & H4').
  unfold kept. split_and!; (congruence || auto).
Qed.

(** X5.  Whenever [REF_binary] returns, whatever the entries of its
    arguments, the array has as many rows as before and the sign vector as
    many signs; an array whose rows all have n entries keeps that; and signs
    that were all bits are all bits. *)
Theorem REF_binary_keeps_shape (n N : nat) (A : matrix) (signs : list Z)
    (A' : matrix) (signs' : list Z) :
  REF_binary A signs N = Ok (A', signs') →
  length A' = length A ∧ length signs' = length signs ∧
  (Forall (fun r => length r = n) A → Forall (fun r => length r = n) A') ∧
  (Forall is_bit signs → Forall is_bit signs').
Proof.
  unfold REF_binary, REF_run. intros Hrun.
  apply bind_Ok_inv in Hrun as (st & Hrun & Hret).
  injection Hret as <- <-.
  destruct (shape A) as [n_rows n_cols].
  apply (REF_columns_keeps n) in Hrun. exact Hrun.
Qed.

Lemma REF_binary_keeps_shape_witness :
  length [[1; 0; 1; 5]; [0; 1; 0; 1]] = length [[0; 1; 0; 1]; [1; 0; 1; 5]] ∧
  length [1; 0] = length [0; 1] ∧
  (Forall (fun r => length r = 4%nat) [[0; 1; 0; 1]; [1; 0; 1; 5]] →
   Forall (fun r => length r = 4%nat) [[1; 0; 1; 5]; [0; 1; 0; 1]]) ∧
  (Forall is_bit [0; 1] → Forall is_bit [1; 0]).
Proof.
  apply (REF_binary_keeps_shape 4 2 [[0; 1; 0; 1]; [1; 0; 1; 5]] [0; 1]).
  reflexivity.
Defined.

(** ** The rank and the zero rows *)

Lemma sorted_within (ps : list nat) (lo hi : nat) :
  StronglySorted lt ps →
  Forall (fun p => (lo ≤ p < hi)%nat) ps →
  (length ps ≤ hi - lo)%nat.
Proof.
  intros Hs. revert lo. induction Hs as [| p ps Hs IH Hp]; intros lo Hin;
    simpl; [lia |].
  apply Forall_cons in Hin as [Hp' Hin].
  assert (length ps ≤ hi - S p)%nat; [| lia].
  apply IH. rewrite Forall_forall in Hp, Hin. apply Forall_forall.
  intros q Hq. specialize (Hp q Hq). specialize (Hin q Hq). simpl in *. lia.
Qed.

(** X6.  On an array of bits the final [current_row] is at most the number
    of rows and at most the number of columns, and it separates the rows of
    the result: every row above it holds a 1, every row from it downwards is
    a zero row. *)
Theorem REF_run_rank_bound (N n_cols : nat) (A : matrix) (signs : list Z) :
  (N + N ≤ n_cols)%nat → is_binary n_cols A → length signs = length A →
  ∃ st,
    REF_run A signs N = Ok st ∧
    (current_row st ≤ length A)%nat ∧ (current_row st ≤ n_cols)%nat ∧
    ∀ i r, st_A st !! i = Some r →
      ((i < current_row st)%nat → 1 ∈ r) ∧
      ((current_row st ≤ i)%nat → Forall (fun x => x = 0) r).
Proof.
  intros HN HA Hls.
  destruct (REF_run_inv N n_cols A signs) as (st & ps & Hrun & _ & Hinv);
    try done.
  destruct Hinv as (HA' & HlA' & _ & Hps & Hle & Hsort & Hlt & Hpiv & Hzero).
  exists st. split_and!; [done | done | |].
  - rewrite <- Hps.
    replace n_cols with (n_cols - 0)%nat by lia.
    apply sorted_within; [done |].
    eapply Forall_impl; [exact Hlt |]. simpl. intros; lia.
  - intros i r Hr. split.
    + intros Hi. rewrite <- Hps in Hi.
      destruct (lookup_lt_is_Some_2 ps i Hi) as [p Hp].
      destruct (Hpiv i p Hp) as (r' & Hr' & Hone & _).
      assert (r' = r) as -> by congruence.
      by eapply list_elem_of_lookup_2.
    + intros Hi. apply Forall_lookup. intros j x Hx.
      apply (Hzero i r j x); try done; [lia |].
      destruct (is_binary_lookup _ _ _ _ HA' Hr) as [<- _].
      by eapply lookup_lt_Some.
Qed.

Lemma REF_run_rank_bound_witness :
  ∃ st,
    REF_run [[1; 1; 0; 0]; [1; 1; 0; 0]] [0; 1] 2 = Ok st ∧
    (current_row st ≤ length [[1; 1; 0; 0]; [1; 1; 0; 0]])%nat ∧
    (current_row st ≤ 4)%nat ∧
    ∀ i r, st_A st !! i = Some r →
      ((i < current_row st)%nat → 1 ∈ r) ∧
      ((current_row st ≤ i)%nat → Forall (fun x => x = 0) r).
Proof.
  apply (REF_run_rank_bound 2 4 [[1; 1; 0; 0]; [1; 1; 0; 0]] [0; 1]);
    [simpl; lia | | reflexivity].
  repeat constructor; (by left) || (by right).
Defined.

(** X7.  The arrays of bits that the reduction returns unchanged are
    exactly those in echelon form, and on them the signs come back unchanged
    too. *)
Theorem REF_binary_fixed_points (N n_cols : nat) (A : matrix)
    (signs : list Z) :
  (N + N ≤ n_cols)%nat → is_binary n_cols A → length signs = length A →
  ((∃ ps, echelon n_cols A ps) ↔
   (∃ signs', REF_binary A signs N = Ok (A, signs'))) ∧
  (∀ signs', REF_binary A signs N = Ok (A, signs') → signs' = signs).
Proof.
  intros HN HA Hls.
  assert (Hback : ∀ signs', REF_binary A signs N = Ok (A, signs') →
            ∃ ps, echelon n_cols A ps).
  { intros signs' Hret.
    destruct (REF_run_inv N n_cols A signs) as (st & ps & Hrun & _ & Hinv);
      try done.
    unfold REF_binary in Hret. rewrite Hrun in Hret. simpl in Hret.
    injection Hret as HA' _.
    destruct Hinv as (_ & _ & _ & _ & _ & Hech).
    exists ps. by rewrite <- HA'. }
  assert (Hforth : ∀ ps, echelon n_cols A ps →
            REF_binary A signs N = Ok (A, signs)).
  { intros ps Hech. unfold REF_binary.
    by rewrite (REF_run_echelon_noop N n_cols A signs ps). }
  split.
  - split.
    + intros [ps Hech]. exists signs. by eapply Hforth.
    + intros [signs' Hret]. by eapply Hback.
  - intros signs' Hret. destruct (Hback _ Hret) as [ps Hech].
    rewrite (Hforth ps Hech) in Hret. by injection Hret.
Qed.

Lemma REF_binary_fixed_points_witness :
  ((∃ ps, echelon 4 [[1; 0; 1; 0]; [0; 0; 1; 1]] ps) ↔
   (∃ signs', REF_binary [[1; 0; 1; 0]; [0; 0; 1; 1]] [1; 1] 2
                = Ok ([[1; 0; 1; 0]; [0; 0; 1; 1]], signs'))) ∧
  (∀ signs', REF_binary [[1; 0; 1; 0]; [0; 0; 1; 1]] [1; 1] 2
               = Ok ([[1; 0; 1; 0]; [0; 0; 1; 1]], signs') →
             signs' = [1; 1]).
Proof.
  apply (REF_binary_fixed_points 2 4 [[1; 0; 1; 0]; [0; 0; 1; 1]] [1; 1]);
    [simpl; lia | | reflexivity].
  repeat constructor; (by left) || (by right).
Defined.

(** ** The reduction stays in the row space *)

Lemma span_mono (A B : matrix) :
  (∀ r, r ∈ B → span A r) → ∀ r, span B r → span A r.
Proof.
  intros HB r Hr. induction Hr as [r Hr | r p _ IHr _ IHp]; [by apply HB |].
  by apply span_add.
Qed.

Lemma row_add_cancel (r p : row) :
  binary_row r → binary_row p → length r = length p →
  row_add (row_add r p) p = r.
Proof.
  unfold row_add. intros Hr. revert p.
  induction Hr as [| a r Ha _ IH]; intros p Hp Hl; [done |].
  destruct Hp as [| b p Hb Hp]; [done |]. simpl in *.
  f_equal; [| apply IH; (done || lia)].
  by destruct Ha as [-> | ->], Hb as [-> | ->].
Qed.

Lemma exchange_rows (A : matrix) (a b : nat) (x y : row) :
  A !! a = Some x → A !! b = Some y →
  (∀ r, r ∈ <[b := x]> (<[a := y]> A) → r ∈ A) ∧
  (∀ r, r ∈ A → r ∈ <[b := x]> (<[a := y]> A)).
Proof.
  intros Ha Hb. split; intros r Hr.
  - apply list_elem_of_lookup in Hr as [k Hk].
    rewrite (swap_lookup A a b x y k Ha Hb) in Hk.
    repeat case_decide; simplify_eq; by eapply list_elem_of_lookup_2.
  - apply list_elem_of_lookup in Hr as [k Hk].
    destruct (decide (k = a)) as [-> | Hka].
    + apply list_elem_of_lookup. exists b.
      rewrite (swap_lookup A a b x y b Ha Hb).
      rewrite decide_True by done. congruence.
    + destruct (decide (k = b)) as [-> | Hkb].
      * apply list_elem_of_lookup. exists a.
        rewrite (swap_lookup A a b x y a Ha Hb).
        rewrite decide_False by done. rewrite decide_True by done.
        congruence.
      * apply list_elem_of_lookup. exists k.
        rewrite (swap_lookup A a b x y k Ha Hb).
        by rewrite !decide_False by done.
Qed.

Lemma combine_rows (n : nat) (A : matrix) (i p : nat) (r rp : row) :
  is_binary n A → i ≠ p → A !! i = Some r → A !! p = Some rp →
  is_binary n (<[i := row_add r rp]> A) ∧
  (∀ x, x ∈ <[i := row_add r rp]> A → span A x) ∧
  (∀ x, x ∈ A → span (<[i := row_add r rp]> A) x).
Proof.
  intros HA Hip Hr Hrp.
  destruct (is_binary_lookup _ _ _ _ HA Hr) as [Hlr Hbr].
  destruct (is_binary_lookup _ _ _ _ HA Hrp) as [Hlp Hbp].
  assert (Hi : (i < length A)%nat) by (by eapply lookup_lt_Some).
  split_and!.
  - apply is_binary_insert; [done | by apply row_add_length |
      apply row_add_binary].
  - intros x Hx. apply list_elem_of_lookup in Hx as [k Hk].
    destruct (decide (k = i)) as [-> | Hki].
    + rewrite list_lookup_insert_eq in Hk by done. injection Hk as <-.
      apply span_add; apply span_row; by eapply list_elem_of_lookup_2.
    + rewrite list_lookup_insert_ne in Hk by done.
      apply span_row. by eapply list_elem_of_lookup_2.
  - intros x Hx. apply list_elem_of_lookup in Hx as [k Hk].
    destruct (decide (k = i)) as [-> | Hki].
    + assert (x = r) as -> by congruence.
      assert (Hsp : span (<[i := row_add r rp]> A)
                      (row_add (row_add r rp) rp)).
      { apply span_add; apply span_row.
        * apply list_elem_of_lookup. exists i.
          by rewrite list_lookup_insert_eq.
        * apply list_elem_of_lookup. exists p.
          by rewrite list_lookup_insert_ne. }
      by rewrite row_add_cancel in Hsp by (done || congruence).
    + apply span_row, list_elem_of_lookup. exists k.
      by rewrite list_lookup_insert_ne.
Qed.

Lemma gen_steps_span (n N : nat) (G G' : list (list Z * Z)) :
  rtc (gen_step N) G G' → is_binary n (G.*1) →
  is_binary n (G'.*1) ∧
  (∀ r, r ∈ G'.*1 → span (G.*1) r) ∧
  (∀ r, r ∈ G.*1 → span (G'.*1) r).
Proof.
  induction 1 as [G | G G1 G' Hstep _ IH]; intros HG.
  { split_and!; [done | |]; intros r Hr; by apply span_row. }
  assert (H1 : is_binary n (G1.*1) ∧
               (∀ r, r ∈ G1.*1 → span (G.*1) r) ∧
               (∀ r, r ∈ G.*1 → span (G1.*1) r)).
  { destruct Hstep as [G a b [x sx] [y sy] Ha Hb
                      | G i p r s rp sp s' Hip Hi Hp Hs].
    - rewrite !list_fmap_insert. simpl.
      assert (Ha' : G.*1 !! a = Some x) by (by rewrite list_lookup_fmap, Ha).
      assert (Hb' : G.*1 !! b = Some y) by (by rewrite list_lookup_fmap, Hb).
      destruct (exchange_rows (G.*1) a b x y Ha' Hb') as [Hin Hout].
      split_and!.
      + destruct (is_binary_lookup _ _ _ _ HG Ha').
        destruct (is_binary_lookup _ _ _ _ HG Hb').
        by repeat apply is_binary_insert.
      + intros r Hr. by apply span_row, Hin.
      + intros r Hr. by apply span_row, Hout.
    - rewrite list_fmap_insert. simpl.
      apply combine_rows with (p := p); try done.
      + by rewrite list_lookup_fmap, Hi.
      + by rewrite list_lookup_fmap, Hp. }
  destruct H1 as (HG1 & Hin1 & Hout1).
  destruct (IH HG1) as (HG' & Hin & Hout).
  split_and!; [done | |].
  - intros r Hr. eapply span_mono; [exact Hin1 |]. by apply Hin.
  - intros r Hr. eapply span_mono; [exact Hout |]. by apply Hout1.
Qed.

(** X8.  The reduction never leaves the GF(2) row space of its input:
    whenever [REF_binary] returns on an array of bits, every row of the
    result is a sum (mod 2) of rows of the input, and every row of the input
    is a sum (mod 2) of rows of the result. *)
Theorem REF_binary_row_space (n_cols N : nat) (A : matrix) (signs : list Z)
    (A' : matrix) (signs' : list Z) :
  is_binary n_cols A → length signs = length A →
  REF_binary A signs N = Ok (A', signs') →
  is_binary n_cols A' ∧
  (∀ r, r ∈ A' → span A r) ∧ (∀ r, r ∈ A → span A' r).
Proof.
  intros HA Hls Hret. unfold REF_binary in Hret.
  apply bind_Ok_inv in Hret as (st & Hrun & Hret). injection Hret as <- <-.
  pose proof (REF_run_gens _ _ _ _ Hrun) as Hgens.
  assert (Hkept : kept n_cols A signs (st_A st) (st_signs st)).
  { unfold REF_run in Hrun. destruct (shape A) as [n_rows n_cols'].
    by apply (REF_columns_keeps n_cols) in Hrun. }
  destruct Hkept as (HlA' & Hls' & _).
  apply (gen_steps_span n_cols) in Hgens.
  - rewrite !fst_zip in Hgens by lia. exact Hgens.
  - by rewrite fst_zip by lia.
Qed.

Lemma REF_binary_row_space_witness :
  is_binary 4 [[1; 1; 0; 0]; [0; 1; 0; 1]] ∧
  (∀ r, r ∈ [[1; 1; 0; 0]; [0; 1; 0; 1]] →
        span [[1; 1; 0; 0]; [1; 0; 0; 1]] r) ∧
  (∀ r, r ∈ [[1; 1; 0; 0]; [1; 0; 0; 1]] →
        span [[1; 1; 0; 0]; [0; 1; 0; 1]] r).
Proof.
  apply (REF_binary_row_space 4 2 [[1; 1; 0; 0]; [1; 0; 0; 1]] [0; 0]
           [[1; 1; 0; 0]; [0; 1; 0; 1]] [0; 1]);
    [| reflexivity | reflexivity].
  repeat constructor; (by left) || (by right).
Defined.

(** ** The reduction without signs *)

Lemma REF_columns_no_signs (N n_cols : nat) (A : matrix) (m j : nat) :
  is_binary n_cols A → (j + m = n_cols)%nat →
  zero_below A 0 j →
  (zero_below A 0 n_cols →
   REF_columns N (length A) (seq j m) (RefState A [] 0)
     = Ok (RefState A [] 0)) ∧
  (¬ zero_below A 0 n_cols →
   REF_columns N (length A) (seq j m) (RefState A [] 0) = Raise IndexError).
Proof.
  intros HA. revert j. induction m as [| m IH]; intros j Hjm Hz.
  { assert (j = n_cols) as -> by lia. by split. }
  cbn [REF_columns seq current_row].
  destruct (Nat.leb_spec (length A) 0) as [Hnil | Hpos].
  { split; [done |]. intros Hnz. destruct Hnz.
    intros i r j' x Hr. apply lookup_lt_Some in Hr. lia. }
  unfold REF_column. cbn [st_A st_signs current_row].
  destruct (find_pivot_spec n_cols A j (length A - 0) 0)
    as (p & Hfind & Hrange & Hzeros & Hone); [done | lia | lia |].
  rewrite Hfind. simpl.
  destruct (Nat.eqb_spec p (length A)) as [-> | Hp].
  - apply IH; [lia |].
    intros i r j' x Hr Hi Hx Hj'.
    destruct (decide (j' = j)) as [-> | Hne].
    + assert (r !! j = Some 0); [| congruence].
      apply (Hzeros i); [| done]. apply lookup_lt_Some in Hr. lia.
    + apply (Hz i r j' x); (done || lia).
  - destruct Hone as (rp & Hrp & Hrp1); [lia |].
    destruct (lookup_lt_is_Some_2 A 0) as [rc Hrc]; [lia |].
    rewrite (swap_Ok A 0 p rc rp) by done. simpl.
    split; [| done].
    intros Hall. assert (1 = 0); [| lia].
    apply (Hall p rp j 1); (done || lia).
Qed.

(** X9.  With an empty sign vector the reduction returns only on an array
    without a 1, which it gives back as it is; as soon as the array of bits
    holds a 1 the first exchange of signs raises [IndexError]. *)
Theorem REF_binary_without_signs (N n_cols : nat) (A : matrix) :
  is_binary n_cols A →
  (Forall (Forall (fun x => x = 0)) A → REF_binary A [] N = Ok (A, [])) ∧
  (¬ Forall (Forall (fun x => x = 0)) A →
   REF_binary A [] N = Raise IndexError).
Proof.
  intros HA.
  assert (Hiff : zero_below A 0 n_cols ↔ Forall (Forall (fun x => x = 0)) A).
  { split.
    - intros Hz. apply Forall_lookup. intros i r Hr.
      apply Forall_lookup. intros j x Hx.
      apply (Hz i r j x); try done; [lia |].
      destruct (is_binary_lookup _ _ _ _ HA Hr) as [<- _].
      by eapply lookup_lt_Some.
    - intros Hall i r j x Hr _ Hx _.
      rewrite Forall_lookup in Hall. specialize (Hall i r Hr).
      rewrite Forall_lookup in Hall. by apply (Hall j x). }
  unfold REF_binary, REF_run.
  destruct (decide (A = [])) as [-> | Hne].
  { simpl. split; [done |]. intros Hn. destruct Hn. constructor. }
  rewrite (shape_binary n_cols) by done.
  destruct (REF_columns_no_signs N n_cols A n_cols 0 HA) as [Hok Herr];
    [lia | intros i r j x _ _ _ Hj; lia |].
  split.
  - intros Hall. by rewrite Hok by (by apply Hiff).
  - intros Hn. rewrite Herr; [done |]. by rewrite Hiff.
Qed.

Lemma REF_binary_without_signs_witness :
  (Forall (Forall (fun x => x = 0)) [[0; 1]] →
   REF_binary [[0; 1]] [] 1 = Ok ([[0; 1]], [])) ∧
  (¬ Forall (Forall (fun x => x = 0)) [[0; 1]] →
   REF_binary [[0; 1]] [] 1 = Raise IndexError).
Proof.
  apply (REF_binary_without_signs 1 2 [[0; 1]]).
  repeat constructor; (by left) || (by right).
Defined.

(** ** OTOC.py: the two blocks, the scan and the weight *)

Lemma take_drop_rows (N : nat) (A : matrix) :
  zip_with app (map (take N) A) (map (drop N) A) = A.
Proof.
  induction A as [| r A IH]; simpl; [done |]. by rewrite take_drop, IH.
Qed.

Lemma np_assign_Ok_iff (n m r c : nat) (src : matrix) :
  (∃ out, np_assign n m (r, c) src = Ok out) ↔
  (r = n ∨ r = 1%nat) ∧ (c = m ∨ c = 1%nat).
Proof.
  unfold np_assign.
  destruct (bool_decide_reflect (r = n)), (bool_decide_reflect (r = 1%nat)),
    (bool_decide_reflect (c = m)), (bool_decide_reflect (c = 1%nat));
    cbn [orb andb]; split;
    solve [ intros _; auto | intros _; eauto | intros [out H]; discriminate
          | intros [[|] [|]]; done ].
Qed.

(** X10.  [xs] and [small_zs] on an array of N rows (N at least 1) of c
    columns each, with size2 at most N.  numpy's shape check decides
    whether they return: [xs] returns exactly when c is at least N or c is
    1 (one column is repeated), [small_zs] exactly when c is 2N or N + 1;
    otherwise the assignment raises.  On the intended shape, c = 2N, they
    cut the array at column N: joined row by row, the X-block and the full
    Z-block give the array back, and [small_zs binMat size2 N] is the
    bottom [size2] rows of the Z-block (it has [size2] rows, not
    N - size2), with rows of N entries. *)
Theorem xs_small_zs_split (N c size2 : nat) (binMat : matrix) :
  (1 ≤ N)%nat → length binMat = N →
  Forall (fun r => length r = c) binMat → (size2 ≤ N)%nat →
  ((∃ X, xs binMat = Ok X) ↔ (N ≤ c)%nat ∨ c = 1%nat) ∧
  ((∃ S, small_zs binMat (Z.of_nat size2) (Z.of_nat N) = Ok S) ↔
   c = (2 * N)%nat ∨ c = (N + 1)%nat) ∧
  (c = (2 * N)%nat →
   ∃ X Zs S,
     xs binMat = Ok X ∧
     small_zs binMat (Z.of_nat N) (Z.of_nat N) = Ok Zs ∧
     small_zs binMat (Z.of_nat size2) (Z.of_nat N) = Ok S ∧
     zip_with app X Zs = binMat ∧
     S = drop (N - size2) Zs ∧ length S = size2 ∧
     Forall (fun r => length r = N) X ∧ Forall (fun r => length r = N) S).
Proof.
  intros HN Hl Hc Hs.
  assert (Hne : binMat ≠ []) by (intros ->; simpl in Hl; lia).
  split_and!.
  - unfold xs. rewrite Hl.
    rewrite (shape_width N (N `min` c) (map (take N) binMat)).
    + rewrite np_assign_Ok_iff. lia.
    + by rewrite length_map.
    + apply Forall_fmap. eapply Forall_impl; [exact Hc |].
      intros r Hr. simpl in *. by rewrite length_take, Hr.
    + by destruct binMat.
  - unfold small_zs.
    destruct (Z.ltb_spec (Z.of_nat size2) 0); [lia |].
    destruct (Z.ltb_spec (Z.of_nat N) 0); [lia |]. cbn [orb].
    rewrite (shape_width N c binMat) by done. rewrite !Nat2Z.id.
    assert (Hstart : slice_start N (Z.of_nat N - Z.of_nat size2)
                     = (N - size2)%nat).
    { unfold slice_start.
      destruct (Z.ltb_spec (Z.of_nat N - Z.of_nat size2) 0); lia. }
    rewrite Hstart, length_map, length_drop, Hl.
    rewrite np_assign_Ok_iff. lia.
  - intros ->.
    assert (Hw : Forall (fun r => (N ≤ length r)%nat) binMat).
    { eapply Forall_impl; [exact Hc |]. intros r Hr. simpl in *. lia. }
    exists (map (take N) binMat), (map (drop N) (drop (N - N) binMat)),
      (map (drop N) (drop (N - size2) binMat)).
    rewrite Nat.sub_diag, drop_0.
    split_and!.
    + by apply xs_wide.
    + rewrite <- (drop_0 binMat) at 2. rewrite <- (Nat.sub_diag N).
      by apply small_zs_square.
    + by apply small_zs_square.
    + apply take_drop_rows.
    + exact (fmap_drop (drop N) (N - size2) binMat).
    + rewrite length_map, length_drop. lia.
    + eapply Forall_fmap, Forall_impl; [exact Hc |]. simpl.
      intros r Hr. rewrite length_take. lia.
    + eapply Forall_fmap, Forall_drop, Forall_impl; [exact Hc |]. simpl.
      intros r Hr. rewrite length_drop. lia.
Qed.

Lemma xs_small_zs_split_witness :
  ((∃ X, xs [[1; 0; 0; 1]; [0; 1; 1; 1]] = Ok X) ↔
   (2 ≤ 4)%nat ∨ 4%nat = 1%nat) ∧
  ((∃ S, small_zs [[1; 0; 0; 1]; [0; 1; 1; 1]] (Z.of_nat 1) (Z.of_nat 2)
         = Ok S) ↔
   4%nat = (2 * 2)%nat ∨ 4%nat = (2 + 1)%nat) ∧
  (4%nat = (2 * 2)%nat →
   ∃ X Zs S,
     xs [[1; 0; 0; 1]; [0; 1; 1; 1]] = Ok X ∧
     small_zs [[1; 0; 0; 1]; [0; 1; 1; 1]] (Z.of_nat 2) (Z.of_nat 2)
       = Ok Zs ∧
     small_zs [[1; 0; 0; 1]; [0; 1; 1; 1]] (Z.of_nat 1) (Z.of_nat 2)
       = Ok S ∧
     zip_with app X Zs = [[1; 0; 0; 1]; [0; 1; 1; 1]] ∧
     S = drop (2 - 1) Zs ∧ length S = 1%nat ∧
     Forall (fun r => length r = 2%nat) X ∧
     Forall (fun r => length r = 2%nat) S).
Proof.
  apply (xs_small_zs_split 2 4 1 [[1; 0; 0; 1]; [0; 1; 1; 1]]);
    [lia | reflexivity | by repeat constructor | lia].
Defined.

Lemma otoc_scan_short (signs4 : list Z) (ks : list nat) (Ans : Z) :
  Exists (fun k => (length signs4 ≤ k)%nat) ks →
  otoc_scan signs4 ks Ans = Raise IndexError.
Proof.
  intros Hex. revert Ans.
  induction ks as [| k ks IH]; intros Ans; [by apply Exists_nil in Hex |].
  simpl. destruct (decide (k < length signs4)%nat) as [Hk | Hk].
  - rewrite getitem_lookup by done. simpl. apply IH.
    apply Exists_cons in Hex as [Hbad | Hex]; [lia | done].
  - by rewrite getitem_short by lia.
Qed.

(** X11.  On a reduced array of N rows of 2N columns, the scan of the
    bottom signs runs over N - rank positions whatever the length of the
    sign vector: with fewer than N signs and a rank below N it raises
    [IndexError], even when a sign 1 was met before (the loop has no early
    exit). *)
Theorem OTOC_contribution_short_signs (REF xs1 : matrix) (signs3 : list Z)
    (N : nat) :
  length REF = N → Forall (fun r => length r = (2 * N)%nat) REF →
  xs REF = Ok xs1 →
  (length signs3 < N)%nat → (gf2_rank (rows xs1) < N)%nat →
  OTOC_contribution REF signs3 N = Raise IndexError.
Proof.
  intros Hl Hw Hxs Hshort Hrank. unfold OTOC_contribution.
  rewrite Hxs. cbn [mbind result_bind].
  set (rank := gf2_rank (rows xs1)) in *.
  replace (Z.of_nat N - Z.of_nat rank) with (Z.of_nat (N - rank)) by lia.
  rewrite small_zs_square by (done || lia). cbn [mbind result_bind].
  rewrite Nat2Z.id.
  rewrite otoc_scan_short; [done |].
  apply Exists_exists. exists (length (drop rank signs3)).
  split; [| done]. apply elem_of_seq. rewrite length_drop. lia.
Qed.

Lemma OTOC_contribution_short_signs_witness :
  OTOC_contribution [[0; 0; 1; 0]; [0; 0; 0; 1]] [1] 2 = Raise IndexError.
Proof.
  apply (OTOC_contribution_short_signs [[0; 0; 1; 0]; [0; 0; 0; 1]]
           [[0; 0]; [0; 0]] [1] 2);
    [reflexivity | by repeat constructor | reflexivity | simpl; lia
    | vm_compute; lia].
Defined.


(** ** steps.py: the triggers *)

Lemma even_mod (i : Z) : (2 * i) mod 2 = 0.
Proof. rewrite Z.mul_comm. apply Z_mod_mult. Qed.

Lemma odd_mod (i : Z) : (2 * i + 1) mod 2 = 1.
Proof. rewrite Z.add_comm, Z.mul_comm, Z_mod_plus_full. done. Qed.

(** X13.  The assertions of [test_validate] hold for every i at least 1,
    not only for the one drawn at random: "always" validates at i, "first"
    at 0, "even" at 2i, "odd" at 2i + 1; "first" not at i, "even" not at
    2i + 1, "odd" not at 2i, and none of "always", "even", "odd" at 0. *)
Theorem test_validate_holds (N i : Z) :
  1 ≤ i →
  validate (MkStep N "always") i = true ∧
  validate (MkStep N "first") 0 = true ∧
  validate (MkStep N "even") (2 * i) = true ∧
  validate (MkStep N "odd") (2 * i + 1) = true ∧
  validate (MkStep N "first") i = false ∧
  validate (MkStep N "even") (2 * i + 1) = false ∧
  validate (MkStep N "odd") (2 * i) = false ∧
  validate (MkStep N "always") 0 = false ∧
  validate (MkStep N "even") 0 = false ∧
  validate (MkStep N "odd") 0 = false.
Proof.
  intros Hi. unfold validate. simpl.
  rewrite !even_mod, !odd_mod. simpl.
  destruct (Z.ltb_spec 0 i); [| lia].
  destruct (Z.ltb_spec 0 (2 * i)); [| lia].
  destruct (Z.ltb_spec 0 (2 * i + 1)); [| lia].
  destruct (Z.eqb_spec i 0); [lia |].
  by split_and!.
Qed.

Lemma test_validate_holds_witness :
  validate (MkStep 3 "always") 7 = true ∧
  validate (MkStep 3 "first") 0 = true ∧
  validate (MkStep 3 "even") (2 * 7) = true ∧
  validate (MkStep 3 "odd") (2 * 7 + 1) = true ∧
  validate (MkStep 3 "first") 7 = false ∧
  validate (MkStep 3 "even") (2 * 7 + 1) = false ∧
  validate (MkStep 3 "odd") (2 * 7) = false ∧
  validate (MkStep 3 "always") 0 = false ∧
  validate (MkStep 3 "even") 0 = false ∧
  validate (MkStep 3 "odd") 0 = false.
Proof. apply (test_validate_holds 3 7). lia. Defined.

Lemma validate_negative (self : Step) (step_count : Z) :
  step_count < 0 → validate self step_count = false.
Proof.
  intros Hneg. unfold validate.
  destruct (Z.ltb_spec 0 step_count); [lia |].
  destruct (Z.eqb_spec step_count 0); [lia |].
  by rewrite !andb_false_r.
Qed.

Lemma validate_other (N o step_count : Z) :
  validate (MkStep N (PyOther o)) step_count = false.
Proof. done. Qed.

(** X14.  [Step.__init__] refuses exactly the strings that are not one of
    the four triggers: [None] is taken as "always", and a value that is not
    a string is kept as it is.  The step it builds has one of the four
    triggers or that value, in which case it validates at no index at all;
    no step validates at a negative index.  The triggers split the indices:
    at every index from 0 on exactly one of "first" and "always" validates,
    and at every positive index exactly one of "even" and "odd". *)
Theorem triggers_split_the_indices (N : Z) (w : pyobj) (step_count : Z) :
  ((∃ self, Step_init N w = Ok self) ↔
   (∀ s, w = PyStr s → s ∈ ["first"; "always"; "even"; "odd"])) ∧
  (∀ self, Step_init N w = Ok self →
     step_N self = N ∧
     when self = match w with PyNone => PyStr "always" | _ => w end ∧
     (when self ∈ [PyStr "first"; PyStr "always"; PyStr "even"; PyStr "odd"]
      ∨ ∃ o, w = PyOther o ∧ ∀ c, validate self c = false) ∧
     (step_count < 0 → validate self step_count = false)) ∧
  (0 ≤ step_count →
   xorb (validate (MkStep N "first") step_count)
        (validate (MkStep N "always") step_count) = true) ∧
  (0 < step_count →
   xorb (validate (MkStep N "even") step_count)
        (validate (MkStep N "odd") step_count) = true).
Proof.
  assert (Hstr : ∀ s,
    py_in (PyStr s) ["first"; "always"; "even"; "odd"] = true ↔
    s ∈ ["first"; "always"; "even"; "odd"]).
  { intros s. unfold py_in. rewrite existsb_exists. split.
    - intros (x & Hx & Heq). apply String.eqb_eq in Heq. subst x.
      by apply list_elem_of_In.
    - intros Hs. exists s. split; [by apply list_elem_of_In |].
      apply String.eqb_refl. }
  split_and!.
  - unfold Step_init. destruct w as [| s | o].
    + split; [done | by eexists].
    + cbn [is_str andb].
      destruct (py_in s ["first"; "always"; "even"; "odd"]) eqn:Hin;
        cbn [negb].
      * split; [| by eexists]. intros _ s' [= <-]. by apply Hstr.
      * split; [by intros [self H] |]. intros Hall.
        specialize (Hall s eq_refl). apply Hstr in Hall. congruence.
    + split; [done | by eexists].
  - intros self Hinit. unfold Step_init in Hinit.
    destruct w as [| s | o].
    + injection Hinit as <-. cbn [step_N when]. split_and!; [done | done | | ].
      * left. rewrite !elem_of_cons. auto.
      * apply validate_negative.
    + cbn [is_str andb] in Hinit.
      destruct (py_in s ["first"; "always"; "even"; "odd"]) eqn:Hin;
        cbn [negb] in Hinit; [| done].
      injection Hinit as <-. cbn [step_N when]. split_and!; [done | done | | ].
      * left. apply (Hstr s) in Hin.
        rewrite !elem_of_cons, elem_of_nil in Hin. rewrite !elem_of_cons.
        destruct Hin as [-> | [-> | [-> | [-> | []]]]]; auto.
      * apply validate_negative.
    + injection Hinit as <-. cbn [step_N when].
      split_and!; [done | done | | done].
      right. exists o. split; [done |]. intros c. apply validate_other.
  - intros Hc. unfold validate. simpl.
    destruct (Z.ltb_spec 0 step_count), (Z.eqb_spec step_count 0);
      simpl; (done || lia).
  - intros Hc. unfold validate. simpl.
    destruct (Z.ltb_spec 0 step_count); [| lia]. simpl.
    pose proof (Z.mod_pos_bound step_count 2).
    destruct (Z.eqb_spec (step_count mod 2) 0),
             (Z.eqb_spec (step_count mod 2) 1); simpl; (done || lia).
Qed.

Lemma triggers_split_the_indices_witness :
  Step_init 5 (PyOther 3) = Ok (MkStep 5 (PyOther 3)) ∧
  validate (MkStep 5 (PyOther 3)) 4 = false ∧
  (∀ self, Step_init 5 "never" ≠ Ok self) ∧
  xorb (validate (MkStep 5 "first") 4) (validate (MkStep 5 "always") 4)
    = true ∧
  xorb (validate (MkStep 5 "even") 4) (validate (MkStep 5 "odd") 4) = true.
Proof.
  destruct (triggers_split_the_indices 5 (PyOther 3) 4)
    as (_ & Hother & Hfa & Heo).
  destruct (triggers_split_the_indices 5 "never" 4) as ([Hnever _] & _).
  split_and!.
  - reflexivity.
  - destruct (Hother (MkStep 5 (PyOther 3)) eq_refl)
      as (_ & _ & [Hin | (o & _ & Hno)] & _); [| apply Hno].
    cbn [when] in Hin. rewrite !elem_of_cons, elem_of_nil in Hin.
    by destruct Hin as [? | [? | [? | [? | []]]]].
  - intros self Hself.
    assert (Hin : "never" ∈ ["first"; "always"; "even"; "odd"]).
    { apply Hnever; [by exists self | done]. }
    rewrite !elem_of_cons, elem_of_nil in Hin.
    by destruct Hin as [? | [? | [? | [? | []]]]].
  - apply Hfa. lia.
  - apply Heo. lia.
Defined.

(** ** steps.py: [Initialize] *)

Lemma only_X_Y_spec (s : string) :
  only_X_Y s = true ↔
  Forall (fun c => c = "X"%char ∨ c = "Y"%char) (String.list_ascii_of_string s).
Proof.
  unfold only_X_Y. rewrite forallb_forall, Forall_forall.
  split; intros H c Hc.
  - apply list_elem_of_In, H in Hc.
    apply orb_true_iff in Hc as [Hc | Hc]; apply Ascii.eqb_eq in Hc; auto.
  - apply list_elem_of_In, H in Hc.
    apply orb_true_iff. destruct Hc as [-> | ->]; [left | right];
      apply Ascii.eqb_refl.
Qed.

Lemma repeat_X_letters (N : Z) :
  String.list_ascii_of_string (repeat_X N) = replicate (Z.to_nat N) "X"%char.
Proof. apply String.list_ascii_of_string_of_list_ascii. Qed.

Lemma string_length_letters (s : string) :
  String.length s = length (String.list_ascii_of_string s).
Proof. induction s as [| c s IH]; simpl; [done | by rewrite IH]. Qed.

(** X15.  [prepare_op_string] turns [None] into N letters X (none when N is
    not positive) and accepts a string exactly when all its letters are X
    or Y, returning it as it is; any other letter fails the [assert].  The
    length of the string is never compared with N. *)
Theorem prepare_op_string_accepts (N : Z) (s : string) :
  prepare_op_string N None = Passed (repeat_X N) ∧
  String.length (repeat_X N) = Z.to_nat N ∧
  (Forall (fun c => c = "X"%char ∨ c = "Y"%char)
     (String.list_ascii_of_string s) →
   prepare_op_string N (Some s) = Passed s ∧
   Initialize_init N (Some s) = Passed (MkInitialize (MkStep N "first") s)) ∧
  (¬ Forall (fun c => c = "X"%char ∨ c = "Y"%char)
       (String.list_ascii_of_string s) →
   prepare_op_string N (Some s) = AssertionError ∧
   Initialize_init N (Some s) = AssertionError).
Proof.
  unfold Initialize_init, prepare_op_string. simpl. split_and!.
  - assert (only_X_Y (repeat_X N) = true) as ->; [| done].
    apply only_X_Y_spec. rewrite repeat_X_letters.
    apply Forall_replicate. by left.
  - by rewrite string_length_letters, repeat_X_letters, length_replicate.
  - intros Hs. apply only_X_Y_spec in Hs. by rewrite Hs.
  - intros Hs. destruct (only_X_Y s) eqn:Hok; [| done].
    by apply only_X_Y_spec in Hok.
Qed.

Lemma flip_Y_spec (letters : list ascii) (i0 i : Z) :
  ("X", [i]) ∈ flip_Y letters i0 ↔
  i0 ≤ i ∧ letters !! Z.to_nat (i - i0) = Some "Y"%char.
Proof.
  revert i0. induction letters as [| c letters IH]; intros i0; simpl.
  { rewrite elem_of_nil. split; [done | intros [_ H]; done]. }
  assert (Hrest : ("X", [i]) ∈ flip_Y letters (i0 + 1) ↔
                  i0 < i ∧ letters !! Z.to_nat (i - (i0 + 1)) = Some "Y"%char).
  { rewrite IH. split; intros [? ?]; (split; [lia | done]). }
  assert (Hshift : i0 < i → Z.to_nat (i - i0) = S (Z.to_nat (i - (i0 + 1))))
    by lia.
  destruct (Ascii.eqb_spec c "Y") as [-> | Hc].
  - rewrite elem_of_cons, Hrest. split.
    + intros [[= ->] | [Hlt Hl]].
      * split; [lia |]. by rewrite Z.sub_diag.
      * split; [lia |]. by rewrite Hshift.
    + intros [Hle Hl]. destruct (decide (i = i0)) as [-> | Hne]; [by left |].
      right. split; [lia |]. by rewrite Hshift in Hl by lia.
  - rewrite Hrest. split.
    + intros [Hlt Hl]. split; [lia |]. by rewrite Hshift.
    + intros [Hle Hl]. destruct (decide (i = i0)) as [-> | Hne].
      * rewrite Z.sub_diag in Hl. simpl in Hl. congruence.
      * split; [lia |]. by rewrite Hshift in Hl by lia.
Qed.

Lemma flip_Y_length (letters : list ascii) (i0 : Z) :
  length (flip_Y letters i0) = length (filter (fun c => c = "Y"%char) letters).
Proof.
  revert i0. induction letters as [| c letters IH]; intros i0; simpl; [done |].
  destruct (Ascii.eqb_spec c "Y") as [-> | Hc].
  - rewrite filter_cons_True by done. simpl. by rewrite IH.
  - rewrite filter_cons_False by done. apply IH.
Qed.

(** X16.  An [Initialize] step leaves the simulator alone at every step
    index but 0.  At 0 it sends one circuit: the identity on the last
    position of the string (whatever N was), then an X on position i exactly
    for the letters Y, so that the circuit holds one operation more than
    there are letters Y. *)
Theorem Initialize_apply_circuit {sim : Type} (do : sim → gate → result sim)
    (N : Z) (w : option string) (self : Initialize) (s : sim)
    (step_count i : Z) :
  Initialize_init N w = Passed self →
  (step_count ≠ 0 → Initialize_apply do self s step_count = Passed (Ok s)) ∧
  Initialize_apply do self s 0 =
    Passed (do s (Circuit (Initialize_circuit (op_string self)))) ∧
  head (Initialize_circuit (op_string self)) =
    Some ("I", [Z.of_nat (String.length (op_string self)) - 1]) ∧
  (("X", [i]) ∈ Initialize_circuit (op_string self) ↔
   0 ≤ i ∧ String.list_ascii_of_string (op_string self) !! Z.to_nat i
           = Some "Y"%char) ∧
  length (Initialize_circuit (op_string self)) =
    S (length (filter (fun c => c = "Y"%char)
                 (String.list_ascii_of_string (op_string self)))).
Proof.
  unfold Initialize_init, prepare_op_string. intros Hinit.
  destruct (only_X_Y (default (repeat_X N) w)) eqn:Hok; [| done].
  injection Hinit as <-. simpl. unfold Initialize_apply. simpl.
  split_and!.
  - intros Hc. unfold validate. simpl.
    destruct (Z.eqb_spec step_count 0); done.
  - by rewrite Hok.
  - done.
  - unfold Initialize_circuit. rewrite elem_of_cons, flip_Y_spec, Z.sub_0_r.
    split; [intros [[=] | H]; done | by right].
  - unfold Initialize_circuit. simpl. by rewrite flip_Y_length.
Qed.

Lemma Initialize_apply_circuit_witness :
  (5 ≠ 0 →
   Initialize_apply (fun (s : list gate) g => Ok (s ++ [g]))
     (MkInitialize (MkStep 3 "first") "XYY") [] 5 = Passed (Ok [])) ∧
  Initialize_apply (fun (s : list gate) g => Ok (s ++ [g]))
    (MkInitialize (MkStep 3 "first") "XYY") [] 0 =
    Passed (Ok ([] ++ [Circuit (Initialize_circuit "XYY")])) ∧
  head (Initialize_circuit "XYY") =
    Some ("I", [Z.of_nat (String.length "XYY") - 1]) ∧
  (("X", [2]) ∈ Initialize_circuit "XYY" ↔
   0 ≤ 2 ∧ String.list_ascii_of_string "XYY" !! Z.to_nat 2 = Some "Y"%char) ∧
  length (Initialize_circuit "XYY") =
    S (length (filter (fun c => c = "Y"%char)
                 (String.list_ascii_of_string "XYY"))).
Proof.
  apply (Initialize_apply_circuit (fun (s : list gate) g => Ok (s ++ [g]))
           3 (Some "XYY") (MkInitialize (MkStep 3 "first") "XYY") [] 5 2).
  reflexivity.
Defined.

(** ** steps.py: the gates of a step *)

Lemma list_get_Ok (r : list Z) (i : Z) :
  0 ≤ i < Z.of_nat (length r) → list_get r i = Ok (r !!! Z.to_nat i).
Proof.
  intros Hi. unfold list_get, np_index.
  destruct (Z.leb_spec 0 i); [| lia].
  destruct (Z.ltb_spec i (Z.of_nat (length r))); [| lia]. simpl.
  destruct (lookup_lt_is_Some_2 r (Z.to_nat i)) as [x Hx]; [lia |].
  by rewrite Hx, (list_lookup_total_correct _ _ _ Hx).
Qed.

Lemma list_get_beyond (r : list Z) (i : Z) :
  Z.of_nat (length r) ≤ i → list_get r i = Raise IndexError.
Proof.
  intros Hi. unfold list_get, np_index.
  destruct (Z.leb_spec 0 i); [| lia].
  destruct (Z.ltb_spec i (Z.of_nat (length r))); [lia |]. simpl.
  destruct (Z.leb_spec (- Z.of_nat (length r)) i); [| lia].
  by destruct (Z.ltb_spec i 0); [lia |].
Qed.

Lemma elem_of_range (a b x : Z) : x ∈ range a b ↔ a ≤ x < b.
Proof. unfold range. rewrite elem_of_seqZ. lia. Qed.

Section StepsFacts.
Context {sim world : Type}.
Variable do : sim → gate → result sim.

Lemma do_all_app (s : sim) (gs1 gs2 : list gate) :
  do_all do s (gs1 ++ gs2) = (s ← do_all do s gs1; do_all do s gs2).
Proof.
  revert s. induction gs1 as [| g gs1 IH]; intros s; simpl; [done |].
  destruct (do s g) as [s1 | e]; simpl; [apply IH | done].
Qed.

Lemma loop_ZH_spec (r : list Z) (ts : list Z) (s : sim) :
  Forall (fun i => 0 ≤ i < Z.of_nat (length r)) ts →
  loop_ZH do r ts s = do_all do s ((fun i => ZH (r !!! Z.to_nat i)) <$> ts).
Proof.
  intros Hts. revert s. induction Hts as [| i ts Hi _ IH]; intros s; simpl;
    [done |].
  rewrite list_get_Ok by done. simpl.
  destruct (do s _) as [s1 | e]; simpl; [apply IH | done].
Qed.

Lemma loop_C3_spec (r : list Z) (k : Z) (ts : list Z) (s : sim) :
  0 ≤ k →
  Forall (fun i => 0 ≤ i ∧ 2 * k + i < Z.of_nat (length r)) ts →
  loop_C3 do r k ts s =
  do_all do s
    ((fun i => C3 (r !!! Z.to_nat i) (r !!! Z.to_nat (k + i))
                  (r !!! Z.to_nat (2 * k + i))) <$> ts).
Proof.
  intros Hk Hts. revert s.
  induction Hts as [| i ts Hi _ IH]; intros s; simpl; [done |].
  rewrite !list_get_Ok by lia. simpl.
  destruct (do s _) as [s1 | e]; simpl; [apply IH | done].
Qed.

(** A loop of [ZH] over indices of which one is beyond the list does not
    return; it raises [IndexError] when [s.do] itself never fails. *)
Lemma loop_ZH_beyond (r : list Z) (ts : list Z) (s : sim) :
  Forall (fun i => 0 ≤ i) ts →
  Exists (fun i => Z.of_nat (length r) ≤ i) ts →
  (∃ e, loop_ZH do r ts s = Raise e) ∧
  ((∀ s g, ∃ s', do s g = Ok s') → loop_ZH do r ts s = Raise IndexError).
Proof.
  intros Hpos Hbad. revert s.
  induction Hpos as [| i ts Hi _ IH]; intros s; [by apply Exists_nil in Hbad |].
  simpl. destruct (decide (i < Z.of_nat (length r))) as [Hin | Hout].
  - rewrite list_get_Ok by lia. simpl.
    apply Exists_cons in Hbad as [Hbad | Hbad]; [lia |].
    split.
    + destruct (do s _) as [s1 | e]; simpl; [by apply IH | eauto].
    + intros Hdo. destruct (Hdo s (ZH (r !!! Z.to_nat i))) as [s1 ->].
      simpl. by apply IH.
  - rewrite list_get_beyond by lia. simpl. eauto.
Qed.
End StepsFacts.

Lemma ZH_qubits (F : Z → Z) (l : list Z) :
  ((fun i => ZH (F i)) <$> l) ≫= qubits = F <$> l.
Proof. induction l as [| i l IH]; csimpl; [done | by rewrite IH]. Qed.

Lemma C3_qubits (F : Z → Z) (k : Z) (l : list Z) :
  ((fun i => C3 (F i) (F (k + i)) (F (2 * k + i))) <$> l) ≫= qubits
  = F <$> (l ≫= fun i => [i; k + i; 2 * k + i]).
Proof. induction l as [| i l IH]; csimpl; [done | by rewrite IH]. Qed.

Lemma triples_length (k : Z) (l : list Z) :
  length (l ≫= fun i => [i; k + i; 2 * k + i]) = (3 * length l)%nat.
Proof. induction l as [| i l IH]; csimpl; [done | rewrite IH; lia]. Qed.

Lemma triples_NoDup (k : Z) :
  NoDup (range 0 k ≫= fun i => [i; k + i; 2 * k + i]).
Proof.
  apply NoDup_bind.
  - intros i1 i2 y H1 H2 Hy1 Hy2.
    apply elem_of_range in H1, H2.
    rewrite !elem_of_cons, elem_of_nil in Hy1, Hy2. lia.
  - intros i Hi. apply elem_of_range in Hi.
    repeat constructor; rewrite ?elem_of_cons, ?elem_of_nil; lia.
  - apply NoDup_seqZ.
Qed.

(** The qubits of a schedule that applies [ZH] to the positions
    3k .. a - 1 of [r] and [C3] to the positions (i, k + i, 2k + i), i < k:
    they are the first [a] entries of [r], each once. *)
Lemma schedule_qubits (r : list Z) (a k : Z) :
  NoDup r → 0 ≤ k → 3 * k ≤ a ≤ Z.of_nat (length r) →
  let gs := ((fun i => ZH (r !!! Z.to_nat i)) <$> range (3 * k) a) ++
            ((fun i => C3 (r !!! Z.to_nat i) (r !!! Z.to_nat (k + i))
                          (r !!! Z.to_nat (2 * k + i))) <$> range 0 k) in
  NoDup (gs ≫= qubits) ∧ gs ≫= qubits ≡ₚ take (Z.to_nat a) r.
Proof.
  intros Hr Hk Ha gs. unfold gs.
  rewrite bind_app.
  rewrite (ZH_qubits (fun i => r !!! Z.to_nat i)).
  rewrite (C3_qubits (fun i => r !!! Z.to_nat i)).
  rewrite <- fmap_app.
  set (idx := range (3 * k) a ++ (range 0 k ≫= fun i => [i; k + i; 2 * k + i])).
  assert (Hidx : ∀ i, i ∈ idx → 0 ≤ i < a).
  { intros i Hi. unfold idx in Hi. apply elem_of_app in Hi as [Hi | Hi].
    - apply elem_of_range in Hi. lia.
    - apply list_elem_of_bind in Hi as (j & Hi & Hj).
      apply elem_of_range in Hj.
      rewrite !elem_of_cons, elem_of_nil in Hi. lia. }
  assert (Hnd : NoDup ((fun i => r !!! Z.to_nat i) <$> idx)).
  { apply NoDup_fmap_2_strong.
    - intros i j Hi Hj Heq. apply Hidx in Hi, Hj.
      destruct (lookup_lt_is_Some_2 r (Z.to_nat i)) as [x Hx]; [lia |].
      destruct (lookup_lt_is_Some_2 r (Z.to_nat j)) as [y Hy]; [lia |].
      rewrite (list_lookup_total_correct _ _ _ Hx) in Heq.
      rewrite (list_lookup_total_correct _ _ _ Hy) in Heq. subst y.
      pose proof (NoDup_lookup _ _ _ _ Hr Hx Hy). lia.
    - unfold idx. apply NoDup_app. split_and!.
      + apply NoDup_seqZ.
      + intros i Hi Hi'. apply elem_of_range in Hi.
        apply list_elem_of_bind in Hi' as (j & Hi' & Hj).
        apply elem_of_range in Hj.
        rewrite !elem_of_cons, elem_of_nil in Hi'. lia.
      + apply triples_NoDup. }
  split; [done |].
  apply submseteq_length_Permutation.
  - apply NoDup_submseteq; [done |].
    intros x Hx. apply list_elem_of_fmap in Hx as (i & -> & Hi).
    apply Hidx in Hi. apply elem_of_take. exists (Z.to_nat i).
    split; [| lia]. apply list_lookup_lookup_total_lt. lia.
  - rewrite length_fmap, length_take. unfold idx.
    rewrite length_app, triples_length. unfold range.
    rewrite !length_seqZ. lia.
Qed.

Lemma range_first (b : Z) : 1 ≤ b → range 0 b = 0 :: range 1 b.
Proof.
  intros Hb. unfold range. rewrite seqZ_cons by lia.
  do 2 f_equal; lia.
Qed.

Lemma range_take (r : list Z) (a : Z) :
  a ≤ Z.of_nat (length r) →
  (fun i => r !!! Z.to_nat i) <$> range 0 a = take (Z.to_nat a) r.
Proof.
  intros Ha. apply list_eq. intros i. unfold range.
  rewrite list_lookup_fmap.
  destruct (decide (Z.of_nat i < a)) as [Hi | Hi].
  - rewrite lookup_seqZ_lt by lia. simpl.
    rewrite lookup_take_lt by lia.
    replace (Z.to_nat (0 + Z.of_nat i)) with i by lia.
    symmetry. apply list_lookup_lookup_total_lt. lia.
  - rewrite lookup_seqZ_ge by lia. simpl.
    symmetry. apply lookup_take_ge. lia.
Qed.

(** ** steps.py: [ThreeQuarterStep] *)

(** X17.  At a non-positive step index [ThreeQuarterStep.apply] returns the
    simulator untouched and does not shuffle.  At a positive one it raises
    ZeroDivisionError for slow = 0 and the ValueError "Not enough qubits"
    whenever fewer than four qubits (and not a negative number) are to be
    acted on, in both cases before any gate is sent. *)
Theorem ThreeQuarterStep_apply_refuses {sim world : Type}
    (do : sim → gate → result sim) (shuffle : list Z → world → list Z * world)
    (N slow : Z) (s : sim) (step_count : Z) (wd : world) :
  let apply := ThreeQuarterStep_apply do shuffle (ThreeQuarterStep N slow) in
  (step_count ≤ 0 → apply s step_count wd = Ok (s, wd)) ∧
  (0 < step_count → slow = 0 →
   apply s step_count wd = Raise ZeroDivisionError) ∧
  (0 < step_count → slow ≠ 0 → 0 ≤ N / slow < 4 →
   apply s step_count wd =
   Raise (ValueError "Not enough qubits are being acted on!")).
Proof.
  intros apply. rename slow into sl.
  unfold apply, ThreeQuarterStep_apply, ThreeQuarterStep.
  cbn [slow_step slow step_N]. split_and!.
  - intros Hc. unfold validate. cbn [when step_N].
    destruct (Z.ltb_spec 0 step_count); [lia | done].
  - intros Hc ->. unfold validate. cbn [when step_N].
    destruct (Z.ltb_spec 0 step_count); [| lia]. simpl.
    by destruct (shuffle _ wd).
  - intros Hc Hs Ha. unfold validate. cbn [when step_N].
    destruct (Z.ltb_spec 0 step_count); [| lia]. simpl.
    destruct (shuffle _ wd) as [r wd']. unfold floordiv.
    destruct (Z.eqb_spec sl 0); [done |]. simpl.
    rewrite (Z.div_small (N / sl) 4) by lia. done.
Qed.

Lemma ThreeQuarterStep_apply_refuses_witness :
  let apply :=
    ThreeQuarterStep_apply (fun (s : list gate) g => Ok (s ++ [g]))
      (fun r (wd : nat) => (reverse r, S wd)) (ThreeQuarterStep 7 2) in
  (0 ≤ 0 → apply [] 0 0%nat = Ok ([], 0%nat)) ∧
  (0 < 1 → 2 ≠ 0 → 0 ≤ 7 / 2 < 4 →
   apply [] 1 0%nat =
   Raise (ValueError "Not enough qubits are being acted on!")).
Proof.
  intros apply.
  destruct (ThreeQuarterStep_apply_refuses
              (fun (s : list gate) g => Ok (s ++ [g]))
              (fun r (wd : nat) => (reverse r, S wd)) 7 2 [] 0 0%nat)
    as (H0 & _ & _).
  destruct (ThreeQuarterStep_apply_refuses
              (fun (s : list gate) g => Ok (s ++ [g]))
              (fun r (wd : nat) => (reverse r, S wd)) 7 2 [] 1 0%nat)
    as (_ & _ & H1).
  split; [exact H0 | exact H1].
Defined.

(** X18.  At a positive step index, with slow at least 1 and at least four
    qubits to act on, and a shuffle that returns a permutation [r] of
    0 .. N-1, [ThreeQuarterStep.apply] sends, in this order: [ZH] on
    r[3k], .., r[a-1]; [C3] on (r[i], r[k+i], r[2k+i]) for i = 0, .., k-1;
    and the identity on qubit N-1 (a = N // slow, k = a // 4).  The ZH and
    C3 gates act on the first [a] entries of [r], each of them exactly
    once, so no qubit is hit by two of these gates. *)
Theorem ThreeQuarterStep_apply_schedule {sim world : Type}
    (do : sim → gate → result sim) (shuffle : list Z → world → list Z * world)
    (N slow : Z) (s : sim) (step_count : Z) (wd wd' : world) (r : list Z) :
  0 < step_count → 1 ≤ slow → 4 ≤ N / slow →
  shuffle (range 0 N) wd = (r, wd') → r ≡ₚ range 0 N →
  let a := N / slow in
  let k := a / 4 in
  let gs := ((fun i => ZH (r !!! Z.to_nat i)) <$> range (3 * k) a) ++
            ((fun i => C3 (r !!! Z.to_nat i) (r !!! Z.to_nat (k + i))
                          (r !!! Z.to_nat (2 * k + i))) <$> range 0 k) in
  ThreeQuarterStep_apply do shuffle (ThreeQuarterStep N slow) s step_count wd
  = (s ← do_all do s (gs ++ [Circuit [("I", [N - 1])]]); Ok (s, wd')) ∧
  NoDup (gs ≫= qubits) ∧
  gs ≫= qubits ≡ₚ take (Z.to_nat a) r ∧
  (∀ x, x ∈ gs ≫= qubits → 0 ≤ x < N).
Proof.
  intros Hc Hslow Ha Hsh Hperm a k gs. rename slow into sl.
  assert (HN : 0 ≤ N).
  { destruct (Z.le_gt_cases 0 N); [done |].
    pose proof (Z.div_lt_upper_bound N sl 0). lia. }
  assert (Hlen : Z.of_nat (length r) = N).
  { rewrite Hperm. unfold range. rewrite length_seqZ. lia. }
  assert (HaN : a ≤ N).
  { unfold a. apply Z.div_le_upper_bound; nia. }
  assert (Hk : 1 ≤ k ∧ 4 * k ≤ a).
  { unfold k. split.
    - apply Z.div_le_lower_bound; lia.
    - apply Z.mul_div_le; lia. }
  assert (Hr : NoDup r).
  { rewrite Hperm. apply NoDup_seqZ. }
  destruct (schedule_qubits r a k Hr) as (Hnd & Hp); [lia | lia |].
  fold gs in Hnd, Hp.
  split_and!.
  - unfold ThreeQuarterStep_apply, ThreeQuarterStep.
    cbn [slow_step slow step_N]. unfold validate. cbn [when step_N].
    destruct (Z.ltb_spec 0 step_count); [| lia]. simpl.
    rewrite Hsh. unfold floordiv.
    destruct (Z.eqb_spec sl 0); [lia |]. simpl. fold a. fold k.
    destruct (Z.eqb_spec k 0); [lia |].
    rewrite loop_ZH_spec.
    2:{ apply Forall_forall. intros i Hi. apply elem_of_range in Hi. lia. }
    rewrite !list_get_Ok by lia.
    unfold gs. rewrite <- app_assoc, do_all_app.
    destruct (do_all do s _) as [s1 |]; [| done]. cbn [mbind result_bind].
    rewrite (range_first k) by lia. rewrite fmap_cons. cbn [app do_all].
    replace (k + 0) with k by lia. replace (2 * k + 0) with (2 * k) by lia.
    destruct (do s1 _) as [s2 |]; [| done]. cbn [mbind result_bind].
    rewrite loop_C3_spec.
    2:{ lia. }
    2:{ apply Forall_forall. intros i Hi. apply elem_of_range in Hi. lia. }
    rewrite do_all_app.
    destruct (do_all do s2 _) as [s3 |]; [| done]. cbn [mbind result_bind].
    cbn [do_all]. by destruct (do s3 _).
  - done.
  - done.
  - intros x Hx. rewrite Hp in Hx. apply elem_of_take in Hx as (i & Hx & _).
    apply list_elem_of_lookup_2 in Hx. rewrite Hperm in Hx.
    apply elem_of_range in Hx. lia.
Qed.

Lemma ThreeQuarterStep_apply_schedule_witness :
  ThreeQuarterStep_apply (fun (s : list gate) g => Ok (s ++ [g]))
    (fun r (wd : nat) => (reverse r, S wd)) (ThreeQuarterStep 9 1) [] 1 0%nat
  = Ok ([ZH 2; ZH 1; ZH 0; C3 8 6 4; C3 7 5 3; Circuit [("I", [8])]], 1%nat).
Proof.
  destruct (ThreeQuarterStep_apply_schedule
              (fun (s : list gate) g => Ok (s ++ [g]))
              (fun r (wd : nat) => (reverse r, S wd))
              9 1 [] 1 0%nat 1%nat (reverse (range 0 9))) as (H & _).
  - lia.
  - lia.
  - by vm_compute.
  - reflexivity.
  - apply reverse_Permutation.
  - rewrite H. reflexivity.
Defined.

(** ** steps.py: [AlternatingEven] and [AlternatingOdd] *)

(** X19.  [AlternatingEven.apply] shuffles 0 .. N-2 only, but loops over
    N // slow positions.  At an even positive step index, with N at least
    1: for slow = 1 the loop runs past the end of the list and the call
    never returns (it raises IndexError when [s.do] itself does not fail);
    for slow at least 2 it sends [ZH] on the first N // slow entries of the
    shuffled list, which are distinct qubits, and never touches the last
    qubit N-1. *)
Theorem AlternatingEven_apply_schedule {sim world : Type}
    (do : sim → gate → result sim) (shuffle : list Z → world → list Z * world)
    (N slow : Z) (s : sim) (step_count : Z) (wd wd' : world) (r : list Z) :
  0 < step_count → step_count mod 2 = 0 → 1 ≤ N → 1 ≤ slow →
  shuffle (range 0 (N - 1)) wd = (r, wd') → r ≡ₚ range 0 (N - 1) →
  let apply :=
    AlternatingEven_apply do shuffle (AlternatingEven N slow) s step_count wd in
  let acted := take (Z.to_nat (N / slow)) r in
  (slow = 1 →
   (∃ e, apply = Raise e) ∧
   ((∀ s g, ∃ s', do s g = Ok s') → apply = Raise IndexError)) ∧
  (2 ≤ slow →
   apply = (s ← do_all do s (ZH <$> acted); Ok (s, wd')) ∧
   NoDup acted ∧ length acted = Z.to_nat (N / slow) ∧
   ∀ x, x ∈ acted → 0 ≤ x < N - 1).
Proof.
  intros Hc Heven HN Hslow Hsh Hperm apply acted. rename slow into sl.
  assert (Hlen : Z.of_nat (length r) = N - 1).
  { rewrite Hperm. unfold range. rewrite length_seqZ. lia. }
  assert (Hr : NoDup r).
  { rewrite Hperm. apply NoDup_seqZ. }
  assert (Happly : apply =
    (s ← loop_ZH do r (range 0 (N / sl)) s; Ok (s, wd'))).
  { unfold apply, AlternatingEven_apply, AlternatingEven.
    cbn [slow_step slow step_N]. unfold validate. cbn [when step_N].
    rewrite Heven. destruct (Z.ltb_spec 0 step_count); [| lia]. simpl.
    rewrite Hsh. unfold floordiv.
    by destruct (Z.eqb_spec sl 0); [lia |]. }
  split.
  - intros ->. rewrite Z.div_1_r in Happly.
    destruct (loop_ZH_beyond do r (range 0 N) s) as [[e He] Hdo].
    + apply Forall_forall. intros i Hi. apply elem_of_range in Hi. lia.
    + apply Exists_exists. exists (N - 1). split; [| lia].
      apply elem_of_range. lia.
    + rewrite Happly. split.
      * exists e. by rewrite He.
      * intros Htot. by rewrite (Hdo Htot).
  - intros Hsl.
    assert (Ha : 0 ≤ N / sl ≤ N - 1).
    { split; [apply Z.div_pos; lia |].
      destruct (decide (N = 1)) as [-> | HN1].
      - rewrite Z.div_small; lia.
      - apply Z.div_le_upper_bound; nia. }
    split_and!.
    + rewrite Happly. rewrite loop_ZH_spec.
      2:{ apply Forall_forall. intros i Hi. apply elem_of_range in Hi. lia. }
      unfold acted. rewrite <- range_take by lia.
      by rewrite <- list_fmap_compose.
    + exact (sublist_NoDup _ _ Hr (sublist_take _ _)).
    + unfold acted. rewrite length_take. lia.
    + intros x Hx. apply elem_of_take in Hx as (i & Hx & _).
      apply list_elem_of_lookup_2 in Hx. rewrite Hperm in Hx.
      apply elem_of_range in Hx. lia.
Qed.

Lemma AlternatingEven_apply_schedule_witness :
  AlternatingEven_apply (fun (s : list gate) g => Ok (s ++ [g]))
    (fun r (wd : nat) => (reverse r, S wd)) (AlternatingEven 5 2) [] 4 0%nat
  = Ok ([ZH 3; ZH 2], 1%nat).
Proof.
  destruct (AlternatingEven_apply_schedule
              (fun (s : list gate) g => Ok (s ++ [g]))
              (fun r (wd : nat) => (reverse r, S wd))
              5 2 [] 4 0%nat 1%nat (reverse (range 0 (5 - 1))))
    as (_ & H).
  - lia.
  - reflexivity.
  - lia.
  - lia.
  - reflexivity.
  - apply reverse_Permutation.
  - destruct H as (H & _); [lia |]. rewrite H. reflexivity.
Defined.

(** X20.  [AlternatingOdd.apply] at an odd step index, with N and slow at
    least 1 and a shuffle that returns a permutation [r] of 0 .. N-1.  When
    fewer than three qubits are to be acted on, the one gate it sends is
    [C3] on the same qubit three times, r[0].  Otherwise it sends [C3] on
    (r[i], r[k+i], r[2k+i]) for i = 0, .., k-1 with k = (N // slow) // 3,
    which act on the first 3k entries of [r], each exactly once. *)
Theorem AlternatingOdd_apply_schedule {sim world : Type}
    (do : sim → gate → result sim) (shuffle : list Z → world → list Z * world)
    (N slow : Z) (s : sim) (step_count : Z) (wd wd' : world) (r : list Z) :
  0 < step_count → step_count mod 2 = 1 → 1 ≤ N → 1 ≤ slow →
  shuffle (range 0 N) wd = (r, wd') → r ≡ₚ range 0 N →
  let apply :=
    AlternatingOdd_apply do shuffle (AlternatingOdd N slow) s step_count wd in
  let k := N / slow / 3 in
  let gs := (fun i => C3 (r !!! Z.to_nat i) (r !!! Z.to_nat (k + i))
                         (r !!! Z.to_nat (2 * k + i))) <$> range 0 k in
  (N / slow < 3 →
   apply = (s ← do s (C3 (r !!! 0%nat) (r !!! 0%nat) (r !!! 0%nat));
            Ok (s, wd'))) ∧
  (3 ≤ N / slow →
   apply = (s ← do_all do s gs; Ok (s, wd')) ∧
   NoDup (gs ≫= qubits) ∧
   gs ≫= qubits ≡ₚ take (Z.to_nat (3 * k)) r).
Proof.
  intros Hc Hodd HN Hslow Hsh Hperm apply k gs. rename slow into sl.
  assert (Hlen : Z.of_nat (length r) = N).
  { rewrite Hperm. unfold range. rewrite length_seqZ. lia. }
  assert (Hr : NoDup r).
  { rewrite Hperm. apply NoDup_seqZ. }
  assert (Ha : 0 ≤ N / sl ≤ N).
  { split; [apply Z.div_pos; lia | apply Z.div_le_upper_bound; nia]. }
  assert (Happly : apply =
    (a ← list_get r 0; b ← list_get r k; c ← list_get r (2 * k);
     s ← do s (C3 a b c);
     s ← loop_C3 do r k (range 1 k) s; Ok (s, wd'))).
  { unfold apply, AlternatingOdd_apply, AlternatingOdd.
    cbn [slow_step slow step_N]. unfold validate. cbn [when step_N].
    rewrite Hodd. destruct (Z.ltb_spec 0 step_count); [| lia]. simpl.
    rewrite Hsh. unfold int_div, floordiv.
    destruct (Z.eqb_spec sl 0); [lia |]. simpl.
    rewrite Z.quot_div_nonneg by lia. done. }
  split.
  - intros Hsmall.
    assert (Hk0 : k = 0) by (unfold k; apply Z.div_small; lia).
    rewrite Happly, Hk0. rewrite !list_get_Ok by lia. simpl.
    by destruct (do s _).
  - intros Hbig.
    assert (Hk : 1 ≤ k ∧ 3 * k ≤ N / sl).
    { unfold k. split.
      - apply Z.div_le_lower_bound; lia.
      - apply Z.mul_div_le; lia. }
    destruct (schedule_qubits r (3 * k) k Hr) as (Hnd & Hp); [lia | lia |].
    assert (Hnil : range (3 * k) (3 * k) = []).
    { unfold range. by rewrite Z.sub_diag. }
    rewrite Hnil in Hnd, Hp. simpl in Hnd, Hp. fold gs in Hnd, Hp.
    split_and!; [| done | done].
    rewrite Happly. rewrite !list_get_Ok by lia. simpl.
    unfold gs. rewrite (range_first k) by lia. rewrite fmap_cons.
    cbn [do_all].
    replace (k + 0) with k by lia. replace (2 * k + 0) with (2 * k) by lia.
    destruct (do s _) as [s1 |]; [| done]. cbn [mbind result_bind].
    rewrite loop_C3_spec.
    2:{ lia. }
    2:{ apply Forall_forall. intros i Hi. apply elem_of_range in Hi. lia. }
    done.
Qed.

Lemma AlternatingOdd_apply_schedule_witness :
  AlternatingOdd_apply (fun (s : list gate) g => Ok (s ++ [g]))
    (fun r (wd : nat) => (reverse r, S wd)) (AlternatingOdd 7 1) [] 3 0%nat
  = Ok ([C3 6 4 2; C3 5 3 1], 1%nat) ∧
  AlternatingOdd_apply (fun (s : list gate) g => Ok (s ++ [g]))
    (fun r (wd : nat) => (reverse r, S wd)) (AlternatingOdd 2 1) [] 3 0%nat
  = Ok ([C3 1 1 1], 1%nat).
Proof.
  split.
  - destruct (AlternatingOdd_apply_schedule
                (fun (s : list gate) g => Ok (s ++ [g]))
                (fun r (wd : nat) => (reverse r, S wd))
                7 1 [] 3 0%nat 1%nat (reverse (range 0 7))) as (_ & H).
    + lia.
    + reflexivity.
    + lia.
    + lia.
    + reflexivity.
    + apply reverse_Permutation.
    + destruct H as (H & _); [by vm_compute |]. rewrite H. reflexivity.
  - destruct (AlternatingOdd_apply_schedule
                (fun (s : list gate) g => Ok (s ++ [g]))
                (fun r (wd : nat) => (reverse r, S wd))
                2 1 [] 3 0%nat 1%nat (reverse (range 0 2))) as (H & _).
    + lia.
    + reflexivity.
    + lia.
    + lia.
    + reflexivity.
    + apply reverse_Permutation.
    + rewrite H; [reflexivity | by vm_compute].
Defined.

(** ** steps.py: [StepSequence] *)

(** X21.  Applying a sequence of steps that is the concatenation of two
    sequences is applying the first and, if it returns, the second to what
    it returned (simulator and random generator); a step that raises ends
    the whole sequence with its exception. *)
Theorem StepSequence_apply_app {sim world : Type}
    (steps1 steps2 : list (sim → Z → world → result (sim * world)))
    (s : sim) (step_count : Z) (wd : world) :
  StepSequence_apply (steps1 ++ steps2) s step_count wd =
  match StepSequence_apply steps1 s step_count wd with
  | Ok (s, wd) => StepSequence_apply steps2 s step_count wd
  | Raise e => Raise e
  end.
Proof.
  revert s wd. induction steps1 as [| step steps1 IH]; intros s wd; [done |].
  cbn [app StepSequence_apply].
  destruct (step s step_count wd) as [[s1 wd1] | e]; [| done].
  cbn [mbind result_bind]. apply IH.
Qed.

(** X22.  At step index 0 a sequence that starts with an [IdStep] and goes
    on with any [ThreeQuarterStep], [AlternatingEven] and [AlternatingOdd]
    steps sends the identity circuit of the [IdStep] and nothing else, and
    draws no random number: none of the three other steps shuffles or sends
    a gate before step index 1, whatever N and slow they were built with. *)
Theorem StepSequence_apply_first_index {sim world : Type}
    (do : sim → gate → result sim) (shuffle : list Z → world → list Z * world)
    (N : Z) (steps : list (sim → Z → world → result (sim * world)))
    (s : sim) (wd : world) :
  Forall (fun step => ∃ N slow,
            step = ThreeQuarterStep_apply do shuffle (ThreeQuarterStep N slow) ∨
            step = AlternatingEven_apply do shuffle (AlternatingEven N slow) ∨
            step = AlternatingOdd_apply do shuffle (AlternatingOdd N slow))
         steps →
  StepSequence_apply
    ((fun s step_count wd =>
        s ← IdStep_apply do (MkStep N "first") s step_count; Ok (s, wd))
     :: steps) s 0 wd
  = (s ← do s (Circuit [("I", [N - 1])]); Ok (s, wd)).
Proof.
  intros Hsteps. cbn [StepSequence_apply].
  unfold IdStep_apply. cbn [validate when step_N String.eqb Ascii.eqb
    Bool.eqb andb Z.eqb Z.ltb Z.compare].
  assert (Hidle : ∀ s, StepSequence_apply steps s 0 wd = Ok (s, wd)).
  { induction Hsteps as [| step steps (N' & sl & Hstep) _ IH]; intros s1;
      [done |].
    cbn [StepSequence_apply].
    destruct Hstep as [-> | [-> | ->]]; (cbn; apply IH). }
  destruct (do s _) as [s1 |]; cbn [mbind result_bind]; [apply Hidle | done].
Qed.

Lemma StepSequence_apply_first_index_witness :
  StepSequence_apply
    [ (fun s step_count wd =>
         s ← IdStep_apply (fun (s : list gate) g => Ok (s ++ [g]))
               (MkStep 8 "first") s step_count; Ok (s, wd));
      ThreeQuarterStep_apply (fun (s : list gate) g => Ok (s ++ [g]))
        (fun r (wd : nat) => (reverse r, S wd)) (ThreeQuarterStep 8 1);
      AlternatingOdd_apply (fun (s : list gate) g => Ok (s ++ [g]))
        (fun r (wd : nat) => (reverse r, S wd)) (AlternatingOdd 8 2) ]
    [] 0 0%nat
  = Ok ([Circuit [("I", [7])]], 0%nat).
Proof.
  rewrite (StepSequence_apply_first_index
             (fun (s : list gate) g => Ok (s ++ [g]))
             (fun r (wd : nat) => (reverse r, S wd)) 8).
  - reflexivity.
  - repeat constructor.
    + exists 8, 1. left. reflexivity.
    + exists 8, 2. right. right. reflexivity.
Defined.

(** ** circuits.py: the sampling loops *)

Lemma np_add_at_length (v v' : list Q) (j : Z) (x : Q) :
  np_add_at v j x = Ok v' → length v' = length v.
Proof.
  unfold np_add_at. intros H.
  destruct (np_index (length v) j) as [k |]; [| done]. simpl in H.
  destruct (v !! k) as [old |]; [| done]. simpl in H.
  injection H as <-. apply length_insert.
Qed.

Lemma np_add_at_beyond (v : list Q) (j : Z) (x : Q) :
  Z.of_nat (length v) ≤ j → np_add_at v j x = Raise IndexError.
Proof.
  intros Hj. unfold np_add_at, np_index.
  destruct (Z.leb_spec 0 j); [| lia].
  destruct (Z.ltb_spec j (Z.of_nat (length v))); [lia |]. simpl.
  destruct (Z.leb_spec (- Z.of_nat (length v)) j); [| lia].
  by destruct (Z.ltb_spec j 0); [lia |].
Qed.

Lemma np_add_at_Ok (v : list Q) (j : Z) (x : Q) :
  0 ≤ j < Z.of_nat (length v) → ∃ v', np_add_at v j x = Ok v'.
Proof.
  intros Hj. unfold np_add_at, np_index.
  destruct (Z.leb_spec 0 j); [| lia].
  destruct (Z.ltb_spec j (Z.of_nat (length v))); [| lia]. simpl.
  destruct (lookup_lt_is_Some_2 v (Z.to_nat j)) as [old Hold]; [lia |].
  rewrite Hold. simpl. eauto.
Qed.

Lemma np_set_at_Ok (w : list Q) (j : Z) (x : Q) :
  0 ≤ j < Z.of_nat (length w) →
  np_set_at w j x = Ok (<[Z.to_nat j := x]> w).
Proof.
  intros Hj. unfold np_set_at, np_index.
  destruct (Z.leb_spec 0 j); [| lia].
  by destruct (Z.ltb_spec j (Z.of_nat (length w))); [| lia].
Qed.

(** [for i in range(k, k + m): w[i] = i*res] overwrites the positions
    k .. k + m - 1 and nothing else. *)
Lemma fill_w_spec (res : Z) (m : nat) (k : nat) (w : list Q) :
  (k + m ≤ length w)%nat →
  fill_w res (seqZ (Z.of_nat k) (Z.of_nat m)) w =
  Ok (take k w ++
      ((fun i => inject_Z (i * res)) <$> seqZ (Z.of_nat k) (Z.of_nat m)) ++
      drop (k + m) w).
Proof.
  revert k w. induction m as [| m IH]; intros k w Hk.
  - simpl. rewrite Nat.add_0_r. by rewrite take_drop.
  - rewrite seqZ_cons by lia. cbn [fill_w].
    rewrite np_set_at_Ok by lia. cbn [mbind result_bind].
    replace (Z.succ (Z.of_nat k)) with (Z.of_nat (S k)) by lia.
    replace (Z.pred (Z.of_nat (S m))) with (Z.of_nat m) by lia.
    rewrite IH by (rewrite length_insert; lia).
    rewrite Nat2Z.id. f_equal.
    rewrite fmap_cons.
    rewrite (take_S_r (<[k:=_]> w) k (inject_Z (Z.of_nat k * res))).
    2:{ apply list_lookup_insert_eq. lia. }
    rewrite take_insert_ge by lia.
    rewrite drop_insert_lt by lia.
    rewrite <- app_assoc. simpl.
    by replace (S (k + m))%nat with (k + S m)%nat by lia.
Qed.

Lemma fill_w_timesteps (T res : Z) :
  0 ≤ Z.quot T res →
  fill_w res (seqZ 0 (Z.quot T res))
    (replicate (Z.to_nat (Z.quot T res)) 0%Q) = Ok (timesteps T res).
Proof.
  intros Hq. unfold timesteps.
  pose proof (fill_w_spec res (Z.to_nat (Z.quot T res)) 0
                (replicate (Z.to_nat (Z.quot T res)) 0%Q)) as H.
  rewrite length_replicate in H. specialize (H ltac:(lia)).
  rewrite Z2Nat.id in H by lia. change (Z.of_nat 0) with 0 in H.
  rewrite H. simpl. rewrite drop_ge by (rewrite length_replicate; lia).
  by rewrite app_nil_r.
Qed.

Section LoopsFacts.
Context {sim world stabilisers : Type}.
Variable TableauSimulator : sim.
Variable sample_stabilisers : sim → result stabilisers.
Variable binary_matrix : stabilisers → result matrix.
Variable gates : Z → sim → world → result (sim * world).

Lemma sample_entropy_length (rep res cut i : Z) (s : sim) (v v' : list Q) :
  sample_entropy sample_stabilisers binary_matrix rep res cut i s v = Ok v' →
  length v' = length v.
Proof.
  unfold sample_entropy. intros H.
  destruct (i mod res =? 0); [| by injection H as <-].
  destruct (sample_stabilisers s) as [zs2 |]; [| done]. simpl in H.
  destruct (binary_matrix zs2) as [mat |]; [| done]. simpl in H.
  destruct (entropy_of mat cut) as [SA |]; [| done]. simpl in H.
  by apply np_add_at_length in H.
Qed.

Lemma run_steps_length (rep res cut : Z) (ts : list Z) (s s' : sim)
    (wd wd' : world) (v v' : list Q) :
  run_steps sample_stabilisers binary_matrix gates rep res cut ts s wd v
    = Ok (s', wd', v') →
  length v' = length v.
Proof.
  revert s wd v. induction ts as [| i ts IH]; intros s wd v H.
  - by injection H as _ _ <-.
  - cbn [run_steps] in H.
    destruct (gates i s wd) as [[s1 wd1] |]; [| done].
    cbn [mbind result_bind] in H.
    destruct (sample_entropy _ _ _ _ _ _ _ _) as [v1 |] eqn:Hv; [| done].
    cbn [mbind result_bind] in H.
    apply IH in H. apply sample_entropy_length in Hv. congruence.
Qed.

Lemma run_reps_length (T rep res cut : Z) (ks : list Z)
    (wd wd' : world) (v v' : list Q) :
  run_reps TableauSimulator sample_stabilisers binary_matrix gates
    T rep res cut ks wd v = Ok (wd', v') →
  length v' = length v.
Proof.
  revert wd v. induction ks as [| k ks IH]; intros wd v H.
  - by injection H as _ <-.
  - cbn [run_reps] in H.
    destruct (run_steps _ _ _ _ _ _ _ _ _ _) as [[[s1 wd1] v1] |] eqn:Hs;
      [| done].
    cbn [mbind result_bind] in H.
    apply IH in H. apply run_steps_length in Hs. congruence.
Qed.

(** A time step that samples into a slot beyond the array ends the loop. *)
Lemma run_steps_overrun (rep res cut : Z) (ts : list Z) (s : sim)
    (wd : world) (v : list Q) :
  Exists (fun i => i mod res = 0 ∧ Z.of_nat (length v) ≤ Z.quot i res) ts →
  ∀ out,
    run_steps sample_stabilisers binary_matrix gates rep res cut ts s wd v
    ≠ Ok out.
Proof.
  intros Hbad. revert s wd.
  remember (length v) as n eqn:Hn. revert v Hn.
  induction Hbad as [i ts [Hmod Hq] | i ts Hbad IH]; intros v Hn s wd out H.
  - cbn [run_steps] in H.
    destruct (gates i s wd) as [[s1 wd1] |]; [| done].
    cbn [mbind result_bind] in H.
    unfold sample_entropy in H. rewrite Hmod in H. simpl in H.
    destruct (sample_stabilisers s1) as [zs2 |]; [| done]. simpl in H.
    destruct (binary_matrix zs2) as [mat |]; [| done]. simpl in H.
    destruct (entropy_of mat cut) as [SA |]; [| done]. simpl in H.
    rewrite np_add_at_beyond in H by lia. done.
  - cbn [run_steps] in H.
    destruct (gates i s wd) as [[s1 wd1] |]; [| done].
    cbn [mbind result_bind] in H.
    destruct (sample_entropy _ _ _ _ _ _ _ _) as [v1 |] eqn:Hv; [| done].
    cbn [mbind result_bind] in H.
    apply sample_entropy_length in Hv.
    apply (IH v1 ltac:(congruence) s1 wd1 out H).
Qed.

(** When the resolution does not divide the number of time steps, the step
    i = res * int(T/res) samples into the slot after the last one. *)
Lemma overrun_step (T res : Z) :
  1 ≤ T → 1 ≤ res → T mod res ≠ 0 →
  Exists (fun i => i mod res = 0 ∧
                   Z.of_nat (Z.to_nat (Z.quot T res)) ≤ Z.quot i res)
         (seqZ 0 T).
Proof.
  intros HT Hres Hmod. apply Exists_exists. exists (res * (T / res)).
  pose proof (Z.mod_pos_bound T res ltac:(lia)).
  pose proof (Z.div_mod T res ltac:(lia)).
  assert (0 ≤ T / res) by (apply Z.div_pos; lia).
  assert (0 ≤ res * (T / res)) by (apply Z.mul_nonneg_nonneg; lia).
  assert (res * (T / res) < T).
  { set (q := T / res) in *. set (m := T mod res) in *. clearbody q m. lia. }
  split_and!.
  - apply elem_of_seqZ. split; [done | by rewrite Z.add_0_l].
  - rewrite Z.mul_comm. apply Z_mod_mult.
  - rewrite (Z.quot_div_nonneg T) by lia.
    rewrite Z.quot_div_nonneg by (done || lia).
    rewrite Z.mul_comm, Z.div_mul by lia. lia.
Qed.

Lemma run_overrun (T rep res cut : Z) (wd : world) :
  1 ≤ T → 1 ≤ rep → 1 ≤ res → T mod res ≠ 0 →
  ∀ out,
    run TableauSimulator sample_stabilisers binary_matrix gates
      T rep res cut wd ≠ Ok out.
Proof.
  intros HT Hrep Hres Hmod out H. unfold run, int_div, np_zeros in H.
  destruct (Z.eqb_spec res 0); [lia |]. simpl in H.
  assert (0 ≤ Z.quot T res) by (apply Z.quot_pos; lia).
  destruct (Z.ltb_spec (Z.quot T res) 0); [lia |]. simpl in H.
  rewrite (seqZ_cons 0 rep) in H by lia. cbn [run_reps] in H.
  destruct (run_steps _ _ _ _ _ _ _ _ _ _) as [o |] eqn:Hs; [| done].
  eapply run_steps_overrun; [| exact Hs].
  rewrite length_replicate. by apply overrun_step.
Qed.

Lemma run_shape (T rep res cut : Z) (wd : world) (v w : list Q) :
  run TableauSimulator sample_stabilisers binary_matrix gates
    T rep res cut wd = Ok (v, w) →
  res ≠ 0 ∧ 0 ≤ Z.quot T res ∧
  length v = Z.to_nat (Z.quot T res) ∧ w = timesteps T res.
Proof.
  intros H. unfold run, int_div, np_zeros in H.
  destruct (Z.eqb_spec res 0); [done |]. simpl in H.
  destruct (Z.ltb_spec (Z.quot T res) 0); [done |]. simpl in H.
  destruct (run_reps _ _ _ _ _ _ _ _ _ _ _) as [[wd1 v1] |] eqn:Hr; [| done].
  cbn [mbind result_bind] in H.
  rewrite fill_w_timesteps in H by lia. simpl in H.
  injection H as <- <-.
  apply run_reps_length in Hr. rewrite length_replicate in Hr.
  done.
Qed.

Lemma run_no_repetition (T rep res cut : Z) (wd : world) :
  rep ≤ 0 → res ≠ 0 → 0 ≤ Z.quot T res →
  run TableauSimulator sample_stabilisers binary_matrix gates
    T rep res cut wd
  = Ok (replicate (Z.to_nat (Z.quot T res)) 0%Q, timesteps T res).
Proof.
  intros Hrep Hres HT. unfold run, int_div, np_zeros.
  destruct (Z.eqb_spec res 0); [done |]. simpl.
  destruct (Z.ltb_spec (Z.quot T res) 0); [lia |]. simpl.
  replace (seqZ 0 rep) with (@nil Z).
  2:{ unfold seqZ. by replace (Z.to_nat rep) with 0%nat by lia. }
  cbn [run_reps mbind result_bind].
  by rewrite fill_w_timesteps.
Qed.
End LoopsFacts.

Lemma runFS2_steps_run {sim world stabilisers : Type}
    (FS2StepE FS2StepO : Z → sim → world → result (sim * world))
    (sample_stabilisers : sim → result stabilisers)
    (binary_matrix : stabilisers → result matrix)
    (N rep res cut : Z) (ts : list Z) (s : sim) (wd : world) (v : list Q) :
  runFS2_steps FS2StepE FS2StepO sample_stabilisers binary_matrix
    N rep res cut ts s wd v
  = run_steps sample_stabilisers binary_matrix
      (fun i s wd => if i mod 2 =? 0 then FS2StepE N s wd
                     else FS2StepO N s wd)
      rep res cut ts s wd v.
Proof.
  revert s wd v. induction ts as [| i ts IH]; intros s wd v; [done |].
  cbn [runFS2_steps run_steps].
  destruct (if i mod 2 =? 0 then _ else _) as [[s1 wd1] |]; [| done].
  cbn [mbind result_bind]. unfold sample_entropy.
  destruct (i mod res =? 0); [| apply IH].
  destruct (sample_stabilisers s1) as [zs2 |]; [| done].
  cbn [mbind result_bind].
  destruct (binary_matrix zs2) as [mat |]; [| done].
  cbn [mbind result_bind].
  destruct (entropy_of mat cut) as [SA |]; [| done].
  cbn [mbind result_bind].
  destruct (np_add_at _ _ _) as [v1 |]; [| done].
  cbn [mbind result_bind]. apply IH.
Qed.

Lemma runFS2_run {sim world stabilisers : Type} (TableauSimulator : sim)
    (FS2StepE FS2StepO : Z → sim → world → result (sim * world))
    (sample_stabilisers : sim → result stabilisers)
    (binary_matrix : stabilisers → result matrix)
    (N T rep res cut : Z) (wd : world) :
  runFS2 TableauSimulator FS2StepE FS2StepO sample_stabilisers binary_matrix
    N T rep res cut wd
  = run TableauSimulator sample_stabilisers binary_matrix
      (fun i s wd => if i mod 2 =? 0 then FS2StepE N s wd
                     else FS2StepO N s wd)
      T rep res cut wd.
Proof.
  unfold runFS2, run.
  destruct (int_div T res) as [T2 |]; [| done]. cbn [mbind result_bind].
  destruct (np_zeros T2) as [v |]; [| done]. cbn [mbind result_bind].
  assert (Hreps : ∀ ks wd v,
    runFS2_reps TableauSimulator FS2StepE FS2StepO sample_stabilisers
      binary_matrix N T rep res cut ks wd v
    = run_reps TableauSimulator sample_stabilisers binary_matrix
        (fun i s wd => if i mod 2 =? 0 then FS2StepE N s wd
                       else FS2StepO N s wd)
        T rep res cut ks wd v).
  { induction ks as [| k ks IH]; intros wd1 v1; [done |].
    cbn [runFS2_reps run_reps]. rewrite runFS2_steps_run.
    destruct (run_steps _ _ _ _ _ _ _ _ _ _) as [[[s2 wd2] v2] |]; [| done].
    cbn [mbind result_bind]. apply IH. }
  by rewrite Hreps.
Qed.

Section LoopsTotal.
Context {sim world stabilisers : Type}.
Variable TableauSimulator : sim.
Variable sample_stabilisers : sim → result stabilisers.
Variable binary_matrix : stabilisers → result matrix.
Variable gates : Z → sim → world → result (sim * world).
Variable cut : Z.
Hypothesis gates_total : ∀ i s wd, ∃ out, gates i s wd = Ok out.
Hypothesis sample_total : ∀ s, ∃ zs, sample_stabilisers s = Ok zs.
Hypothesis entropy_total :
  ∀ zs, ∃ mat SA, binary_matrix zs = Ok mat ∧ entropy_of mat cut = Ok SA.

Lemma run_steps_total (rep res : Z) (ts : list Z) (s : sim) (wd : world)
    (v : list Q) :
  Forall (fun i => i mod res = 0 →
                   0 ≤ Z.quot i res < Z.of_nat (length v)) ts →
  ∃ out,
    run_steps sample_stabilisers binary_matrix gates rep res cut ts s wd v
    = Ok out.
Proof.
  intros Hts. revert s wd.
  remember (length v) as n eqn:Hn. revert v Hn.
  induction Hts as [| i ts Hi _ IH]; intros v Hn s wd; [by eexists |].
  cbn [run_steps].
  destruct (gates_total i s wd) as [[s1 wd1] ->]. cbn [mbind result_bind].
  unfold sample_entropy. destruct (Z.eqb_spec (i mod res) 0) as [Hmod | Hmod].
  - destruct (sample_total s1) as [zs ->]. cbn [mbind result_bind].
    destruct (entropy_total zs) as (mat & SA & Hmat & HSA).
    rewrite Hmat. cbn [mbind result_bind].
    rewrite HSA. cbn [mbind result_bind].
    destruct (np_add_at_Ok v (Z.quot i res) (inject_Z SA / inject_Z rep)%Q)
      as [v1 Hv1]; [subst n; auto |].
    rewrite Hv1. cbn [mbind result_bind].
    apply IH. apply np_add_at_length in Hv1. congruence.
  - cbn [mbind result_bind]. by apply IH.
Qed.

Lemma run_steps_IndexError (rep res : Z) (ts : list Z) (s : sim) (wd : world)
    (v : list Q) :
  Forall (fun i => i mod res = 0 → 0 ≤ Z.quot i res) ts →
  Exists (fun i => i mod res = 0 ∧ Z.of_nat (length v) ≤ Z.quot i res) ts →
  run_steps sample_stabilisers binary_matrix gates rep res cut ts s wd v
  = Raise IndexError.
Proof.
  intros Hts. revert s wd.
  remember (length v) as n eqn:Hn. revert v Hn.
  induction Hts as [| i ts Hi _ IH]; intros v Hn s wd Hbad;
    [by apply Exists_nil in Hbad |].
  cbn [run_steps].
  destruct (gates_total i s wd) as [[s1 wd1] ->]. cbn [mbind result_bind].
  unfold sample_entropy. destruct (Z.eqb_spec (i mod res) 0) as [Hmod | Hmod].
  - destruct (sample_total s1) as [zs ->]. cbn [mbind result_bind].
    destruct (entropy_total zs) as (mat & SA & Hmat & HSA).
    rewrite Hmat. cbn [mbind result_bind].
    rewrite HSA. cbn [mbind result_bind].
    destruct (decide (Z.quot i res < Z.of_nat n)) as [Hin | Hout].
    + destruct (np_add_at_Ok v (Z.quot i res) (inject_Z SA / inject_Z rep)%Q)
        as [v1 Hv1]; [subst n; auto |].
      rewrite Hv1. cbn [mbind result_bind].
      apply Exists_cons in Hbad as [[_ Hbad] | Hbad]; [lia |].
      apply IH; [| done]. apply np_add_at_length in Hv1. congruence.
    + rewrite np_add_at_beyond by lia. done.
  - cbn [mbind result_bind].
    apply Exists_cons in Hbad as [[Hbad _] | Hbad]; [done |].
    by apply IH.
Qed.

Lemma run_reps_total (T rep res : Z) (ks : list Z) (wd : world) (v : list Q) :
  Forall (fun i => i mod res = 0 →
                   0 ≤ Z.quot i res < Z.of_nat (length v)) (seqZ 0 T) →
  ∃ out,
    run_reps TableauSimulator sample_stabilisers binary_matrix gates
      T rep res cut ks wd v = Ok out.
Proof.
  revert wd v. induction ks as [| k ks IH]; intros wd v Hts; [by eexists |].
  cbn [run_reps].
  destruct (run_steps_total rep res (seqZ 0 T) TableauSimulator wd v Hts)
    as [[[s1 wd1] v1] Hs].
  rewrite Hs. cbn [mbind result_bind].
  apply IH. apply run_steps_length in Hs. by rewrite Hs.
Qed.

(** X25.  The loop that [runFS3], [runFS3_Np] and [runLocInt] share, with
    at least one time step and one repetition, a resolution of at least 1,
    and collaborators that never fail (the gates of a time step, the
    sampling of the stabilisers, their encoding and the entropy of the
    encoded array): it returns when the resolution divides the number of
    time steps and raises IndexError when it does not. *)
Theorem run_returns_iff_resolution_divides (T rep res : Z) (wd : world) :
  1 ≤ T → 1 ≤ rep → 1 ≤ res →
  (T mod res = 0 →
   ∃ v w, run TableauSimulator sample_stabilisers binary_matrix gates
            T rep res cut wd = Ok (v, w)) ∧
  (T mod res ≠ 0 →
   run TableauSimulator sample_stabilisers binary_matrix gates
     T rep res cut wd = Raise IndexError).
Proof.
  intros HT Hrep Hres.
  assert (Hq : 0 ≤ Z.quot T res) by (apply Z.quot_pos; lia).
  assert (Hpos : Forall (fun i => i mod res = 0 → 0 ≤ Z.quot i res)
                   (seqZ 0 T)).
  { apply Forall_forall. intros i Hi _. apply elem_of_seqZ in Hi.
    apply Z.quot_pos; lia. }
  split; intros Hmod.
  - unfold run, int_div, np_zeros.
    destruct (Z.eqb_spec res 0); [lia |]. cbn [mbind result_bind].
    destruct (Z.ltb_spec (Z.quot T res) 0); [lia |]. cbn [mbind result_bind].
    destruct (run_reps_total T rep res (seqZ 0 rep) wd
                (replicate (Z.to_nat (Z.quot T res)) 0%Q))
      as [[wd1 v1] Hr].
    { rewrite length_replicate. apply Forall_forall. intros i Hi _.
      apply elem_of_seqZ in Hi. split; [apply Z.quot_pos; lia |].
      rewrite !Z.quot_div_nonneg by lia. rewrite Z2Nat.id by (apply Z.div_pos; lia).
      apply Z.div_lt_upper_bound; [lia |].
      apply Z.mod_divide in Hmod; [| lia]. destruct Hmod as [q ->].
      rewrite Z.div_mul by lia. lia. }
    rewrite Hr. cbn [mbind result_bind].
    rewrite fill_w_timesteps by done. cbn [mbind result_bind]. eauto.
  - unfold run, int_div, np_zeros.
    destruct (Z.eqb_spec res 0); [lia |]. cbn [mbind result_bind].
    destruct (Z.ltb_spec (Z.quot T res) 0); [lia |]. cbn [mbind result_bind].
    rewrite (seqZ_cons 0 rep) by lia. cbn [run_reps].
    rewrite run_steps_IndexError; [done | done |].
    rewrite length_replicate. by apply overrun_step.
Qed.
End LoopsTotal.

Lemma run_returns_iff_resolution_divides_witness :
  (∃ v w,
     runFS3 tt (fun _ (s : unit) (wd : unit) => Ok (s, wd)) (fun _ => Ok tt)
       (fun _ => Ok [[1; 1; 0; 0]; [0; 0; 1; 1]]) 2 4 3 2 1 tt = Ok (v, w)) ∧
  runFS3 tt (fun _ (s : unit) (wd : unit) => Ok (s, wd)) (fun _ => Ok tt)
    (fun _ => Ok [[1; 1; 0; 0]; [0; 0; 1; 1]]) 2 5 3 2 1 tt = Raise IndexError.
Proof.
  split.
  - apply (run_returns_iff_resolution_divides tt (fun _ => Ok tt)
             (fun _ => Ok [[1; 1; 0; 0]; [0; 0; 1; 1]])
             (runFS3_gates (fun _ (s : unit) (wd : unit) => Ok (s, wd)) 2) 1).
    + intros i s wd. by eexists.
    + intros s. by eexists.
    + intros zs. eexists _, _. split; reflexivity.
    + lia.
    + lia.
    + lia.
    + reflexivity.
  - apply (run_returns_iff_resolution_divides tt (fun _ => Ok tt)
             (fun _ => Ok [[1; 1; 0; 0]; [0; 0; 1; 1]])
             (runFS3_gates (fun _ (s : unit) (wd : unit) => Ok (s, wd)) 2) 1).
    + intros i s wd. by eexists.
    + intros s. by eexists.
    + intros zs. eexists _, _. split; reflexivity.
    + lia.
    + lia.
    + lia.
    + by vm_compute.
Defined.

Section SamplingLoops.
Context {sim world stabilisers : Type}.
Variable TableauSimulator : sim.
Variables FS2StepE FS2StepO FS3Step Id_Step
  : Z → sim → world → result (sim * world).
Variables FS3_NpStep LocInt_Step1 LocInt_Step2 LocInt_Step3 LocInt_Step4
  : Z → sim → Z → world → result (sim * world).
Variable sample_stabilisers : sim → result stabilisers.
Variable binary_matrix : stabilisers → result matrix.

(** X23.  [runFS2], [runFS3], [runFS3_Np] and [runLocInt] never return when
    the resolution does not divide the number of time steps (with at least
    one time step and one repetition and a resolution of at least 1),
    whatever the gates and the stabilisers are: [v] has int(T/res) slots,
    but the time step res * int(T/res) is below T and is sampled too. *)
Theorem sampling_loops_overrun (N T rep res slow cut : Z) (wd : world)
    (f : Z → Z → Z → Z → world → result (list Q * list Q)) :
  f ∈ [ runFS2 TableauSimulator FS2StepE FS2StepO sample_stabilisers
          binary_matrix N;
        runFS3 TableauSimulator FS3Step sample_stabilisers binary_matrix N;
        (fun T rep res cut =>
           runFS3_Np TableauSimulator Id_Step FS3_NpStep sample_stabilisers
             binary_matrix N T rep res slow cut);
        (fun T rep res cut =>
           runLocInt TableauSimulator Id_Step LocInt_Step1 LocInt_Step2
             LocInt_Step3 LocInt_Step4 sample_stabilisers binary_matrix
             N T rep res slow cut) ] →
  1 ≤ T → 1 ≤ rep → 1 ≤ res → T mod res ≠ 0 →
  ∀ out, f T rep res cut wd ≠ Ok out.
Proof.
  intros Hf HT Hrep Hres Hmod out.
  repeat (apply elem_of_cons in Hf as [-> | Hf]);
    [rewrite runFS2_run | unfold runFS3 | unfold runFS3_Np
    | unfold runLocInt | by apply elem_of_nil in Hf];
    by apply run_overrun.
Qed.

(** X24.  What [runFS2], [runFS3], [runFS3_Np] and [runLocInt] return.
    Without a repetition (rep at most 0) they call no collaborator and
    return an array of zeros with the time steps.  Whenever they return,
    the resolution is not 0, [v] has int(T/res) entries and [w] is
    0, res, 2 res, ..., (int(T/res) - 1) res. *)
Theorem sampling_loops_result (N T rep res slow cut : Z) (wd : world)
    (f : Z → Z → Z → Z → world → result (list Q * list Q)) :
  f ∈ [ runFS2 TableauSimulator FS2StepE FS2StepO sample_stabilisers
          binary_matrix N;
        runFS3 TableauSimulator FS3Step sample_stabilisers binary_matrix N;
        (fun T rep res cut =>
           runFS3_Np TableauSimulator Id_Step FS3_NpStep sample_stabilisers
             binary_matrix N T rep res slow cut);
        (fun T rep res cut =>
           runLocInt TableauSimulator Id_Step LocInt_Step1 LocInt_Step2
             LocInt_Step3 LocInt_Step4 sample_stabilisers binary_matrix
             N T rep res slow cut) ] →
  (rep ≤ 0 → res ≠ 0 → 0 ≤ Z.quot T res →
   f T rep res cut wd =
   Ok (replicate (Z.to_nat (Z.quot T res)) 0%Q, timesteps T res)) ∧
  (∀ v w, f T rep res cut wd = Ok (v, w) →
     res ≠ 0 ∧ 0 ≤ Z.quot T res ∧
     length v = Z.to_nat (Z.quot T res) ∧ w = timesteps T res ∧
     length w = length v).
Proof.
  intros Hf.
  assert (Hrun : ∃ gates,
    f T rep res cut wd =
    run TableauSimulator sample_stabilisers binary_matrix gates
      T rep res cut wd).
  { repeat (apply elem_of_cons in Hf as [-> | Hf]);
      [rewrite runFS2_run | unfold runFS3 | unfold runFS3_Np
      | unfold runLocInt | by apply elem_of_nil in Hf];
      by eexists. }
  destruct Hrun as [gates ->]. split.
  - apply run_no_repetition.
  - intros v w H. apply run_shape in H as (Hres & HT & Hv & ->).
    split_and!; [done .. |].
    unfold timesteps. rewrite length_fmap, length_seqZ. lia.
Qed.
End SamplingLoops.

Lemma sampling_loops_overrun_witness :
  5 mod 2 ≠ 0 ∧
  ∀ out,
    runLocInt tt (fun _ (s : unit) (wd : unit) => Ok (s, wd))
      (fun _ s _ wd => Ok (s, wd)) (fun _ s _ wd => Ok (s, wd))
      (fun _ s _ wd => Ok (s, wd)) (fun _ s _ wd => Ok (s, wd))
      (fun _ => Ok tt) (fun _ => Ok [[1; 1; 0; 0]; [0; 0; 1; 1]])
      2 5 3 2 1 1 tt ≠ Ok out.
Proof.
  split; [by vm_compute |].
  apply (sampling_loops_overrun tt
           (fun _ (s : unit) (wd : unit) => Ok (s, wd))
           (fun _ s wd => Ok (s, wd)) (fun _ s wd => Ok (s, wd))
           (fun _ s wd => Ok (s, wd))
           (fun _ s _ wd => Ok (s, wd)) (fun _ s _ wd => Ok (s, wd))
           (fun _ s _ wd => Ok (s, wd)) (fun _ s _ wd => Ok (s, wd))
           (fun _ s _ wd => Ok (s, wd))
           (fun _ => Ok tt) (fun _ => Ok [[1; 1; 0; 0]; [0; 0; 1; 1]])
           2 5 3 2 1 1 tt
           (fun T rep res cut =>
              runLocInt tt (fun _ (s : unit) (wd : unit) => Ok (s, wd))
                (fun _ s _ wd => Ok (s, wd)) (fun _ s _ wd => Ok (s, wd))
                (fun _ s _ wd => Ok (s, wd)) (fun _ s _ wd => Ok (s, wd))
                (fun _ => Ok tt)
                (fun _ => Ok [[1; 1; 0; 0]; [0; 0; 1; 1]])
                2 T rep res 1 cut)).
  - do 3 (apply elem_of_cons; right). apply elem_of_cons. by left.
  - lia.
  - lia.
  - lia.
  - by vm_compute.
Defined.

Lemma sampling_loops_result_witness :
  (3 ≤ 0 → 2 ≠ 0 → 0 ≤ Z.quot 4 2 →
   runFS2 tt (fun _ (s : unit) (wd : unit) => Ok (s, wd))
     (fun _ s wd => Ok (s, wd)) (fun _ => Ok tt) (fun _ => Ok [[1; 0]])
     1 4 3 2 1 tt
   = Ok (replicate (Z.to_nat (Z.quot 4 2)) 0%Q, timesteps 4 2)) ∧
  (∀ v w,
     runFS2 tt (fun _ (s : unit) (wd : unit) => Ok (s, wd))
       (fun _ s wd => Ok (s, wd)) (fun _ => Ok tt) (fun _ => Ok [[1; 0]])
       1 4 3 2 1 tt = Ok (v, w) →
     2 ≠ 0 ∧ 0 ≤ Z.quot 4 2 ∧
     length v = Z.to_nat (Z.quot 4 2) ∧ w = timesteps 4 2 ∧
     length w = length v).
Proof.
  apply (sampling_loops_result tt
           (fun _ (s : unit) (wd : unit) => Ok (s, wd))
           (fun _ s wd => Ok (s, wd)) (fun _ s wd => Ok (s, wd))
           (fun _ s wd => Ok (s, wd))
           (fun _ s _ wd => Ok (s, wd)) (fun _ s _ wd => Ok (s, wd))
           (fun _ s _ wd => Ok (s, wd)) (fun _ s _ wd => Ok (s, wd))
           (fun _ s _ wd => Ok (s, wd))
           (fun _ => Ok tt) (fun _ => Ok [[1; 0]])
           1 4 3 2 1 1 tt
           (runFS2 tt (fun _ (s : unit) (wd : unit) => Ok (s, wd))
              (fun _ s wd => Ok (s, wd)) (fun _ => Ok tt)
              (fun _ => Ok [[1; 0]]) 1)).
  apply elem_of_cons. by left.
Defined.

(** ** OTOC.py: [Op] *)

(** X26.  [Op] draws one number r with [random.randint(0, N-3)] and, when
    that fails (N below 3), raises before any gate is sent.  Otherwise it
    sends four gates to a fresh simulator: the identity on qubits N-1 and
    0, [ZH] on r+1 and on r+2, and [C3] on (r, r+1, r+2).  For r within the
    bounds it was drawn from, every qubit of every gate lies in 0 .. N-1,
    the three qubits of the C3 are distinct, and the two ZH act on the
    second and third of them. *)
Theorem Op_gates {sim world : Type} (TableauSimulator : sim)
    (do : sim → gate → result sim)
    (randint : Z → Z → world → result (Z * world)) (N : Z) (wd : world) :
  (∀ e, randint 0 (N - 3) wd = Raise e →
        Op TableauSimulator do randint N wd = Raise e) ∧
  (∀ r wd', randint 0 (N - 3) wd = Ok (r, wd') → 0 ≤ r ≤ N - 3 →
     let gs := [Circuit [("I", [N - 1]); ("I", [0])];
                ZH (r + 1); ZH (r + 2); C3 r (r + 1) (r + 2)] in
     Op TableauSimulator do randint N wd
     = (s ← do_all do TableauSimulator gs; Ok (s, wd')) ∧
     Forall (fun q => 0 ≤ q < N) (gs ≫= qubits) ∧
     NoDup (qubits (C3 r (r + 1) (r + 2))) ∧
     drop 1 gs ≫= qubits = [r + 1; r + 2; r; r + 1; r + 2]).
Proof.
  split.
  - intros e He. unfold Op. by rewrite He.
  - intros r wd' Hr Hbounds gs. split_and!.
    + unfold Op. rewrite Hr. cbn [mbind result_bind gs do_all].
      destruct (do TableauSimulator _) as [s1 |]; [| done].
      cbn [mbind result_bind].
      destruct (do s1 _) as [s2 |]; [| done]. cbn [mbind result_bind].
      destruct (do s2 _) as [s3 |]; [| done]. cbn [mbind result_bind].
      by destruct (do s3 _) as [s4 |].
    + unfold gs. cbn. repeat constructor; lia.
    + cbn. repeat constructor; rewrite ?elem_of_cons, ?elem_of_nil; lia.
    + done.
Qed.

Lemma Op_gates_witness :
  Op [] (fun (s : list gate) g => Ok (s ++ [g]))
    (fun a b (wd : nat) =>
       if b <? a then Raise (ValueError "empty range for randrange()")
       else Ok (b, S wd)) 5 0%nat
  = Ok ([Circuit [("I", [4]); ("I", [0])]; ZH 3; ZH 4; C3 2 3 4], 1%nat).
Proof.
  destruct (Op_gates [] (fun (s : list gate) g => Ok (s ++ [g]))
              (fun a b (wd : nat) =>
                 if b <? a
                 then Raise (ValueError "empty range for randrange()")
                 else Ok (b, S wd)) 5 0%nat) as [_ H].
  destruct (H 2 1%nat) as (HOp & _).
  - reflexivity.
  - lia.
  - rewrite HOp. reflexivity.
Defined.

(** ** OTOC.py: the sampling loops *)


Lemma np_add_at_R_beyond (v : list R) (j : Z) (x : R) :
  Z.of_nat (length v) ≤ j → np_add_at_R v j x = Raise IndexError.
Proof.
  intros Hj. unfold np_add_at_R, np_index.
  destruct (Z.leb_spec 0 j); [| lia].
  destruct (Z.ltb_spec j (Z.of_nat (length v))); [lia |]. simpl.
  destruct (Z.leb_spec (- Z.of_nat (length v)) j); [| lia].
  by destruct (Z.ltb_spec j 0); [lia |].
Qed.

Lemma np_add_at_R_length (v v' : list R) (j : Z) (x : R) :
  np_add_at_R v j x = Ok v' → length v' = length v.
Proof.
  unfold np_add_at_R. intros H.
  destruct (np_index (length v) j) as [k |]; [| done]. simpl in H.
  destruct (v !! k) as [old |]; [| done]. simpl in H.
  injection H as <-. apply length_insert.
Qed.



Section OTOCLoopsFacts.
Context {sim world operator : Type}.
Variable TableauSimulator : sim.
Variable encode : sim → operator → result (matrix * list Z).
Variable gates : Z → sim → world → result (sim * world).

Lemma sample_OTOC_length (N rep res : Z) (Op : operator) (i : Z) (s : sim)
    (v v' : list R) :
  sample_OTOC encode N rep res Op i s v = Ok v' → length v' = length v.
Proof.
  unfold sample_OTOC. intros H.
  destruct (i mod res =? 0); [| by injection H as <-].
  destruct (encode s Op) as [[bMat signs3] |]; [| done].
  cbn [mbind result_bind] in H.
  destruct (OTOC_increment _ _ _ _) as [x |]; [| done].
  cbn [mbind result_bind] in H.
  by apply np_add_at_R_length in H.
Qed.





Lemma OTOC_steps_overrun (N rep res : Z) (Op : operator) (ts : list Z)
    (s : sim) (wd : world) (v : list R) :
  Exists (fun i => i mod res = 0 ∧ Z.of_nat (length v) ≤ Z.quot i res) ts →
  ∀ out, OTOC_steps encode gates N rep res Op ts s wd v ≠ Ok out.
Proof.
  intros Hbad. revert s wd.
  remember (length v) as n eqn:Hn. revert v Hn.
  induction Hbad as [i ts [Hmod Hq] | i ts Hbad IH]; intros v Hn s wd out H.
  - cbn [OTOC_steps] in H.
    destruct (gates i s wd) as [[s1 wd1] |]; [| done].
    cbn [mbind result_bind] in H.
    unfold sample_OTOC in H. rewrite Hmod in H. simpl in H.
    destruct (encode s1 Op) as [[bMat signs3] |]; [| done]. simpl in H.
    destruct (OTOC_increment _ _ _ _) as [x |]; [| done]. simpl in H.
    rewrite np_add_at_R_beyond in H by lia. done.
  - cbn [OTOC_steps] in H.
    destruct (gates i s wd) as [[s1 wd1] |]; [| done].
    cbn [mbind result_bind] in H.
    destruct (sample_OTOC _ _ _ _ _ _ _ _) as [v1 |] eqn:Hv; [| done].
    cbn [mbind result_bind] in H.
    apply sample_OTOC_length in Hv.
    apply (IH v1 ltac:(congruence) s1 wd1 out H).
Qed.

Lemma OTOC_run_overrun (N T rep res : Z) (Op : operator) (wd : world) :
  1 ≤ T → 1 ≤ rep → 1 ≤ res → T mod res ≠ 0 →
  ∀ out, OTOC_run TableauSimulator encode gates N T rep res Op wd ≠ Ok out.
Proof.
  intros HT Hrep Hres Hmod out H.
  unfold OTOC_run, int_div, np_zeros_R, np_zeros in H.
  destruct (Z.eqb_spec res 0); [lia |]. cbn [mbind result_bind] in H.
  assert (0 ≤ Z.quot T res) by (apply Z.quot_pos; lia).
  destruct (Z.ltb_spec (Z.quot T res) 0); [lia |].
  cbn [mbind result_bind] in H.
  unfold range in H. rewrite Z.sub_0_r in H.
  rewrite fill_w_timesteps in H by lia. cbn [mbind result_bind] in H.
  rewrite (seqZ_cons 0 rep) in H by lia. cbn [OTOC_reps] in H.
  destruct (OTOC_steps _ _ _ _ _ _ _ _ _ _) as [o |] eqn:Hs; [| done].
  eapply OTOC_steps_overrun; [| exact Hs].
  rewrite length_replicate. by apply overrun_step.
Qed.
End OTOCLoopsFacts.

Section OTOCFunctions.
Context {sim world operator : Type}.
Variable TableauSimulator : sim.
Variables Id_Step Rand1Step : Z → sim → world → result (sim * world).
Variables FS3_NpStep LocInt_Step1 LocInt_Step2 LocInt_Step3 LocInt_Step4
  : Z → sim → Z → world → result (sim * world).
Variable encode : sim → operator → result (matrix * list Z).


(** X28.  [OTOC_FS3_Np], [OTOC_Rand1] and [OTOC_LocInt] never return when
    the resolution does not divide the number of time steps (at least one
    time step and one repetition, resolution at least 1): the time step
    res * int(T/res) is sampled into the slot after the last one of [v]. *)
Theorem OTOC_loops_overrun (N T rep res slow : Z) (Op : operator)
    (wd : world)
    (f : Z → Z → Z → operator → world → result (list R * list Q)) :
  f ∈ [ (fun T rep res =>
           OTOC_FS3_Np TableauSimulator Id_Step FS3_NpStep encode
             N T rep res slow);
        OTOC_Rand1 TableauSimulator Id_Step Rand1Step encode N;
        (fun T rep res =>
           OTOC_LocInt TableauSimulator Id_Step LocInt_Step1 LocInt_Step2
             LocInt_Step3 LocInt_Step4 encode N T rep res slow) ] →
  1 ≤ T → 1 ≤ rep → 1 ≤ res → T mod res ≠ 0 →
  ∀ out, f T rep res Op wd ≠ Ok out.
Proof.
  intros Hf HT Hrep Hres Hmod out.
  repeat (apply elem_of_cons in Hf as [-> | Hf]);
    [unfold OTOC_FS3_Np | unfold OTOC_Rand1 | unfold OTOC_LocInt
    | by apply elem_of_nil in Hf];
    by apply OTOC_run_overrun.
Qed.
End OTOCFunctions.


Lemma OTOC_loops_overrun_witness :
  3 mod 2 ≠ 0 ∧
  ∀ out,
    OTOC_FS3_Np tt (fun _ (s : unit) (wd : unit) => Ok (s, wd))
      (fun _ s _ wd => Ok (s, wd))
      (fun _ (_ : unit) => Ok ([[1; 0]], [0])) 1 3 1 2 1 tt tt ≠ Ok out.
Proof.
  split; [by vm_compute |].
  apply (OTOC_loops_overrun tt
           (fun _ (s : unit) (wd : unit) => Ok (s, wd))
           (fun _ s wd => Ok (s, wd))
           (fun _ s _ wd => Ok (s, wd)) (fun _ s _ wd => Ok (s, wd))
           (fun _ s _ wd => Ok (s, wd)) (fun _ s _ wd => Ok (s, wd))
           (fun _ s _ wd => Ok (s, wd))
           (fun _ (_ : unit) => Ok ([[1; 0]], [0]))
           1 3 1 2 1 tt tt
           (fun T rep res =>
              OTOC_FS3_Np tt (fun _ (s : unit) (wd : unit) => Ok (s, wd))
                (fun _ s _ wd => Ok (s, wd))
                (fun _ (_ : unit) => Ok ([[1; 0]], [0])) 1 T rep res 1)).
  - apply elem_of_cons. by left.
  - lia.
  - lia.
  - lia.
  - by vm_compute.
Defined.
